(** * Bring Anything to Life: generation client, video poller, creation
      store and session controller

    A shallow embedding of the TypeScript sources
      - [src/App.tsx]                        (session controller, store)
      - [src/components/InputArea.tsx]       (request validation, staging)
      - [src/components/LivePreview.tsx]     (export, players, indicators)
      - [src/components/CreationHistory.tsx] (the [Creation] interface, the
        history strip and, in its second half, the generation service
        [bringToLife] / [bringToLifeAsVideo])

    Conventions of the embedding.
      - A JavaScript string is a [string]: a sequence of code units below
        256.  The regular-expression class [\s] and [String.prototype.trim]
        are modelled on that range (TAB, LF, VT, FF, CR, SPACE, NBSP).
      - A JavaScript object whose properties hold scalars is a
        [gmap string jsval]; a property that is absent or holds [undefined]
        is a key that is not in the map.  Object spread is [insert], rest
        destructuring is [delete].
      - [JSON.parse] and [JSON.stringify] are modelled on the values they
        denote, not on the text.
      - An [async] function is a computation in the monad [M]: it threads
        the component state, records every effect it performs together with
        the state in which it was performed, and ends in an [outcome].
      - The component state of a computation is the state its setter calls
        lead to.  The generation handlers are also followed between
        renders ([Stepwise], [in_page]): there a setter call is queued
        until the page is rendered, and the page is rendered and other
        handlers make their calls while a handler waits at an [await]. *)

From Stdlib Require Import ZArith String Ascii Lia.
From stdpp Require Import gmap strings list.

Open Scope Z_scope.

(* ================================================================== *)
(** * JavaScript strings *)
(* ================================================================== *)

Module JsString.

(** The class [\s] on code units below 256. *)
Definition is_space (c : ascii) : bool :=
  match c with
  | "009" | "010" | "011" | "012" | "013" | " " | "160" => true
  | _ => false
  end%char.

(** What is left of [s] after a greedy [\s*] has matched at its start. *)
Fixpoint skip_spaces (s : string) : string :=
  match s with
  | String c r => if is_space c then skip_spaces r else s
  | EmptyString => EmptyString
  end.

(** [strip_prefix p s = Some r] when [s] is [p] followed by [r]. *)
Fixpoint strip_prefix (p s : string) : option string :=
  match p, s with
  | EmptyString, _ => Some s
  | String a p', String b s' =>
      if Ascii.eqb a b then strip_prefix p' s' else None
  | String _ _, EmptyString => None
  end.

Definition startsWith (s p : string) : bool :=
  match strip_prefix p s with Some _ => true | None => false end.

Definition endsWith (s suffix : string) : bool :=
  (String.length suffix <=? String.length s)%nat
  && String.eqb
       (substring (String.length s - String.length suffix)
                  (String.length suffix) s)
       suffix.

(** [hay.includes(needle)] *)
Fixpoint includes (hay needle : string) : bool :=
  startsWith hay needle
  || match hay with
     | EmptyString => false
     | String _ r => includes r needle
     end.

(** [s.replace(/^marker\s*/, '')] for a literal [marker]. *)
Definition replace_leading (marker s : string) : string :=
  match strip_prefix marker s with
  | Some r => skip_spaces r
  | None => s
  end.

(** [s.replace(/marker$/, '')] for a literal [marker]. *)
Definition replace_trailing (marker s : string) : string :=
  if endsWith s marker
  then substring 0 (String.length s - String.length marker) s
  else s.

(** [s.trim()] *)
Definition trim (s : string) : string :=
  String.rev (skip_spaces (String.rev (skip_spaces s))).

(** [s.toLowerCase()] on code units below 256. *)
Definition lower_char (c : ascii) : ascii :=
  let n := N_of_ascii c in
  if ((65 <=? n) && (n <=? 90)
      || (192 <=? n) && (n <=? 222) && negb (n =? 215))%N
  then ascii_of_N (n + 32) else c.

Fixpoint toLowerCase (s : string) : string :=
  match s with
  | EmptyString => EmptyString
  | String c r => String (lower_char c) (toLowerCase r)
  end.

(** [s.split(sep)] for a non-empty separator; [skip] counts the code
    units of a separator that has just been recognised. *)
Fixpoint split_go (sep : string) (skip : nat) (cur s : string)
  : list string :=
  match s with
  | EmptyString => [String.rev cur]
  | String c r =>
      match skip with
      | S k => split_go sep k cur r
      | O =>
          match strip_prefix sep s with
          | Some _ =>
              String.rev cur
                :: split_go sep (String.length sep - 1) EmptyString r
          | None => split_go sep 0 (String c cur) r
          end
      end
  end.

Definition split (s sep : string) : list string :=
  split_go sep 0 EmptyString s.

End JsString.

Import JsString.

(* ================================================================== *)
(** * Values, objects, thrown values and outcomes *)
(* ================================================================== *)

(** The scalar values a property of a [Creation] (or of a parsed JSON
    payload) can hold.  [VNum n] is a finite number: the integers stand for
    all of them, and [0] for both zeros, which [===], [ToBoolean] and
    [new Date] do not tell apart.  [VInfinity] and [VNaN] are the numbers
    that are not finite.  A [Date] carries its time value in milliseconds;
    [VDate None] is an Invalid Date (time value NaN). *)
Inductive jsval : Type :=
| VNull
| VBool (b : bool)
| VNum (n : Z)
| VInfinity (negative : bool)
| VNaN
| VStr (s : string)
| VDate (t : option Z).

Global Instance jsval_eq_dec : EqDecision jsval.
Proof. solve_decision. Defined.

(** The scalars of a JSON text: what [JSON.parse] can find in a property
    and what [JSON.stringify] writes for one.  [JHuge] is a number literal
    beyond the range of a Number, such as [1e999], which [JSON.parse] reads
    as [Infinity] (and [-1e999] as [-Infinity]); [JSON.stringify] never
    writes one. *)
Inductive json : Type :=
| JNull
| JBool (b : bool)
| JNum (n : Z)
| JHuge (negative : bool)
| JStr (s : string).

Global Instance json_eq_dec : EqDecision json.
Proof. solve_decision. Defined.

Definition of_json (j : json) : jsval :=
  match j with
  | JNull => VNull
  | JBool b => VBool b
  | JNum n => VNum n
  | JHuge negative => VInfinity negative
  | JStr s => VStr s
  end.

(** What [JSON.parse] makes of a text.  An array or a primitive other than
    [null] reads and spreads like the object of its own enumerable
    properties, and is covered by [ParsedObject]. *)
Inductive parse_result : Type :=
| ParseFails
| ParsedNull
| ParsedObject (o : gmap string json).

(** [interface Creation] of [CreationHistory.tsx]: an object with the
    properties [id], [name], [timestamp], [type], [html?],
    [originalImage?] and [videoUrl?]. *)
Abbreviation Creation := (gmap string jsval).

(** [ToBoolean] of a property read ([None] is [undefined]). *)
Definition truthy (v : option jsval) : bool :=
  match v with
  | None | Some VNull => false
  | Some (VBool b) => b
  | Some (VNum n) => negb (n =? 0)
  | Some (VInfinity _) => true
  | Some VNaN => false
  | Some (VStr s) => negb (String.eqb s "")
  | Some (VDate _) => true
  end.

(** [a === b] on property reads; [NaN] is equal to nothing, and two Date
    objects are equal only when they are the same object, which never
    happens between a stored creation and a freshly parsed payload. *)
Definition strict_eq (a b : option jsval) : bool :=
  match a, b with
  | None, None => true
  | Some VNull, Some VNull => true
  | Some (VBool x), Some (VBool y) => Bool.eqb x y
  | Some (VNum x), Some (VNum y) => x =? y
  | Some (VInfinity x), Some (VInfinity y) => Bool.eqb x y
  | Some (VStr x), Some (VStr y) => String.eqb x y
  | _, _ => false
  end.

(** A string-valued expression under [||]: [None] is [undefined]. *)
Definition str_truthy (s : option string) : bool :=
  match s with
  | Some s => negb (String.eqb s "")
  | None => false
  end.

(** How a template literal renders a possibly undefined string. *)
Definition template (s : option string) : string :=
  match s with Some s => s | None => "undefined" end.

(** What a [throw] can carry. *)
Inductive thrown : Type :=
| ErrorObj (message : string)        (* an instance of [Error] *)
| NonError (message : option string) (* another object, with its [message] *)
| Nullish.                           (* [null] or [undefined] *)

(** A [TypeError] raised by the engine; its text is engine specific and no
    code of the repository inspects it. *)
Definition TypeError (what : string) : thrown :=
  ErrorObj ("TypeError: " +:+ what).

(** How a promise, or a call, ends. *)
Inductive outcome (A : Type) : Type :=
| Returned (a : A)   (* fulfilled *)
| Threw (e : thrown) (* rejected *)
| Pending.           (* never settled *)
Arguments Returned {A} a.
Arguments Threw {A} e.
Arguments Pending {A}.

(** The effects the code performs on its surroundings. *)
Inductive event : Type :=
| ConsoleLog (msg : string)
| ConsoleError (msg : string) (e : thrown)
| ConsoleWarn (msg : string)
| Alert (msg : string)
| SetTimeout (ms : Z)
| GenerateContent (model prompt : string) (inlineData : option (string * string))
| GenerateVideos (model prompt : string) (image : option (string * string))
| GetVideosOperation
| Fetch (url : string)
| HasSelectedApiKey
| OpenSelectKey
| ReadAsDataURL (name : string)
| Download (filename : string) (content : gmap string json).

(* ================================================================== *)
(** * The monad of asynchronous computations *)
(* ================================================================== *)

Section Monad.
Context {St : Type}.

(** A computation starts in a state and ends in an outcome and a state,
    having performed a list of effects, each paired with the state in
    which it was performed. *)
Definition M (A : Type) : Type := St -> outcome A * St * list (St * event).

Definition ret {A} (a : A) : M A := fun s => (Returned a, s, []).

Definition bind {A B} (m : M A) (k : A -> M B) : M B := fun s =>
  match m s with
  | (Returned a, s1, t1) =>
      let '(r, s2, t2) := k a s1 in (r, s2, t1 ++ t2)
  | (Threw e, s1, t1) => (Threw e, s1, t1)
  | (Pending, s1, t1) => (Pending, s1, t1)
  end.

(** [throw e] *)
Definition throw {A} (e : thrown) : M A := fun s => (Threw e, s, []).

(** An effect on the surroundings. *)
Definition emit (e : event) : M unit := fun s => (Returned tt, s, [(s, e)]).

(** [await p] for a promise that ends as [p]. *)
Definition await {A} (p : outcome A) : M A := fun s => (p, s, []).

(** A state setter of [useState].  The state of a computation is the
    state its setter calls lead to: what the page shows once they are
    rendered, when no other handler has made a call meanwhile.  The part on
    the generation handlers between renders tells the call from its
    render. *)
Definition modify (f : St -> St) : M unit := fun s => (Returned tt, f s, []).

Definition get : M St := fun s => (Returned s, s, []).

(** [try { m } catch (e) { h e }] *)
Definition try_catch {A} (m : M A) (h : thrown -> M A) : M A := fun s =>
  match m s with
  | (Threw e, s1, t1) =>
      let '(r, s2, t2) := h e s1 in (r, s2, t1 ++ t2)
  | r => r
  end.

(** [try { m } finally { f }]: [f] runs when [m] has returned or thrown,
    and what [m] did stands unless [f] throws itself. *)
Definition try_finally {A} (m : M A) (f : M unit) : M A := fun s =>
  match m s with
  | (Pending, s1, t1) => (Pending, s1, t1)
  | (r, s1, t1) =>
      match f s1 with
      | (Returned _, s2, t2) => (r, s2, t1 ++ t2)
      | (Threw e, s2, t2) => (Threw e, s2, t1 ++ t2)
      | (Pending, s2, t2) => (Pending, s2, t1 ++ t2)
      end
  end.
End Monad.
Arguments M : clear implicits.

Declare Scope js_scope.
Delimit Scope js_scope with js.
Notation "x <- m ;; k" := (bind m (fun x => k))
  (at level 100, m at next level, right associativity) : js_scope.
Notation "m ;; k" := (bind m (fun _ => k))
  (at level 100, right associativity) : js_scope.
Open Scope js_scope.

Definition when {St} (b : bool) (m : M St unit) : M St unit :=
  if b then m else ret tt.

(* ================================================================== *)
(** * Generation client ([services/gemini]) *)
(* ================================================================== *)

Definition APP_MODEL : string := "gemini-3-pro-preview".
Definition VIDEO_MODEL : string := "veo-3.1-fast-generate-preview".

(** What the app-generation service does when it is called:
    [new GoogleGenAI(...)] and [ai.models.generateContent(...)], whose
    response carries [response.text] (possibly undefined). *)
Record AppService : Type := {
  app_client : outcome unit;
  generateContent : outcome (option string);
}.

(** [operation.status] *)
Record OperationStatus : Type := {
  state : option string;
  error_message : option string; (* [status.error?.message] *)
}.

(** A video operation as the code reads it. *)
Record Operation : Type := {
  done : bool;                    (* [operation.done] *)
  status : option OperationStatus;
  uri : option string; (* [response?.generatedVideos?.[0]?.video?.uri] *)
}.

(** The [Response] of the download. *)
Record Response : Type := {
  ok : bool;
  statusText : string;
  blob_url : outcome string; (* [URL.createObjectURL(await res.blob())] *)
}.

(** What the video service does when it is called: the constructor, the
    submission, the successive answers to [getVideosOperation], and the
    download.  When the list of answers is used up the next poll is never
    answered. *)
Record VideoService : Type := {
  video_client : outcome unit;
  generateVideos : outcome Operation;
  getVideosOperation : list (outcome Operation);
  fetch_video : outcome Response;
}.

Definition fence_placeholder : string := "<!-- Failed to generate content -->".

(** [text.replace(/^```html\s*/, '').replace(/^```\s*/, '').replace(/```$/, '')] *)
Definition strip_fences (text : string) : string :=
  replace_trailing "```"
    (replace_leading "```" (replace_leading "```html" text)).

Definition image_prompt : string :=
  "Analyze this image/document. Detect what functionality is implied. If it is a real-world object (like a desk), gamify it (e.g., a cleanup game). Build a fully interactive web app. IMPORTANT: Do NOT use external image URLs. Recreate the visuals using CSS, SVGs, or Emojis.".

Definition demo_prompt : string :=
  "Create a demo app that shows off your capabilities.".

(** The optional second argument of a request: present when both the data
    and the MIME type are truthy. *)
Definition inline_part (fileBase64 mimeType : option string)
  : option (string * string) :=
  match fileBase64, mimeType with
  | Some d, Some m =>
      if str_truthy fileBase64 && str_truthy mimeType then Some (d, m) else None
  | _, _ => None
  end.

Section GenerationClient.
Context {St : Type}.

Definition bringToLife (svc : AppService)
    (prompt : string) (fileBase64 mimeType : option string) : M St string :=
  await (app_client svc) ;;
  let finalPrompt :=
    if str_truthy fileBase64 then image_prompt
    else if str_truthy (Some prompt) then prompt else demo_prompt in
  try_catch
    (emit (GenerateContent APP_MODEL finalPrompt
             (inline_part fileBase64 mimeType)) ;;
     response_text <- await (generateContent svc) ;;
     let text :=
       if str_truthy response_text then template response_text
       else fence_placeholder in
     ret (strip_fences text))
    (fun error =>
       emit (ConsoleError "Gemini App Generation Error:" error) ;;
       throw error).

(** [while (!operation.done) { await delay; operation = await poll }] *)
Fixpoint poll (answers : list (outcome Operation)) (operation : Operation)
  : M St Operation :=
  if done operation then ret operation
  else
    emit (SetTimeout 10000) ;;
    emit GetVideosOperation ;;
    match answers with
    | [] => await Pending
    | answer :: later =>
        operation' <- await answer ;;
        emit (ConsoleLog "Polling video status...") ;;
        poll later operation'
    end.

(** [operation.status?.state === 'FAILED'] *)
Definition status_failed (operation : Operation) : bool :=
  match status operation with
  | Some st =>
      match state st with
      | Some s => String.eqb s "FAILED"
      | None => false
      end
  | None => false
  end.

(** [operation.status.error?.message] *)
Definition status_error_message (operation : Operation) : option string :=
  match status operation with
  | Some st => error_message st
  | None => None
  end.

Definition entity_not_found : string := "Requested entity was not found.".

Definition api_key_error : thrown :=
  ErrorObj "API key not found. Please re-select your API key and try again.".

Definition no_link_error : thrown :=
  ErrorObj "Video generation succeeded, but no download link was found.".

(** [error instanceof Error && error.message.includes("Requested entity was not found.")] *)
Definition is_entity_not_found (error : thrown) : bool :=
  match error with
  | ErrorObj message => includes message entity_not_found
  | _ => false
  end.

Definition bringToLifeAsVideo (svc : VideoService) (API_KEY : option string)
    (prompt : string) (fileBase64 mimeType : option string) : M St string :=
  await (video_client svc) ;;
  try_catch
    (emit (GenerateVideos VIDEO_MODEL prompt
             (inline_part fileBase64 mimeType)) ;;
     operation <- await (generateVideos svc) ;;
     emit (ConsoleLog "Video generation started, polling for completion...") ;;
     operation <- poll (getVideosOperation svc) operation ;;
     when (status_failed operation)
       (throw (ErrorObj ("Video generation failed: "
                         +:+ template (status_error_message operation)))) ;;
     let downloadLink := uri operation in
     when (negb (str_truthy downloadLink)) (throw no_link_error) ;;
     emit (Fetch (template downloadLink +:+ "&key=" +:+ template API_KEY)) ;;
     videoRes <- await (fetch_video svc) ;;
     when (negb (ok videoRes))
       (throw (ErrorObj ("Failed to download video file: "
                         +:+ statusText videoRes))) ;;
     await (blob_url videoRes))
    (fun error =>
       emit (ConsoleError "Gemini Video Generation Error:" error) ;;
       if is_entity_not_found error then throw api_key_error
       else throw error).
End GenerationClient.

(* ================================================================== *)
(** * Dates and JSON *)
(* ================================================================== *)

Section Dates.
(** [Date.parse] and [Date.prototype.toISOString] of the engine;
    [Date.parse] gives [None] for NaN. *)
Variable Date_parse : string -> option Z.
Variable toISOString : Z -> string.

Definition TimeClip (n : Z) : option Z :=
  if Z.abs n <=? 8640000000000000 then Some n else None.

(** [new Date(v)], for [v] a property read. *)
Definition new_Date (v : option jsval) : jsval :=
  VDate match v with
        | None => None
        | Some VNull => Some 0
        | Some (VBool b) => Some (if b then 1 else 0)
        | Some (VNum n) => TimeClip n
        | Some (VInfinity _) | Some VNaN => None
        | Some (VStr s) =>
            match Date_parse s with
            | Some n => TimeClip n
            | None => None
            end
        | Some (VDate t) => t
        end.

(** What [JSON.stringify] writes for a property value: a number that is
    not finite is written as [null], and a [Date] goes through
    [Date.prototype.toJSON], which gives [null] for an Invalid Date. *)
Definition toJSON (v : jsval) : json :=
  match v with
  | VNull => JNull
  | VBool b => JBool b
  | VNum n => JNum n
  | VInfinity _ | VNaN => JNull
  | VStr s => JStr s
  | VDate (Some t) => JStr (toISOString t)
  | VDate None => JNull
  end.

(** [JSON.stringify] of an object, as the JSON object it writes. *)
Definition JSON_stringify (o : Creation) : gmap string json := toJSON <$> o.

(** The object [JSON.parse] builds for a JSON object. *)
Definition JSON_parse (o : gmap string json) : Creation := of_json <$> o.
End Dates.

(* ================================================================== *)
(** * Session controller and creation store ([App.tsx]) *)
(* ================================================================== *)

Inductive GenerationMode : Type := app | video.

Definition mode_tag (mode : GenerationMode) : string :=
  match mode with app => "app" | video => "video" end.

(** The state of the [App] component. *)
Record AppState : Type := {
  activeCreation : option Creation;
  isGenerating : bool;
  generationMode : GenerationMode;
  history : list Creation;
}.

Definition setActiveCreation (c : option Creation) (st : AppState) : AppState :=
  {| activeCreation := c; isGenerating := isGenerating st;
     generationMode := generationMode st; history := history st |}.

Definition setIsGenerating (b : bool) (st : AppState) : AppState :=
  {| activeCreation := activeCreation st; isGenerating := b;
     generationMode := generationMode st; history := history st |}.

Definition setGenerationMode (m : GenerationMode) (st : AppState) : AppState :=
  {| activeCreation := activeCreation st; isGenerating := isGenerating st;
     generationMode := m; history := history st |}.

(** [setHistory(prev => f prev)] *)
Definition setHistory (f : list Creation -> list Creation) (st : AppState)
  : AppState :=
  {| activeCreation := activeCreation st; isGenerating := isGenerating st;
     generationMode := generationMode st; history := f (history st) |}.

(** A [File] chosen by the user, with what [FileReader.readAsDataURL] makes
    of it. *)
Record File : Type := {
  file_name : string;
  file_type : string;
  file_dataURL : outcome string;
}.

(** [window.aistudio] *)
Record AIStudio : Type := {
  hasSelectedApiKey : outcome bool;
  openSelectKey : outcome unit;
}.

(** The surroundings of one run of a handler. *)
Record Env : Type := {
  aistudio : option AIStudio;
  app_service : AppService;
  video_service : VideoService;
  API_KEY : option string; (* [process.env.API_KEY] *)
  now : Z;                 (* [Date.now()] *)
  randomUUID : string;     (* [crypto.randomUUID()] *)
}.

(** What is under the key ['gemini_app_history'] of [localStorage]: a text
    that is not JSON, a JSON value without a callable [map], or an array,
    in which [None] is a [null] item. *)
Inductive stored : Type :=
| StoredMalformed
| StoredNotArray
| StoredArray (items : list (option (gmap string json))).

(** [res] of [fetch(url)] for an example, and [res.json()]. *)
Record ExampleResponse : Type := {
  ex_ok : bool;
  ex_json : outcome parse_result;
}.

(** One example fetch with the clock and the UUID its callback would draw. *)
Record ExampleFetch : Type := {
  ex_fetch : outcome ExampleResponse;
  ex_now : Z;
  ex_uuid : string;
}.

Definition exampleUrls : list string :=
  [ "https://storage.googleapis.com/sideprojects-asronline/bringanythingtolife/vibecode-blog.json";
    "https://storage.googleapis.com/sideprojects-asronline/bringanythingtolife/cassette.json";
    "https://storage.googleapis.com/sideprojects-asronline/bringanythingtolife/chess.json" ].

(** [Promise.all]: rejected as soon as one promise is, fulfilled when all
    are.  When several promises are rejected, the reason is that of the one
    rejected first in time; this definition gives that of the first in the
    list, which is the same when one promise is rejected. *)
Fixpoint promise_all {A} (ps : list (outcome A)) : outcome (list A) :=
  match ps with
  | [] => Returned []
  | p :: rest =>
      match p, promise_all rest with
      | Threw e, _ => Threw e
      | _, Threw e => Threw e
      | Pending, _ => Pending
      | _, Pending => Pending
      | Returned a, Returned l => Returned (a :: l)
      end
  end.

(** A call that is not awaited: its effects happen, how it ends is lost. *)
Definition detach {St A} (m : M St A) : M St unit := fun s =>
  let '(_, s', t) := m s in (Returned tt, s', t).

(** [xs.map(f)] for an [f] that can throw. *)
Fixpoint map_throwing {A B} (f : A -> outcome B) (xs : list A)
  : outcome (list B) :=
  match xs with
  | [] => Returned []
  | x :: rest =>
      match f x with
      | Returned b =>
          match map_throwing f rest with
          | Returned l => Returned (b :: l)
          | Threw e => Threw e
          | Pending => Pending
          end
      | Threw e => Threw e
      | Pending => Pending
      end
  end.

Section App.
Variable Date_parse : string -> option Z.
Variable toISOString : Z -> string.

(** ** Loading and persisting the history *)

(** [{ ...item, timestamp: new Date(item.timestamp) }]; reading a
    property of a [null] item throws. *)
Definition revive (item : option (gmap string json)) : outcome Creation :=
  match item with
  | None => Threw (TypeError "cannot read properties of null")
  | Some o =>
      let item := JSON_parse o in
      Returned (<["timestamp" := new_Date Date_parse (item !! "timestamp")]> item)
  end.

(** [JSON.parse(saved)] followed by [parsed.map(...)]. *)
Definition parse_saved (saved : stored) : outcome (list Creation) :=
  match saved with
  | StoredMalformed => Threw (ErrorObj "SyntaxError")
  | StoredNotArray => Threw (TypeError "parsed.map is not a function")
  | StoredArray items => map_throwing revive items
  end.

(** The callback of [exampleUrls.map]: [null] for a response that is not
    [ok], the revived creation otherwise. *)
Definition load_example (x : ExampleFetch) : outcome (option Creation) :=
  match ex_fetch x with
  | Returned res =>
      if negb (ex_ok res) then Returned None
      else
        match ex_json res with
        | Returned ParseFails => Threw (ErrorObj "SyntaxError")
        | Returned ParsedNull =>
            Threw (TypeError "cannot read properties of null")
        | Returned (ParsedObject o) =>
            let data := JSON_parse o in
            let timestamp :=
              new_Date Date_parse
                (if truthy (data !! "timestamp") then data !! "timestamp"
                 else Some (VNum (ex_now x))) in
            let id :=
              if truthy (data !! "id") then default VNull (data !! "id")
              else VStr (ex_uuid x) in
            Returned (Some (<["id" := id]> (<["timestamp" := timestamp]> data)))
        | Threw e => Threw e
        | Pending => Pending
        end
  | Threw e => Threw e
  | Pending => Pending
  end.

(** [examples.filter(e => e !== null)] *)
Definition non_null (examples : list (option Creation)) : list Creation :=
  omap id examples.

(** [loadedHistory] of [initHistory]: what is read back from the
    storage, empty when there is nothing or when reading it throws. *)
Definition read_history (saved : option stored) : M AppState (list Creation) :=
  match saved with
  | Some text =>
      try_catch (await (parse_saved text))
        (fun e => emit (ConsoleError "Failed to load history" e) ;; ret [])
  | None => ret []
  end.

(** The [else] branch of [initHistory]: the examples are fetched together
    and those that are not [null] become the history. *)
Definition load_examples (fetch_example : string -> ExampleFetch)
  : M AppState unit :=
  try_catch
    (foldr (fun url rest => emit (Fetch url) ;; rest) (ret tt) exampleUrls ;;
     examples <-
       await (promise_all
                (map (fun url => load_example (fetch_example url))
                     exampleUrls)) ;;
     modify (setHistory (fun _ => non_null examples)))
    (fun e => emit (ConsoleError "Failed to load examples" e)).

(** The first effect of [App]: [initHistory]. *)
Definition initHistory (saved : option stored)
    (fetch_example : string -> ExampleFetch) : M AppState unit :=
  loadedHistory <- read_history saved ;;
  if (0 <? Z.of_nat (length loadedHistory))
  then modify (setHistory (fun _ => loadedHistory))
  else load_examples fetch_example.

(** What the second effect writes: every creation without its
    [videoUrl]. *)
Definition serialize_history (h : list Creation) : list (gmap string json) :=
  map (fun c => JSON_stringify toISOString (delete "videoUrl" c)) h.

(** The second effect of [App], run when [history] has changed: it
    rewrites the stored text unless the history is empty or
    [localStorage.setItem] throws ([setItem_throws]). *)
Definition persist (setItem_throws : option thrown) (h : list Creation)
    (storage : option stored) : option stored * list event :=
  if (0 <? Z.of_nat (length h))
  then
    match setItem_throws with
    | None => (Some (StoredArray (map Some (serialize_history h))), [])
    | Some e =>
        (storage, [ConsoleWarn "Local storage full or error saving history"])
    end
  else (storage, []).

(** ** Generation *)

(** [fileToBase64]: the part of the data URL after its first comma. *)
Definition fileToBase64 (file : File) : M AppState (option string) :=
  emit (ReadAsDataURL (file_name file)) ;;
  result <- await (file_dataURL file) ;;
  ret (split result "," !! 1%nat).

(** [a || b] on strings *)
Definition str_or (a : option string) (b : string) : string :=
  if str_truthy a then template a else b.

(** [data:${mimeType};base64,${imageBase64}], or undefined. *)
Definition data_url (imageBase64 mimeType : option string) : option string :=
  if str_truthy imageBase64 && str_truthy mimeType
  then Some ("data:" +:+ template mimeType +:+ ";base64,"
             +:+ template imageBase64)
  else None.

(** An object literal property whose value may be undefined. *)
Definition with_optional (k : string) (v : option string) (o : Creation)
  : Creation :=
  match v with
  | Some s => <[k := VStr s]> o
  | None => o
  end.

(** The key check before a video request. *)
Definition ensure_key (env : Env) : M AppState unit :=
  match aistudio env with
  | Some studio =>
      emit HasSelectedApiKey ;;
      hasKey <- await (hasSelectedApiKey studio) ;;
      when (negb hasKey) (emit OpenSelectKey ;; await (openSelectKey studio))
  | None => ret tt
  end.

(** [error.message], which throws when [error] is null or undefined. *)
Definition error_message_of (error : thrown) : M AppState (option string) :=
  match error with
  | ErrorObj m => ret (Some m)
  | NonError m => ret m
  | Nullish => throw (TypeError "cannot read properties of undefined")
  end.

(** The [catch] block shared by the two generation handlers. *)
Definition report_failure (env : Env) (log prefix : string) (error : thrown)
  : M AppState unit :=
  emit (ConsoleError log error) ;;
  message <- error_message_of error ;;
  emit (Alert (prefix +:+ str_or message "Please try again.")) ;;
  match message with
  | Some m =>
      when (includes m "API key not found")
        (match aistudio env with
         | Some _ => emit OpenSelectKey
         | None => ret tt
         end)
  | None => throw (TypeError "cannot read properties of undefined")
  end.

(** [setActiveCreation(c); setHistory(prev => [c, ...prev])] *)
Definition adopt (c : Creation) : M AppState unit :=
  modify (setActiveCreation (Some c)) ;;
  modify (setHistory (fun prev => c :: prev)).

Definition handleGenerate (env : Env)
    (promptText : string) (file : option File) (mode : GenerationMode)
  : M AppState unit :=
  modify (setIsGenerating true) ;;
  modify (setGenerationMode mode) ;;
  modify (setActiveCreation None) ;;
  try_finally
    (try_catch
       (encoded <-
          match file with
          | Some f =>
              imageBase64 <- fileToBase64 f ;;
              ret (imageBase64, Some (toLowerCase (file_type f)))
          | None => ret (None, None)
          end ;;
        let '(imageBase64, mimeType) := encoded in
        let newCreation : Creation :=
          <["name" := VStr (str_or (file_name <$> file)
                              (str_or (Some (substring 0 30 promptText))
                                 "New Creation"))]>
            (with_optional "originalImage" (data_url imageBase64 mimeType)
               (<["type" := VStr (mode_tag mode)]> ∅)) in
        match mode with
        | video =>
            ensure_key env ;;
            videoUrl <- bringToLifeAsVideo (video_service env) (API_KEY env)
                          promptText imageBase64 mimeType ;;
            when (str_truthy (Some videoUrl))
              (adopt (<["timestamp" := VDate (Some (now env))]>
                        (<["id" := VStr (randomUUID env)]>
                           (<["videoUrl" := VStr videoUrl]> newCreation))))
        | app =>
            html <- bringToLife (app_service env)
                      promptText imageBase64 mimeType ;;
            when (str_truthy (Some html))
              (adopt (<["timestamp" := VDate (Some (now env))]>
                        (<["id" := VStr (randomUUID env)]>
                           (<["html" := VStr html]> newCreation))))
        end)
       (report_failure env "Failed to generate:" "Something went wrong: "))
    (modify (setIsGenerating false)).

(** [originalImage.split(';base64,')] and what is read off its parts. *)
Definition seed_of (originalImage : string) : option string * option string :=
  match split originalImage ";base64," with
  | [head; data] => (Some data, split head ":" !! 1%nat)
  | _ => (None, None)
  end.

Definition handleRegenerateVideo (env : Env)
    (newPrompt : string) (originalCreation : Creation) : M AppState unit :=
  modify (setIsGenerating true) ;;
  modify (setGenerationMode video) ;;
  try_finally
    (try_catch
       (encoded <-
          (if truthy (originalCreation !! "originalImage")
           then
             match originalCreation !! "originalImage" with
             | Some (VStr s) => ret (seed_of s)
             | _ => throw (TypeError "split is not a function")
             end
           else ret (None, None)) ;;
        let '(imageBase64, mimeType) := encoded in
        ensure_key env ;;
        videoUrl <- bringToLifeAsVideo (video_service env) (API_KEY env)
                      newPrompt imageBase64 mimeType ;;
        when (str_truthy (Some videoUrl))
          (adopt (<["videoUrl" := VStr videoUrl]>
                    (<["name" := VStr newPrompt]>
                       (<["timestamp" := VDate (Some (now env))]>
                          (<["id" := VStr (randomUUID env)]>
                             (<["type" := VStr "video"]>
                                (match originalCreation !! "originalImage" with
                                 | Some v => <["originalImage" := v]> ∅
                                 | None => ∅
                                 end))))))))
       (report_failure env "Failed to regenerate video:"
          "Something went wrong during regeneration: "))
    (modify (setIsGenerating false)).

Definition handleReset : M AppState unit :=
  modify (setActiveCreation None) ;;
  modify (setIsGenerating false).

Definition handleSelectCreation (creation : Creation) : M AppState unit :=
  modify (setActiveCreation (Some creation)).

Definition handleReorderHistory (newHistory : list Creation)
  : M AppState unit :=
  modify (setHistory (fun _ => newHistory)).

(** ** Import *)

(** [(parsed.html || parsed.videoUrl) && parsed.name && parsed.type] *)
Definition import_accepts (parsed : Creation) : bool :=
  (truthy (parsed !! "html") || truthy (parsed !! "videoUrl"))
  && truthy (parsed !! "name") && truthy (parsed !! "type").

(** [{ ...parsed, timestamp: new Date(parsed.timestamp || Date.now()),
       id: parsed.id || crypto.randomUUID() }] *)
Definition importedCreation (env : Env) (parsed : Creation) : Creation :=
  <["id" := if truthy (parsed !! "id")
            then default VNull (parsed !! "id")
            else VStr (randomUUID env)]>
    (<["timestamp" :=
         new_Date Date_parse
           (if truthy (parsed !! "timestamp")
            then parsed !! "timestamp"
            else Some (VNum (now env)))]> parsed).

(** [prev => prev.some(c => c.id === imported.id) ? prev : [imported, ...prev]] *)
Definition add_unless_present (imported : Creation) (prev : list Creation)
  : list Creation :=
  if existsb (fun c => strict_eq (c !! "id") (imported !! "id")) prev
  then prev else imported :: prev.

(** The [onload] callback of [handleImportFile], for a file that was
    chosen and read; [None] is no file chosen. *)
Definition handleImportFile (env : Env) (file : option parse_result)
  : M AppState unit :=
  match file with
  | None => ret tt
  | Some text =>
      try_catch
        (parsed <-
           match text with
           | ParseFails => throw (ErrorObj "SyntaxError")
           | ParsedNull => throw (TypeError "cannot read properties of null")
           | ParsedObject o => ret (JSON_parse o)
           end ;;
         if import_accepts parsed
         then
           let imported := importedCreation env parsed in
           modify (setHistory (add_unless_present imported)) ;;
           modify (setActiveCreation (Some imported))
         else emit (Alert "Invalid creation file format."))
        (fun err =>
           emit (ConsoleError "Import error" err) ;;
           emit (Alert "Failed to import creation."))
  end.

(** ** The input area ([InputArea.tsx]) *)

Record InputArea : Type := {
  mode : GenerationMode;
  prompt : string;
  stagedFile : option File;
}.

Definition is_app (m : GenerationMode) : bool :=
  match m with app => true | video => false end.

Definition is_video (m : GenerationMode) : bool :=
  match m with video => true | app => false end.

(** [!!stagedFile] *)
Definition is_Some_file (f : option File) : bool :=
  match f with Some _ => true | None => false end.

(** [handleGenerateClick]; it returns the state of the input area after
    the click.  [onGenerate] is called without [await]. *)
Definition handleGenerateClick
    (onGenerate : string -> option File -> GenerationMode -> M AppState unit)
    (isGenerating disabled : bool) (ia : InputArea) : M AppState InputArea :=
  if isGenerating || disabled then ret ia
  else if is_app (mode ia) && negb (is_Some_file (stagedFile ia))
  then emit (Alert "Please upload a file to generate an app.") ;; ret ia
  else if is_video (mode ia) && String.eqb (trim (prompt ia)) ""
          && negb (is_Some_file (stagedFile ia))
  then
    emit (Alert "Please provide a prompt or an image to generate a video.") ;;
    ret ia
  else
    detach (onGenerate (prompt ia) (stagedFile ia) (mode ia)) ;;
    ret {| mode := mode ia; prompt := ""; stagedFile := None |}.

(** [isFocused] of [App] *)
Definition isFocused (st : AppState) : bool :=
  match activeCreation st with Some _ => true | None => false end
  || isGenerating st.

(** A click on the Generate button as [App] wires it:
    [<InputArea onGenerate={handleGenerate} isGenerating={isGenerating}
    disabled={isFocused} />]. *)
Definition click_generate (env : Env) (ia : InputArea) : M AppState InputArea :=
  st <- get ;;
  handleGenerateClick (handleGenerate env) (isGenerating st) (isFocused st) ia.

(** ** The preview ([LivePreview.tsx]) *)

(** [/[^a-z0-9]/gi] *)
Definition is_alnum (c : ascii) : bool :=
  let n := N_of_ascii c in
  ((48 <=? n) && (n <=? 57) || (65 <=? n) && (n <=? 90)
   || (97 <=? n) && (n <=? 122))%N.

(** [name.replace(/[^a-z0-9]/gi, '_').toLowerCase()] *)
Fixpoint underscore (s : string) : string :=
  match s with
  | EmptyString => EmptyString
  | String c r => String (if is_alnum c then c else "_"%char) (underscore r)
  end.

Definition handleExport (creation : option Creation) : M AppState unit :=
  match creation with
  | None => ret tt
  | Some creation =>
      let exportableCreation := delete "videoUrl" creation in
      let dataStr := JSON_stringify toISOString exportableCreation in
      match creation !! "name" with
      | Some (VStr name) =>
          emit (Download (toLowerCase (underscore name) +:+ "_artifact.json")
                  dataStr)
      | _ => throw (TypeError "creation.name.replace is not a function")
      end
  end.

(** [handleRegenerateClick], with [onRegenerateVideo] as [App] wires it. *)
Definition handleRegenerateClick (env : Env) (creation : option Creation)
    (editablePrompt : string) (isLoading : bool) : M AppState unit :=
  match creation with
  | Some c =>
      if String.eqb (trim editablePrompt) "" || isLoading then ret tt
      else detach (handleRegenerateVideo env editablePrompt c)
  | None => ret tt
  end.
End App.

(* ================================================================== *)
(** * Observing a run *)
(* ================================================================== *)

(** The delays a run has slept through, in order. *)
Definition delays {St} (trace : list (St * event)) : list Z :=
  omap (fun x => match snd x with SetTimeout ms => Some ms | _ => None end) trace.

(** The effects of a run, without the states. *)
Definition effects {St} (trace : list (St * event)) : list event :=
  map snd trace.

(** How a run ended, the state it left, and what it did. *)
Definition outcome_of {St A} (r : outcome A * St * list (St * event)) : outcome A :=
  fst (fst r).

Definition state_of {St A} (r : outcome A * St * list (St * event)) : St :=
  snd (fst r).

Definition trace_of {St A} (r : outcome A * St * list (St * event))
  : list (St * event) := snd r.

(** A job that is still running. *)
Definition job_pending : Operation :=
  {| done := false; status := None; uri := None |}.

(** A job that has failed with a message. *)
Definition job_failed (msg : string) : Operation :=
  {| done := true;
     status := Some {| state := Some "FAILED"; error_message := Some msg |};
     uri := None |}.

(** What [generateVideos] followed by the loop yields. *)
Definition last_operation (svc : VideoService) : outcome Operation :=
  outcome_of
    ((operation <- await (generateVideos svc) ;;
      poll (getVideosOperation svc) operation) tt).

(** The [catch] block of [bringToLifeAsVideo]. *)
Definition rethrown (error : thrown) : thrown :=
  if is_entity_not_found error then api_key_error else error.

(** The error thrown for a failed job. *)
Definition failed_error (operation : Operation) : thrown :=
  ErrorObj ("Video generation failed: "
            +:+ template (status_error_message operation)).

(** The error thrown for a download that is not [ok]. *)
Definition download_error (res : Response) : thrown :=
  ErrorObj ("Failed to download video file: " +:+ statusText res).

(** The transport throws [e]: at the submission or at a re-check, or, for
    an operation that ended well, at the download. *)
Definition transport_fails (svc : VideoService) (e : thrown) : Prop :=
  last_operation svc = Threw e
  \/ exists operation,
       last_operation svc = Returned operation
       /\ status_failed operation = false
       /\ str_truthy (uri operation) = true
       /\ (fetch_video svc = Threw e
           \/ exists res, fetch_video svc = Returned res
                          /\ ok res = true /\ blob_url res = Threw e).

(** An error is raised inside the [try] block of [bringToLifeAsVideo]: by
    the transport, or by the function itself for a failed job, for a
    missing link, or for a download that is not [ok]. *)
Definition raised (svc : VideoService) (e : thrown) : Prop :=
  transport_fails svc e
  \/ exists operation,
       last_operation svc = Returned operation
       /\ (status_failed operation = true /\ e = failed_error operation
           \/ status_failed operation = false
              /\ str_truthy (uri operation) = false /\ e = no_link_error
           \/ status_failed operation = false
              /\ str_truthy (uri operation) = true
              /\ exists res, fetch_video svc = Returned res
                             /\ ok res = false /\ e = download_error res).

(** A text without a fence marker. *)
Definition no_fence (s : string) : Prop := includes s "```" = false.

(** The closing fence of a wrapper, when there is one. *)
Definition closing (post : string) : Prop := post = "" \/ post = "```".

(** A computation that ends, by returning or by throwing, from every
    state. *)
Definition ends {A} (m : M AppState A) : Prop :=
  forall s, outcome_of (m s) <> Pending.

(** The video service answers every call, and the job it runs comes to an
    end. *)
Definition video_answers (svc : VideoService) : Prop :=
  video_client svc <> Pending
  /\ last_operation svc <> Pending
  /\ fetch_video svc <> Pending
  /\ (forall res, fetch_video svc = Returned res -> blob_url res <> Pending).

(** Everything a generation handler awaits is answered. *)
Definition responsive (env : Env) (file : option File) : Prop :=
  (forall f, file = Some f -> file_dataURL f <> Pending)
  /\ (forall studio, aistudio env = Some studio ->
        hasSelectedApiKey studio <> Pending /\ openSelectKey studio <> Pending)
  /\ app_client (app_service env) <> Pending
  /\ generateContent (app_service env) <> Pending
  /\ video_answers (video_service env).

(** The click is turned down: an alert is raised and nothing else happens. *)
Definition turned_down (run : outcome InputArea * AppState * list (AppState * event))
    (ia : InputArea) (st : AppState) (msg : string) : Prop :=
  run = (Returned ia, st, [(st, Alert msg)]).

(** The click goes through: [handleGenerate] runs with what was entered, and
    the input area is cleared. *)
Definition goes_through (env : Env)
    (run : outcome InputArea * AppState * list (AppState * event))
    (ia : InputArea) (st : AppState) : Prop :=
  let gen := handleGenerate env (prompt ia) (stagedFile ia) (mode ia) st in
  run = (Returned {| mode := mode ia; prompt := ""; stagedFile := None |},
         state_of gen, trace_of gen).

(** JSON has a form for the value from which [JSON.parse] reads it back:
    it is [null], a boolean, a finite number or a string.  A number that is
    not finite is written as [null], and a [Date] as a string or as
    [null]. *)
Definition json_exact (v : jsval) : bool :=
  match v with
  | VNull | VBool _ | VNum _ | VStr _ => true
  | VInfinity _ | VNaN | VDate _ => false
  end.

Section WellDated.
Variable Date_parse : string -> option Z.
Variable toISOString : Z -> string.

(** A time value that is a valid date and that the engine reads back from
    the ISO string it writes for it, as ECMAScript requires of
    [Date.parse]. *)
Definition reads_back (t : Z) : Prop :=
  TimeClip t = Some t /\ Date_parse (toISOString t) = Some t.

(** The property [k] of [c] is one that the store can hand back as it was:
    for [timestamp], a [Date] that is valid; for another property, nothing
    or a value that JSON has a form for. *)
Definition kept (c : Creation) (k : string) : Prop :=
  if decide (k = "timestamp")
  then exists t, c !! k = Some (VDate (Some t)) /\ reads_back t
  else forall v, c !! k = Some v -> json_exact v = true.

(** A creation all of whose properties, [videoUrl] apart, are such: what
    [interface Creation] describes, strings and a [timestamp] that is a
    [Date], when the date is valid. *)
Definition well_dated (c : Creation) : Prop :=
  forall k, k <> "videoUrl" -> kept c k.

End WellDated.

(* ================================================================== *)
(** * A sample engine and sample runs *)
(* ================================================================== *)

(** [Date.prototype.toISOString] as ECMAScript defines it, and a
    [Date.parse] that reads that format, the one the store writes, with
    the range checks of ECMAScript.  For a text in another format it
    gives NaN, where a browser may read a date: the samples use it only
    on texts of that format and on a text no engine reads as a date. *)
Module Engine.

Definition digit (n : Z) : ascii := ascii_of_N (Z.to_N (48 + n mod 10)).

(** [z] written with [n] decimal digits. *)
Fixpoint pad (n : nat) (z : Z) : string :=
  match n with
  | O => ""
  | S n' => pad n' (z / 10) +:+ String (digit z) ""
  end.

(** Year, month and day of a day counted from 1970-01-01. *)
Definition civil_from_days (z : Z) : Z * Z * Z :=
  let z := z + 719468 in
  let era := z / 146097 in
  let doe := z - era * 146097 in
  let yoe := (doe - doe / 1460 + doe / 36524 - doe / 146096) / 365 in
  let doy := doe - (365 * yoe + yoe / 4 - yoe / 100) in
  let mp := (5 * doy + 2) / 153 in
  let d := doy - (153 * mp + 2) / 5 + 1 in
  let m := if mp <? 10 then mp + 3 else mp - 9 in
  (if m <=? 2 then yoe + era * 400 + 1 else yoe + era * 400, m, d).

Definition days_from_civil (y m d : Z) : Z :=
  let y := if m <=? 2 then y - 1 else y in
  let era := y / 400 in
  let yoe := y - era * 400 in
  let doy := (153 * (if 2 <? m then m - 3 else m + 9) + 2) / 5 + d - 1 in
  let doe := yoe * 365 + yoe / 4 - yoe / 100 + doy in
  era * 146097 + doe - 719468.

Definition toISOString (t : Z) : string :=
  let '(y, m, d) := civil_from_days (t / 86400000) in
  let ms := t mod 86400000 in
  (if (0 <=? y) && (y <=? 9999) then pad 4 y
   else (if y <? 0 then "-" else "+") +:+ pad 6 (Z.abs y))
  +:+ "-" +:+ pad 2 m +:+ "-" +:+ pad 2 d
  +:+ "T" +:+ pad 2 (ms / 3600000) +:+ ":" +:+ pad 2 (ms / 60000 mod 60)
  +:+ ":" +:+ pad 2 (ms / 1000 mod 60) +:+ "." +:+ pad 3 (ms mod 1000) +:+ "Z".

Definition digit_value (c : ascii) : option Z :=
  let n := Z.of_N (N_of_ascii c) in
  if (48 <=? n) && (n <=? 57) then Some (n - 48) else None.

(** Reads [n] decimal digits off the front of [s]. *)
Fixpoint number (n : nat) (acc : Z) (s : string) : option (Z * string) :=
  match n, s with
  | O, _ => Some (acc, s)
  | S n', String c r =>
      match digit_value c with
      | Some v => number n' (acc * 10 + v) r
      | None => None
      end
  | S _, EmptyString => None
  end.

Definition expect (p : string) (s : string) : option string := strip_prefix p s.

Definition year (s : string) : option (Z * string) :=
  match s with
  | String "+" r => number 6 0 r
  | String "-" r =>
      match number 6 0 r with
      | Some (y, r') => if y =? 0 then None else Some (- y, r')
      | None => None
      end
  | _ => number 4 0 s
  end.

Definition days_in_month (y m : Z) : Z :=
  if m =? 2
  then if (y mod 4 =? 0) && (negb (y mod 100 =? 0) || (y mod 400 =? 0))
       then 29 else 28
  else if (m =? 4) || (m =? 6) || (m =? 9) || (m =? 11) then 30 else 31.

(** A month, a day of that month, and a time of day; [24:00:00.000] is
    the end of the day. *)
Definition in_range (y m d hh mm ss ms : Z) : bool :=
  (1 <=? m) && (m <=? 12) && (1 <=? d) && (d <=? days_in_month y m)
  && (mm <=? 59) && (ss <=? 59)
  && ((hh <=? 23) || (hh =? 24) && (mm =? 0) && (ss =? 0) && (ms =? 0)).

Definition Date_parse (s : string) : option Z :=
  '(y, s) ← year s;
  s ← expect "-" s; '(m, s) ← number 2 0 s;
  s ← expect "-" s; '(d, s) ← number 2 0 s;
  s ← expect "T" s; '(hh, s) ← number 2 0 s;
  s ← expect ":" s; '(mm, s) ← number 2 0 s;
  s ← expect ":" s; '(ss, s) ← number 2 0 s;
  s ← expect "." s; '(ms, s) ← number 3 0 s;
  s ← expect "Z" s;
  if String.eqb s "" && in_range y m d hh mm ss ms
  then Some (days_from_civil y m d * 86400000
             + hh * 3600000 + mm * 60000 + ss * 1000 + ms)
  else None.

End Engine.

(** ** Sample data *)

(** A job that is done, with the link it carries. *)
Definition job_done (link : option string) : Operation :=
  {| done := true; status := None; uri := link |}.

(** A job that is done at the first re-check and whose video downloads. *)
Definition service_ok : VideoService :=
  {| video_client := Returned tt;
     generateVideos := Returned job_pending;
     getVideosOperation := [Returned (job_done (Some "https://video.example/1?alt=media"))];
     fetch_video :=
       Returned {| ok := true; statusText := "OK";
                   blob_url := Returned "blob:https://app.example/1" |} |}.

(** A job that is done at the first re-check but carries no link. *)
Definition service_no_link : VideoService :=
  {| video_client := Returned tt;
     generateVideos := Returned job_pending;
     getVideosOperation := [Returned (job_done None)];
     fetch_video := Pending |}.

(** A submission that the transport turns down. *)
Definition service_entity_not_found : VideoService :=
  {| video_client := Returned tt;
     generateVideos :=
       Threw (ErrorObj "got status: 404 Not Found. Requested entity was not found.");
     getVideosOperation := [];
     fetch_video := Pending |}.

(** A job that the service reports as failed at the first re-check, with a
    message of its own; the transport answers every call. *)
Definition service_job_not_found : VideoService :=
  {| video_client := Returned tt;
     generateVideos := Returned job_pending;
     getVideosOperation := [Returned (job_failed "Requested entity was not found.")];
     fetch_video := Pending |}.

Definition idle : AppState :=
  {| activeCreation := None; isGenerating := false;
     generationMode := app; history := [] |}.

Definition cat_png : File :=
  {| file_name := "cat.png"; file_type := "image/PNG";
     file_dataURL := Returned "data:image/png;base64,AAAA" |}.

Definition sample_env (videos : VideoService) : Env :=
  {| aistudio := Some {| hasSelectedApiKey := Returned true;
                         openSelectKey := Returned tt |};
     app_service := {| app_client := Returned tt;
                       generateContent := Returned (Some "<!DOCTYPE html><p>hi</p>") |};
     video_service := videos;
     API_KEY := Some "KEY";
     now := 1709210096789;
     randomUUID := "3b241101-e2bb-4255-8caf-4136c566a962" |}.

(** No example is ever answered. *)
Definition no_examples (url : string) : ExampleFetch :=
  {| ex_fetch := Pending; ex_now := 0; ex_uuid := "" |}.

Definition chess_payload : gmap string json :=
  <["name" := JStr "Chess"]>
    (<["type" := JStr "app"]>
       (<["html" := JStr "<!DOCTYPE html><p>chess</p>"]> ∅)).

Definition chess_with_id : gmap string json :=
  <["id" := JStr "a1"]> (<["timestamp" := JStr "2024-02-29T12:34:56.789Z"]> chess_payload).

Definition with_history (h : list Creation) : AppState :=
  {| activeCreation := None; isGenerating := false;
     generationMode := app; history := h |}.

(** A video creation of this session. *)
Definition cat_video : Creation :=
  <["id" := VStr "3b241101-e2bb-4255-8caf-4136c566a962"]>
    (<["name" := VStr "cat.png"]>
       (<["timestamp" := VDate (Some 1709210096789)]>
          (<["type" := VStr "video"]>
             (<["originalImage" := VStr "data:image/png;base64,AAAA"]>
                (<["videoUrl" := VStr "blob:https://app.example/1"]> ∅))))).

(** A payload whose timestamp is not a date. *)
Definition undated_payload : gmap string json :=
  <["timestamp" := JStr "last week"]> chess_with_id.

(** The creation [handleImportFile] makes of it: its timestamp is an
    Invalid Date. *)
Definition undated : Creation :=
  <["timestamp" := VDate None]> (JSON_parse chess_with_id).

Definition cassette_url : string :=
  "https://storage.googleapis.com/sideprojects-asronline/bringanythingtolife/cassette.json".

Definition example_found : ExampleFetch :=
  {| ex_fetch := Returned {| ex_ok := true;
                             ex_json := Returned (ParsedObject chess_with_id) |};
     ex_now := 1709210096789;
     ex_uuid := "3b241101-e2bb-4255-8caf-4136c566a962" |}.

(** The second example answers 404; the other two are found. *)
Definition second_not_ok (url : string) : ExampleFetch :=
  if String.eqb url cassette_url
  then {| ex_fetch := Returned {| ex_ok := false; ex_json := Pending |};
          ex_now := 1709210096789; ex_uuid := "" |}
  else example_found.

(** The fetch of the second example is rejected (the network is down for
    it); the other two are found. *)
Definition second_rejected (url : string) : ExampleFetch :=
  if String.eqb url cassette_url
  then {| ex_fetch := Threw (ErrorObj "Failed to fetch");
          ex_now := 1709210096789; ex_uuid := "" |}
  else example_found.


(** A payload with a number beyond the range of a Number, as an export
    edited by hand can hold one: [JSON.parse] reads [1e999] as
    [Infinity]. *)
Definition rated_payload : gmap string json :=
  <["rating" := JHuge false]> chess_with_id.

(** The creation [handleImportFile] makes of it. *)
Definition rated : Creation :=
  <["timestamp" := VDate (Some 1709210096789)]>
    (<["rating" := VInfinity false]> (JSON_parse chess_with_id)).

(* ================================================================== *)
(** * The generation handlers between renders ([App.tsx]) *)
(* ================================================================== *)

(** The state of the part above is the state a handler's own setter calls
    lead to.  React applies a setter call at the next render, and while a
    handler waits at an [await] the page is rendered and other handlers
    run.  This part follows the generation handlers at that grain: the
    same code, over surroundings that say what a setter call and an
    [await] do. *)

(** A call of one of the state setters of [App]. *)
Inductive setter : Type :=
| SetActiveCreation (c : option Creation)
| SetIsGenerating (b : bool)
| SetGenerationMode (m : GenerationMode)
| SetHistory (f : list Creation -> list Creation).

Definition apply_setter (c : setter) : AppState -> AppState :=
  match c with
  | SetActiveCreation c => setActiveCreation c
  | SetIsGenerating b => setIsGenerating b
  | SetGenerationMode m => setGenerationMode m
  | SetHistory f => setHistory f
  end.

(** What the surroundings make of a setter call; of [await p], for a
    promise [p] that is settled from outside; of
    [await new Promise(resolve => setTimeout(resolve, ms))]; and of
    [await f(...)] for an async function [f] of the repository, where the
    body of [f] is run and the caller waits once more, for the promise
    that [f] returned. *)
Record Runtime (St : Type) : Type := {
  set_state : setter -> M St unit;
  awaiting : forall A : Type, outcome A -> M St A;
  sleep : Z -> M St unit;
  resolving : forall A : Type, M St A -> M St A;
}.
Arguments set_state {St} _ _.
Arguments awaiting {St} _ {A} _.
Arguments sleep {St} _ _.
Arguments resolving {St} _ {A} _.

(** The code of the handlers and of what they call, as above, with the
    setter calls and the awaits left to the surroundings.  A constructor
    call, which can throw but does not wait, stays an [await] of the monad. *)
Module Stepwise.
Section Handlers.
Context {St : Type} (R : Runtime St).

Definition bringToLife (svc : AppService)
    (prompt : string) (fileBase64 mimeType : option string) : M St string :=
  await (app_client svc) ;;
  let finalPrompt :=
    if str_truthy fileBase64 then image_prompt
    else if str_truthy (Some prompt) then prompt else demo_prompt in
  try_catch
    (emit (GenerateContent APP_MODEL finalPrompt
             (inline_part fileBase64 mimeType)) ;;
     response_text <- awaiting R (generateContent svc) ;;
     let text :=
       if str_truthy response_text then template response_text
       else fence_placeholder in
     ret (strip_fences text))
    (fun error =>
       emit (ConsoleError "Gemini App Generation Error:" error) ;;
       throw error).

Fixpoint poll (answers : list (outcome Operation)) (operation : Operation)
  : M St Operation :=
  if done operation then ret operation
  else
    sleep R 10000 ;;
    emit GetVideosOperation ;;
    match answers with
    | [] => awaiting R Pending
    | answer :: later =>
        operation' <- awaiting R answer ;;
        emit (ConsoleLog "Polling video status...") ;;
        poll later operation'
    end.

Definition bringToLifeAsVideo (svc : VideoService) (API_KEY : option string)
    (prompt : string) (fileBase64 mimeType : option string) : M St string :=
  await (video_client svc) ;;
  try_catch
    (emit (GenerateVideos VIDEO_MODEL prompt
             (inline_part fileBase64 mimeType)) ;;
     operation <- awaiting R (generateVideos svc) ;;
     emit (ConsoleLog "Video generation started, polling for completion...") ;;
     operation <- poll (getVideosOperation svc) operation ;;
     when (status_failed operation)
       (throw (ErrorObj ("Video generation failed: "
                         +:+ template (status_error_message operation)))) ;;
     let downloadLink := uri operation in
     when (negb (str_truthy downloadLink)) (throw no_link_error) ;;
     emit (Fetch (template downloadLink +:+ "&key=" +:+ template API_KEY)) ;;
     videoRes <- awaiting R (fetch_video svc) ;;
     when (negb (ok videoRes))
       (throw (ErrorObj ("Failed to download video file: "
                         +:+ statusText videoRes))) ;;
     awaiting R (blob_url videoRes))
    (fun error =>
       emit (ConsoleError "Gemini Video Generation Error:" error) ;;
       if is_entity_not_found error then throw api_key_error
       else throw error).

Definition fileToBase64 (file : File) : M St (option string) :=
  emit (ReadAsDataURL (file_name file)) ;;
  result <- awaiting R (file_dataURL file) ;;
  ret (split result "," !! 1%nat).

Definition ensure_key (env : Env) : M St unit :=
  match aistudio env with
  | Some studio =>
      emit HasSelectedApiKey ;;
      hasKey <- awaiting R (hasSelectedApiKey studio) ;;
      when (negb hasKey) (emit OpenSelectKey ;; awaiting R (openSelectKey studio))
  | None => ret tt
  end.

Definition error_message_of (error : thrown) : M St (option string) :=
  match error with
  | ErrorObj m => ret (Some m)
  | NonError m => ret m
  | Nullish => throw (TypeError "cannot read properties of undefined")
  end.

Definition report_failure (env : Env) (log prefix : string) (error : thrown)
  : M St unit :=
  emit (ConsoleError log error) ;;
  message <- error_message_of error ;;
  emit (Alert (prefix +:+ str_or message "Please try again.")) ;;
  match message with
  | Some m =>
      when (includes m "API key not found")
        (match aistudio env with
         | Some _ => emit OpenSelectKey
         | None => ret tt
         end)
  | None => throw (TypeError "cannot read properties of undefined")
  end.

Definition adopt (c : Creation) : M St unit :=
  set_state R (SetActiveCreation (Some c)) ;;
  set_state R (SetHistory (fun prev => c :: prev)).

Definition handleGenerate (env : Env)
    (promptText : string) (file : option File) (mode : GenerationMode)
  : M St unit :=
  set_state R (SetIsGenerating true) ;;
  set_state R (SetGenerationMode mode) ;;
  set_state R (SetActiveCreation None) ;;
  try_finally
    (try_catch
       (encoded <-
          match file with
          | Some f =>
              imageBase64 <- fileToBase64 f ;;
              ret (imageBase64, Some (toLowerCase (file_type f)))
          | None => ret (None, None)
          end ;;
        let '(imageBase64, mimeType) := encoded in
        let newCreation : Creation :=
          <["name" := VStr (str_or (file_name <$> file)
                              (str_or (Some (substring 0 30 promptText))
                                 "New Creation"))]>
            (with_optional "originalImage" (data_url imageBase64 mimeType)
               (<["type" := VStr (mode_tag mode)]> ∅)) in
        match mode with
        | video =>
            ensure_key env ;;
            videoUrl <- resolving R
                          (bringToLifeAsVideo (video_service env) (API_KEY env)
                             promptText imageBase64 mimeType) ;;
            when (str_truthy (Some videoUrl))
              (adopt (<["timestamp" := VDate (Some (now env))]>
                        (<["id" := VStr (randomUUID env)]>
                           (<["videoUrl" := VStr videoUrl]> newCreation))))
        | app =>
            html <- resolving R
                      (bringToLife (app_service env)
                         promptText imageBase64 mimeType) ;;
            when (str_truthy (Some html))
              (adopt (<["timestamp" := VDate (Some (now env))]>
                        (<["id" := VStr (randomUUID env)]>
                           (<["html" := VStr html]> newCreation))))
        end)
       (report_failure env "Failed to generate:" "Something went wrong: "))
    (set_state R (SetIsGenerating false)).

Definition handleRegenerateVideo (env : Env)
    (newPrompt : string) (originalCreation : Creation) : M St unit :=
  set_state R (SetIsGenerating true) ;;
  set_state R (SetGenerationMode video) ;;
  try_finally
    (try_catch
       (encoded <-
          (if truthy (originalCreation !! "originalImage")
           then
             match originalCreation !! "originalImage" with
             | Some (VStr s) => ret (seed_of s)
             | _ => throw (TypeError "split is not a function")
             end
           else ret (None, None)) ;;
        let '(imageBase64, mimeType) := encoded in
        ensure_key env ;;
        videoUrl <- resolving R
                      (bringToLifeAsVideo (video_service env) (API_KEY env)
                         newPrompt imageBase64 mimeType) ;;
        when (str_truthy (Some videoUrl))
          (adopt (<["videoUrl" := VStr videoUrl]>
                    (<["name" := VStr newPrompt]>
                       (<["timestamp" := VDate (Some (now env))]>
                          (<["id" := VStr (randomUUID env)]>
                             (<["type" := VStr "video"]>
                                (match originalCreation !! "originalImage" with
                                 | Some v => <["originalImage" := v]> ∅
                                 | None => ∅
                                 end))))))))
       (report_failure env "Failed to regenerate video:"
          "Something went wrong during regeneration: "))
    (set_state R (SetIsGenerating false)).

Definition handleReset : M St unit :=
  set_state R (SetActiveCreation None) ;;
  set_state R (SetIsGenerating false).

End Handlers.
End Stepwise.

(** Surroundings in which every setter call is applied at once and nothing
    happens at an [await]: those of the part above. *)
Definition at_once : Runtime AppState :=
  {| set_state := fun c => modify (apply_setter c);
     awaiting := fun A p => await p;
     sleep := fun ms => emit (SetTimeout ms);
     resolving := fun A m => m |}.

(** What can happen while a handler waits: the page is rendered, or another
    handler, or a later part of one, makes its setter calls. *)
Inductive occurrence : Type :=
| Render
| Calls (cs : list setter).

(** The page around a handler that is followed: the state of the last
    render, the setter calls made since, oldest first, the setter calls the
    handler itself has made so far, and what will happen at each of the
    suspensions to come. *)
Record Page : Type := {
  rendered : AppState;
  queued : list setter;
  called : list setter;
  schedule : list (list occurrence);
}.

(** The state the next render shows: the queued calls applied in order. *)
Definition next_render (w : Page) : AppState :=
  foldl (fun s c => apply_setter c s) (rendered w) (queued w).

Definition render (w : Page) : Page :=
  {| rendered := next_render w; queued := [];
     called := called w; schedule := schedule w |}.

(** Setter calls made by others. *)
Definition enqueue (cs : list setter) (w : Page) : Page :=
  {| rendered := rendered w; queued := queued w ++ cs;
     called := called w; schedule := schedule w |}.

(** A setter call of the handler that is followed. *)
Definition call (c : setter) (w : Page) : Page :=
  {| rendered := rendered w; queued := queued w ++ [c];
     called := called w ++ [c]; schedule := schedule w |}.

Definition occur (w : Page) (o : occurrence) : Page :=
  match o with
  | Render => render w
  | Calls cs => enqueue cs w
  end.

(** The handler is suspended: what the schedule has for this suspension
    happens, in order. *)
Definition suspended (w : Page) : Page :=
  match schedule w with
  | [] => w
  | turn :: later =>
      foldl occur
        {| rendered := rendered w; queued := queued w;
           called := called w; schedule := later |}
        turn
  end.

(** Surroundings in which a setter call is queued until the next render and
    the schedule is followed at every suspension. *)
Definition in_page : Runtime Page :=
  {| set_state := fun c => modify (call c);
     awaiting := fun A p w => (p, suspended w, []);
     sleep := fun ms w => (Returned tt, suspended w, [(w, SetTimeout ms)]);
     resolving := fun A m w =>
       match m w with
       | (Pending, w', t) => (Pending, w', t)
       | (r, w', t) => (r, suspended w', t)
       end |}.

(** A call of [setIsGenerating]. *)
Definition is_flag_call (c : setter) : bool :=
  match c with SetIsGenerating _ => true | _ => false end.

(** Calls none of which is a call of [setIsGenerating]. *)
Definition flagless (cs : list setter) : Prop :=
  forallb (fun c => negb (is_flag_call c)) cs = true.

(** Nothing that is scheduled calls [setIsGenerating]. *)
Definition quiet (schedule : list (list occurrence)) : Prop :=
  Forall (Forall (fun o => match o with
                           | Render => True
                           | Calls cs => flagless cs
                           end)) schedule.

(** One thing that happens to the page while the body of a generation
    handler runs: a setter call of the handler other than
    [setIsGenerating], or a suspension. *)
Inductive body_step : Page -> Page -> Prop :=
| step_call c w : is_flag_call c = false -> body_step w (call c w)
| step_suspend w : body_step w (suspended w).

(** A computation that moves the page by such steps only. *)
Definition calm {A} (m : M Page A) : Prop :=
  forall w,
    rtc body_step w (state_of (m w))
    /\ Forall (fun x => rtc body_step w (fst x)) (trace_of (m w)).

(** What a run of a generation handler does with the flag, from the page
    [w]: it calls [setIsGenerating(true)] before anything else; every
    effect happens after that call and before any other call on the flag;
    and a run that ends has called [setIsGenerating(false)] last, with no
    call on the flag in between, while a run that does not end has made no
    other call on it. *)
Definition raises_then_clears (w : Page)
    (run : outcome unit * Page * list (Page * event)) : Prop :=
  (exists between,
     flagless between
     /\ called (state_of run)
        = called w ++ SetIsGenerating true :: between
          ++ match outcome_of run with
             | Pending => []
             | _ => [SetIsGenerating false]
             end)
  /\ Forall (fun x => exists before,
               flagless before
               /\ called (fst x) = called w ++ SetIsGenerating true :: before)
            (trace_of run).

(** What the page shows of it.  At the end of a run that ends, the call
    [setIsGenerating(false)] is the last of the queue, so that the next
    render shows the flag cleared.  When nothing that is scheduled calls
    [setIsGenerating], every effect happens with the flag raised in the
    state the next render shows: it is raised in the rendered state, or
    the call that raises it is still queued. *)
Definition flag_is_shown (w : Page)
    (run : outcome unit * Page * list (Page * event)) : Prop :=
  (outcome_of run <> Pending ->
     (exists q, queued (state_of run) = q ++ [SetIsGenerating false])
     /\ isGenerating (next_render (state_of run)) = false)
  /\ (quiet (schedule w) ->
      Forall (fun x => isGenerating (next_render (fst x)) = true
                       /\ (isGenerating (rendered (fst x)) = true
                           \/ SetIsGenerating true ∈ queued (fst x)))
             (trace_of run)).

(** The flag of the rendered state at each effect of a run. *)
Definition flag_at_effects (trace : list (Page * event)) : list (bool * event) :=
  map (fun x => (isGenerating (rendered (fst x)), snd x)) trace.

(** The setter calls of [handleReset], the handler of the Close Preview
    button. *)
Definition reset_calls : list setter :=
  [SetActiveCreation None; SetIsGenerating false].

(** A page that shows [st], with nothing queued. *)
Definition page (st : AppState) (schedule : list (list occurrence)) : Page :=
  {| rendered := st; queued := []; called := []; schedule := schedule |}.

(** The page is rendered while the handler waits for the key check, and the
    user presses Close Preview during the first wait of the polling loop. *)
Definition closed_while_polling : list (list occurrence) :=
  [[Render]; []; [Calls reset_calls; Render]].

(** The page is rendered at every suspension and nothing else happens. *)
Definition only_renders : list (list occurrence) :=
  [[Render]; [Render]; [Render]; [Render]; [Render]; [Render]; [Render]].
(* ================================================================== *)
(** * The history strip ([CreationHistory.tsx]) *)
(* ================================================================== *)

(** The drag state of [CreationHistory]: the ref [dragItem] and the two
    states [draggedIndex] and [dragOverIndex]. *)
Record DragState : Type := {
  dragItem : option nat;
  draggedIndex : option nat;
  dragOverIndex : option nat;
}.

Definition no_drag : DragState :=
  {| dragItem := None; draggedIndex := None; dragOverIndex := None |}.

Definition handleDragStart (index : nat) (ds : DragState) : DragState :=
  {| dragItem := Some index; draggedIndex := Some index;
     dragOverIndex := dragOverIndex ds |}.

Definition handleDragEnter (index : nat) (ds : DragState) : DragState :=
  match draggedIndex ds with
  | Some dragged =>
      if negb (index =? dragged)%nat
      then {| dragItem := dragItem ds; draggedIndex := draggedIndex ds;
              dragOverIndex := Some index |}
      else ds
  | None => ds
  end.

Definition handleDragLeave (ds : DragState) : DragState :=
  {| dragItem := dragItem ds; draggedIndex := draggedIndex ds;
     dragOverIndex := None |}.

(** [const newHistory = [...history];
     const [draggedItem] = newHistory.splice(from, 1);
     newHistory.splice(to, 0, draggedItem)].
    An element of the result is [None] where the array holds [undefined],
    which is what [splice] hands out for a [from] past the end. *)
Definition move_item {A} (from to : nat) (history : list A) : list (option A) :=
  let newHistory := delete from history in
  let draggedItem := history !! from in
  (Some <$> take to newHistory) ++ draggedItem :: (Some <$> drop to newHistory).

(** [handleDragEnd]: the array handed to [onReorder], if it is called, and
    the drag state afterwards. *)
Definition handleDragEnd {A} (history : list A) (ds : DragState)
  : option (list (option A)) * DragState :=
  (match dragItem ds, dragOverIndex ds with
   | Some from, Some to =>
       if negb (from =? to)%nat then Some (move_item from to history) else None
   | _, _ => None
   end,
   no_drag).

(** The drag events of a history button. *)
Inductive DragEvent : Type :=
| DragStart (index : nat)
| DragEnter (index : nat)
| DragLeave
| DragEnd.

Definition drag_step {A} (history : list A) (ev : DragEvent) (ds : DragState)
  : DragState :=
  match ev with
  | DragStart index => handleDragStart index ds
  | DragEnter index => handleDragEnter index ds
  | DragLeave => handleDragLeave ds
  | DragEnd => snd (handleDragEnd history ds)
  end.

(** What holds of the drag state between any two events: the ref and the
    state agree, and there is a target only during a drag. *)
Definition drag_invariant (ds : DragState) : Prop :=
  dragItem ds = draggedIndex ds
  /\ (draggedIndex ds = None -> dragOverIndex ds = None).

(** The icons of [getIcon]. *)
Inductive Icon : Type :=
| VideoCameraIcon
| DocumentIcon
| PhotoIcon
| CodeBracketIcon.

(** [getIcon]; calling [startsWith] on an [originalImage] that is neither a
    string nor nullish throws. *)
Definition getIcon (item : Creation) : outcome Icon :=
  if strict_eq (item !! "type") (Some (VStr "video"))
  then Returned VideoCameraIcon
  else
    match item !! "originalImage" with
    | None | Some VNull => Returned CodeBracketIcon
    | Some (VStr s) =>
        if startsWith s "data:application/pdf" then Returned DocumentIcon
        else if negb (String.eqb s "") then Returned PhotoIcon
        else Returned CodeBracketIcon
    | Some _ => Threw (TypeError "item.originalImage.startsWith is not a function")
    end.

(* ================================================================== *)
(** * More of the input area ([InputArea.tsx]) *)
(* ================================================================== *)

(** [file.type.startsWith('image/') || file.type === 'application/pdf'] *)
Definition accepted_type (file : File) : bool :=
  startsWith (file_type file) "image/"
  || String.eqb (file_type file) "application/pdf".

Definition handleFile {St} (file : File) (ia : InputArea) : M St InputArea :=
  if accepted_type file
  then ret {| mode := mode ia; prompt := prompt ia; stagedFile := Some file |}
  else emit (Alert "Please upload an image or PDF.") ;; ret ia.

(** [handleFileChange], for the files of the input element. *)
Definition handleFileChange {St} (files : list File) (ia : InputArea)
  : M St InputArea :=
  match files with
  | file :: _ => handleFile file ia
  | [] => ret ia
  end.

(** [handleDrop], for the files of the drop; it returns the input area and
    [isDragging]. *)
Definition handleDrop {St} (disabled isGenerating : bool) (files : list File)
    (ia : InputArea) : M St (InputArea * bool) :=
  if disabled || isGenerating then ret (ia, false)
  else
    match files with
    | file :: _ => ia' <- handleFile file ia ;; ret (ia', false)
    | [] => ret (ia, false)
    end.

(** [handleDragOver]: the new value of [isDragging]. *)
Definition handleDragOver (disabled isGenerating isDragging : bool) : bool :=
  if negb disabled && negb isGenerating then true else isDragging.

(** What the user can do in the input area. *)
Inductive InputEvent : Type :=
| ChooseMode (m : GenerationMode)   (* a mode tab *)
| TypePrompt (text : string)        (* the textarea *)
| PickFiles (files : list File)     (* the file input *)
| DropFiles (files : list File)     (* a drop on the file area *)
| ClearFile                         (* the button of the staged preview *)
| ClickGenerate.                    (* the Generate button *)

(** The handler the markup of [InputArea] attaches to each of them, under
    the props [App] passes.  A control that is rendered [disabled] does not
    deliver its event, and the file input and the drop area are rendered
    only while no file is staged. *)
Definition input_step (env : Env) (ev : InputEvent) (ia : InputArea)
  : M AppState InputArea :=
  st <- get ;;
  let generating := isGenerating st in
  let disabled := isFocused st in
  match ev with
  | ChooseMode m =>
      if generating then ret ia
      else ret {| mode := m; prompt := prompt ia; stagedFile := stagedFile ia |}
  | TypePrompt text =>
      if generating || disabled then ret ia
      else ret {| mode := mode ia; prompt := text; stagedFile := stagedFile ia |}
  | PickFiles files =>
      if generating || disabled || is_Some_file (stagedFile ia) then ret ia
      else handleFileChange files ia
  | DropFiles files =>
      if is_Some_file (stagedFile ia) then ret ia
      else r <- handleDrop disabled generating files ia ;; ret (fst r)
  | ClearFile =>
      ret {| mode := mode ia; prompt := prompt ia; stagedFile := None |}
  | ClickGenerate => click_generate env ia
  end.

(** A sequence of events, each in the surroundings it meets. *)
Fixpoint input_steps (evs : list (Env * InputEvent)) (ia : InputArea)
  : M AppState InputArea :=
  match evs with
  | [] => ret ia
  | (env, ev) :: rest => ia' <- input_step env ev ia ;; input_steps rest ia'
  end.

(** The input area as it is first rendered. *)
Definition empty_input : InputArea :=
  {| mode := app; prompt := ""; stagedFile := None |}.

(* ================================================================== *)
(** * More of the preview ([LivePreview.tsx]) *)
(* ================================================================== *)

Definition loading_steps : list string :=
  [ "Analyzing visual inputs"; "Identifying UI patterns";
    "Generating functional logic"; "Compiling preview" ].

(** The interval callback of [AppLoadingIndicator]:
    [prev < steps.length - 1 ? prev + 1 : prev]. *)
Definition next_step (prev : Z) : Z :=
  if prev <? Z.of_nat (length loading_steps) - 1 then prev + 1 else prev.

Definition loading_messages : list string :=
  [ "Initializing video synthesizer...";
    "Generating keyframes from prompt...";
    "Rendering video stream (this can take a minute)...";
    "Finalizing composition and audio..." ].

(** The interval callback of [VideoLoadingIndicator]:
    [(prev + 1) % messages.length]. *)
Definition next_message (prev : Z) : Z :=
  Z.rem (prev + 1) (Z.of_nat (length loading_messages)).

(** [n] ticks of an interval. *)
Fixpoint ticks (n : nat) (f : Z -> Z) (start : Z) : Z :=
  match n with
  | O => start
  | S n' => f (ticks n' f start)
  end.

(** The source of the player the content area renders:
    [creation.type === 'video' && creation.videoUrl]. *)
Definition shows_video (creation : Creation) : option jsval :=
  if strict_eq (creation !! "type") (Some (VStr "video"))
     && truthy (creation !! "videoUrl")
  then creation !! "videoUrl" else None.

(** The document of the frame the content area renders:
    [creation.type === 'app' && creation.html]. *)
Definition shows_app (creation : Creation) : option jsval :=
  if strict_eq (creation !! "type") (Some (VStr "app"))
     && truthy (creation !! "html")
  then creation !! "html" else None.

(* ================================================================== *)
(** * More ways to observe a run *)
(* ================================================================== *)

(** The staged file, if there is one, is an image or a PDF. *)
Definition staged_accepted (ia : InputArea) : Prop :=
  match stagedFile ia with
  | Some file => accepted_type file = true
  | None => True
  end.

(** [c] occurs in [s]. *)
Fixpoint has_char (c : ascii) (s : string) : bool :=
  match s with
  | EmptyString => false
  | String a r => Ascii.eqb a c || has_char c r
  end.

(** A computation that leaves the state of [App] as it found it. *)
Definition stateless {A} (m : M AppState A) : Prop :=
  forall s, state_of (m s) = s.

(** The state after [adopt c]. *)
Definition adopted (c : Creation) (s : AppState) : AppState :=
  setHistory (fun prev => c :: prev) (setActiveCreation (Some c) s).

(** A computation that either leaves the state as it found it, or returns
    having adopted one creation, which satisfies [Q]. *)
Definition adopts (Q : Creation -> Prop) (m : M AppState unit) : Prop :=
  forall s,
    state_of (m s) = s
    \/ (outcome_of (m s) = Returned tt
        /\ exists c, Q c /\ state_of (m s) = adopted c s).

(** A property holds a string that is not empty. *)
Definition holds_text (c : Creation) (k : string) : Prop :=
  exists text, c !! k = Some (VStr text) /\ text <> "".

(** What [handleGenerate] makes: a creation of the mode asked for, with
    the identity drawn from the surroundings, a name, and the one payload
    that goes with its mode. *)
Definition generated (env : Env) (mode : GenerationMode) (c : Creation) : Prop :=
  c !! "type" = Some (VStr (mode_tag mode))
  /\ c !! "id" = Some (VStr (randomUUID env))
  /\ c !! "timestamp" = Some (VDate (Some (now env)))
  /\ holds_text c "name"
  /\ match mode with
     | app => holds_text c "html" /\ c !! "videoUrl" = None
     | video => holds_text c "videoUrl" /\ c !! "html" = None
     end.

(** What [handleRegenerateVideo] makes from a creation and a prompt. *)
Definition regenerated (env : Env) (newPrompt : string)
    (originalCreation c : Creation) : Prop :=
  c !! "type" = Some (VStr "video")
  /\ c !! "id" = Some (VStr (randomUUID env))
  /\ c !! "timestamp" = Some (VDate (Some (now env)))
  /\ c !! "name" = Some (VStr newPrompt)
  /\ c !! "originalImage" = originalCreation !! "originalImage"
  /\ holds_text c "videoUrl"
  /\ c !! "html" = None.

(** The effects of the polling loop that wait or re-check. *)
Definition is_poll_effect (e : event) : bool :=
  match e with
  | SetTimeout _ | GetVideosOperation => true
  | _ => false
  end.

Definition is_alert (e : event) : bool :=
  match e with Alert _ => true | _ => false end.

(** The key check before a video request lets the request through. *)
Definition key_check_passes (env : Env) : Prop :=
  match aistudio env with
  | None => True
  | Some studio =>
      hasSelectedApiKey studio = Returned true
      \/ (hasSelectedApiKey studio = Returned false
          /\ openSelectKey studio = Returned tt)
  end.

(** One turn of the polling loop: the wait and the re-check. *)
Definition poll_round : list event := [SetTimeout 10000; GetVideosOperation].

(** ** More sample data *)

(** Surroundings in which the app service answers with an empty fenced
    block. *)
Definition empty_fence_env : Env :=
  {| aistudio := None;
     app_service := {| app_client := Returned tt;
                       generateContent := Returned (Some "```html```") |};
     video_service := service_ok;
     API_KEY := Some "KEY";
     now := 1709210096789;
     randomUUID := "3b241101-e2bb-4255-8caf-4136c566a962" |}.

(** A stored array with a [null] item before an object. *)
Definition stored_with_null : list (option (gmap string json)) :=
  [None; Some chess_with_id].

(** Two computations, over different surroundings, that end in the same
    way after the same effects, whatever the states they start from. *)
Definition same_run {St St' A} (m : M St A) (m' : M St' A) : Prop :=
  forall s s',
    outcome_of (m s) = outcome_of (m' s')
    /\ effects (trace_of (m s)) = effects (trace_of (m' s')).

(** A computation that makes no setter call. *)
Definition silent {A} (m : M Page A) : Prop :=
  forall w, called (state_of (m w)) = called w.

(** The two setter calls that adopt a creation. *)
Definition adoption (c : Creation) : list setter :=
  [SetActiveCreation (Some c); SetHistory (fun prev => c :: prev)].

(** A computation that makes no setter call, or returns having made the
    two calls that adopt one creation, which satisfies [Q]. *)
Definition adopting (Q : Creation -> Prop) (m : M Page unit) : Prop :=
  forall w,
    called (state_of (m w)) = called w
    \/ (outcome_of (m w) = Returned tt
        /\ exists c, Q c /\ called (state_of (m w)) = called w ++ adoption c).

(** A lower-case letter, a digit or an underscore. *)
Definition safe_char (c : ascii) : bool :=
  let n := N_of_ascii c in
  ((48 <=? n) && (n <=? 57) || (97 <=? n) && (n <=? 122) || (n =? 95))%N.

Fixpoint every_char (p : ascii -> bool) (s : string) : bool :=
  match s with
  | EmptyString => true
  | String c r => p c && every_char p r
  end.

(* ================================================================== *)
(** * Properties of the generation client *)
(* ================================================================== *)

(** C8. A job that is pending when submitted, pending at the first
    re-check and failed with the message "quota" at the second makes
    [bringToLifeAsVideo] throw the failure with that message, after exactly
    two delays of 10 seconds, each followed by one re-check. *)
Theorem poller_pending_pending_failed :
  forall (St : Type) (s : St) (API_KEY : option string) (prompt : string)
         (fileBase64 mimeType : option string)
         (later : list (outcome Operation)) (fetch_video : outcome Response),
    let svc := {| video_client := Returned tt;
                  generateVideos := Returned job_pending;
                  getVideosOperation :=
                    Returned job_pending :: Returned (job_failed "quota") :: later;
                  fetch_video := fetch_video |} in
    let run := bringToLifeAsVideo svc API_KEY prompt fileBase64 mimeType s in
    outcome_of run = Threw (ErrorObj "Video generation failed: quota")
    /\ state_of run = s
    /\ delays (trace_of run) = [10000; 10000]
    /\ effects (trace_of run) =
         [ GenerateVideos VIDEO_MODEL prompt (inline_part fileBase64 mimeType);
           ConsoleLog "Video generation started, polling for completion...";
           SetTimeout 10000; GetVideosOperation;
           ConsoleLog "Polling video status...";
           SetTimeout 10000; GetVideosOperation;
           ConsoleLog "Polling video status...";
           ConsoleError "Gemini Video Generation Error:"
             (ErrorObj "Video generation failed: quota") ].
Proof.
  intros. subst run svc.
  destruct later; repeat split; reflexivity.
Qed.

(** C10. When the response of the service has no text ([response.text]
    undefined or empty), [bringToLife] returns the placeholder document
    "<!-- Failed to generate content -->" as a successful result. *)
Theorem bringToLife_no_text :
  forall (St : Type) (s : St) (prompt : string)
         (fileBase64 mimeType : option string),
    outcome_of
      (bringToLife {| app_client := Returned tt;
                      generateContent := Returned None |}
         prompt fileBase64 mimeType s)
    = Returned "<!-- Failed to generate content -->"
    /\ outcome_of
         (bringToLife {| app_client := Returned tt;
                         generateContent := Returned (Some "") |}
            prompt fileBase64 mimeType s)
       = Returned "<!-- Failed to generate content -->".
Proof.
  intros. split; reflexivity.
Qed.

(** ** The operation the polling loop ends with *)

Ltac unfold_monad :=
  unfold outcome_of, state_of, trace_of, bind, ret, emit, await, throw,
    try_catch, try_finally, when, modify, get, detach in *.

Lemma poll_state :
  forall St (answers : list (outcome Operation)) operation (s : St),
    state_of (poll answers operation s) = s.
Proof.
  intros St answers.
  induction answers as [|answer later IH]; intros operation s; simpl;
    destruct (done operation); try reflexivity.
  unfold_monad; simpl.
  destruct answer as [operation'| |]; try reflexivity.
  specialize (IH operation' s).
  destruct (poll later operation' s) as [[[]]]; exact IH.
Qed.

Lemma poll_outcome :
  forall St St' (answers : list (outcome Operation)) operation (s : St) (s' : St'),
    outcome_of (poll answers operation s) = outcome_of (poll answers operation s').
Proof.
  intros St St' answers.
  induction answers as [|answer later IH]; intros operation s s'; simpl;
    destruct (done operation); try reflexivity.
  unfold_monad; simpl.
  destruct answer as [operation'| |]; try reflexivity.
  specialize (IH operation' s s').
  destruct (poll later operation' s) as [[[]]], (poll later operation' s') as [[[]]];
    simpl in *; congruence.
Qed.

Lemma poll_done :
  forall St (answers : list (outcome Operation)) operation (s : St) last,
    outcome_of (poll answers operation s) = Returned last -> done last = true.
Proof.
  intros St answers.
  induction answers as [|answer later IH]; intros operation s last; simpl;
    destruct (done operation) eqn:Hdone; unfold_monad; simpl;
    try congruence.
  destruct answer as [operation'| |]; simpl; try congruence.
  specialize (IH operation' s last).
  destruct (poll later operation' s) as [[[]]]; simpl in *; auto; congruence.
Qed.

Arguments is_entity_not_found : simpl never.

(** How [bringToLifeAsVideo] ends, case by case. *)
Lemma bringToLifeAsVideo_outcome :
  forall St (svc : VideoService) API_KEY prompt fileBase64 mimeType (s : St),
    outcome_of (bringToLifeAsVideo svc API_KEY prompt fileBase64 mimeType s) =
    match video_client svc with
    | Returned _ =>
        match last_operation svc with
        | Returned operation =>
            if status_failed operation
            then Threw (rethrown (failed_error operation))
            else if negb (str_truthy (uri operation))
            then Threw no_link_error
            else
              match fetch_video svc with
              | Returned res =>
                  if negb (ok res) then Threw (rethrown (download_error res))
                  else
                    match blob_url res with
                    | Returned url => Returned url
                    | Threw e => Threw (rethrown e)
                    | Pending => Pending
                    end
              | Threw e => Threw (rethrown e)
              | Pending => Pending
              end
        | Threw e => Threw (rethrown e)
        | Pending => Pending
        end
    | Threw e => Threw e
    | Pending => Pending
    end.
Proof.
  intros. unfold bringToLifeAsVideo, last_operation, rethrown.
  destruct (video_client svc) as [[]| |]; [|reflexivity..].
  destruct (generateVideos svc) as [operation0| |] eqn:Hsubmit.
  - pose proof (poll_outcome St unit (getVideosOperation svc) operation0 s tt) as Hp.
    unfold_monad; simpl.
    destruct (poll (getVideosOperation svc) operation0 s) as [[r s1] t1].
    destruct (poll (getVideosOperation svc) operation0 ()) as [[r' s1'] t1'].
    simpl in Hp; subst r'. simpl.
    destruct r as [operation|e|]; simpl.
    + destruct (status_failed operation); simpl.
      { unfold failed_error. destruct (is_entity_not_found _); reflexivity. }
      destruct (str_truthy (uri operation)); simpl; [|reflexivity].
      destruct (fetch_video svc) as [res|e|]; simpl.
      * destruct (ok res); simpl.
        -- destruct (blob_url res) as [url|e|]; simpl; try reflexivity.
           destruct (is_entity_not_found e); reflexivity.
        -- unfold download_error.
           destruct (is_entity_not_found _); reflexivity.
      * destruct (is_entity_not_found e); reflexivity.
      * reflexivity.
    + destruct (is_entity_not_found e); reflexivity.
    + reflexivity.
  - unfold_monad; simpl.
    destruct (is_entity_not_found e); reflexivity.
  - unfold_monad; simpl. reflexivity.
Qed.

Lemma last_operation_done :
  forall svc operation, last_operation svc = Returned operation -> done operation = true.
Proof.
  intros svc operation. unfold last_operation. unfold_monad; simpl.
  destruct (generateVideos svc) as [operation0| |]; simpl; try discriminate.
  pose proof (poll_done unit (getVideosOperation svc) operation0 tt operation) as Hd.
  unfold outcome_of in Hd.
  destruct (poll (getVideosOperation svc) operation0 ()) as [[r s1] t1].
  simpl in *. exact Hd.
Qed.

(** C1. [bringToLifeAsVideo] returns a video only when the operation the
    polling loop ended with is done, is not failed and carries a download
    link; when that operation carries no link the call never returns, and
    unless the job is failed it throws the error "Video generation
    succeeded, but no download link was found.". *)
Theorem video_done_needs_download_link :
  forall (St : Type) (svc : VideoService) (API_KEY : option string)
         (prompt : string) (fileBase64 mimeType : option string) (s : St),
    let run := bringToLifeAsVideo svc API_KEY prompt fileBase64 mimeType s in
    (forall url, outcome_of run = Returned url ->
       exists operation,
         last_operation svc = Returned operation
         /\ done operation = true
         /\ status_failed operation = false
         /\ str_truthy (uri operation) = true)
    /\ (forall operation,
          video_client svc = Returned tt ->
          last_operation svc = Returned operation ->
          str_truthy (uri operation) = false ->
          (forall url, outcome_of run <> Returned url)
          /\ (exists e, outcome_of run = Threw e)
          /\ (status_failed operation = false ->
              outcome_of run =
                Threw (ErrorObj "Video generation succeeded, but no download link was found."))).
Proof.
  intros. subst run. rewrite bringToLifeAsVideo_outcome. split.
  - intros url Hrun.
    destruct (video_client svc) as [[]| |]; try discriminate.
    destruct (last_operation svc) as [operation| |] eqn:Hlast; try discriminate.
    exists operation. split; [reflexivity|].
    split; [eapply last_operation_done; eassumption|].
    destruct (status_failed operation); [discriminate|].
    destruct (str_truthy (uri operation)); [auto|discriminate].
  - intros operation -> -> Huri. rewrite Huri. simpl.
    destruct (status_failed operation); simpl.
    + split; [discriminate|]. split; [eauto|discriminate].
    + split; [discriminate|]. split; [eauto|reflexivity].
Qed.

(** C4 (as amended). Whatever error is raised inside [bringToLifeAsVideo],
    by the transport or by the function itself, the call throws the error
    "API key not found. Please re-select your API key and try again." when
    that error is an [Error] whose message includes "Requested entity was
    not found.", and throws the error unchanged otherwise. *)
Theorem entity_not_found_is_api_key_error :
  forall (St : Type) (svc : VideoService) (API_KEY : option string)
         (prompt : string) (fileBase64 mimeType : option string) (s : St)
         (e : thrown),
    video_client svc = Returned tt ->
    raised svc e ->
    let run := bringToLifeAsVideo svc API_KEY prompt fileBase64 mimeType s in
    (forall message,
       e = ErrorObj message ->
       includes message "Requested entity was not found." = true ->
       outcome_of run =
         Threw (ErrorObj "API key not found. Please re-select your API key and try again."))
    /\ ((forall message,
           e = ErrorObj message ->
           includes message "Requested entity was not found." = false) ->
        outcome_of run = Threw e).
Proof.
  intros St svc API_KEY0 prompt0 fileBase64 mimeType s e Hclient Hraised run.
  assert (Hrun : outcome_of run = Threw (rethrown e)).
  { subst run. rewrite bringToLifeAsVideo_outcome, Hclient.
    destruct Hraised as [[-> | (operation & -> & -> & -> & Hdl)]
                        | (operation & -> & Hown)].
    - reflexivity.
    - simpl. destruct Hdl as [-> | (res & -> & -> & ->)]; reflexivity.
    - destruct Hown as [[-> ->] | [(-> & -> & ->) | (-> & -> & res & -> & -> & ->)]];
        reflexivity. }
  rewrite Hrun. unfold rethrown, is_entity_not_found. split.
  - intros message -> Hinc. unfold entity_not_found. rewrite Hinc. reflexivity.
  - intros Hnot. destruct e as [message| |]; try reflexivity.
    unfold entity_not_found. rewrite (Hnot message eq_refl). reflexivity.
Qed.

(* ================================================================== *)
(** * Facts about strings *)
(* ================================================================== *)

Section StringFacts.
Implicit Types s p r m b : string.
#[local] Arguments String.append : simpl nomatch.

Lemma append_nil_r s : s +:+ "" = s.
Proof. induction s; simpl; congruence. Qed.

Lemma append_assoc s1 s2 s3 : (s1 +:+ s2) +:+ s3 = s1 +:+ (s2 +:+ s3).
Proof. induction s1; simpl; congruence. Qed.

Lemma length_append s1 s2 :
  String.length (s1 +:+ s2) = (String.length s1 + String.length s2)%nat.
Proof. induction s1; simpl; congruence. Qed.

Lemma strip_prefix_Some p s r : strip_prefix p s = Some r <-> s = p +:+ r.
Proof.
  revert s. induction p as [|a p IH]; intros s; simpl.
  - split; congruence.
  - destruct s as [|c s]; [split; discriminate|].
    destruct (Ascii.eqb_spec a c) as [->|Hne].
    + rewrite IH. split; congruence.
    + split; [discriminate|congruence].
Qed.

Lemma strip_prefix_append p r : strip_prefix p (p +:+ r) = Some r.
Proof. by apply strip_prefix_Some. Qed.

Lemma skip_spaces_suffix s : exists w, s = w +:+ skip_spaces s.
Proof.
  induction s as [|c s [w IH]]; simpl.
  - by exists "".
  - destruct (is_space c).
    + exists (String c w). simpl. congruence.
    + by exists "".
Qed.

Lemma includes_append_r s1 s2 m :
  includes (s1 +:+ s2) m = false -> includes s2 m = false.
Proof.
  induction s1 as [|c s1 IH]; simpl; [done|].
  intros [_ H]%orb_false_iff. auto.
Qed.

Lemma includes_append_l s1 s2 m :
  includes s2 m = true -> includes (s1 +:+ s2) m = true.
Proof.
  intros H. destruct (includes (s1 +:+ s2) m) eqn:E; [done|].
  apply includes_append_r in E. congruence.
Qed.

Lemma startsWith_append p r : startsWith (p +:+ r) p = true.
Proof. unfold startsWith. by rewrite strip_prefix_append. Qed.

Lemma includes_startsWith s m : startsWith s m = true -> includes s m = true.
Proof. destruct s; simpl; intros ->; done. Qed.

Lemma includes_infix s1 m s2 : includes (s1 +:+ m +:+ s2) m = true.
Proof.
  apply includes_append_l, includes_startsWith, startsWith_append.
Qed.

Lemma substring_0_append s1 s2 :
  substring 0 (String.length s1) (s1 +:+ s2) = s1.
Proof. induction s1; simpl; [by destruct s2|congruence]. Qed.

Lemma substring_skip_append s1 s2 n :
  substring (String.length s1) n (s1 +:+ s2) = substring 0 n s2.
Proof. induction s1; simpl; done. Qed.

Lemma substring_0_all s : substring 0 (String.length s) s = s.
Proof. induction s; simpl; congruence. Qed.

Lemma substring_split s n :
  (n <= String.length s)%nat ->
  s = substring 0 n s +:+ substring n (String.length s - n) s.
Proof.
  revert n. induction s as [|c s IH]; intros [|n] Hn; simpl in *;
    try lia; try done.
  - f_equal. symmetry. apply substring_0_all.
  - f_equal. apply IH. lia.
Qed.

Lemma endsWith_append s m : endsWith (s +:+ m) m = true.
Proof.
  unfold endsWith. rewrite length_append.
  replace (String.length s + String.length m - String.length m)%nat
    with (String.length s) by lia.
  rewrite substring_skip_append, substring_0_all, String.eqb_refl.
  apply andb_true_iff. split; [apply Nat.leb_le; lia|done].
Qed.

Lemma endsWith_true s m :
  endsWith s m = true ->
  s = substring 0 (String.length s - String.length m) s +:+ m.
Proof.
  unfold endsWith. intros [Hle Heq]%andb_true_iff.
  apply Nat.leb_le in Hle. apply String.eqb_eq in Heq.
  rewrite (substring_split s (String.length s - String.length m)) at 1 by lia.
  f_equal. rewrite <- Heq at 3. f_equal. lia.
Qed.

Lemma replace_trailing_append s m : replace_trailing m (s +:+ m) = s.
Proof.
  unfold replace_trailing. rewrite endsWith_append, length_append.
  replace (String.length s + String.length m - String.length m)%nat
    with (String.length s) by lia.
  apply substring_0_append.
Qed.

Lemma replace_trailing_absent s m :
  endsWith s m = false -> replace_trailing m s = s.
Proof. unfold replace_trailing. by intros ->. Qed.

Lemma endsWith_includes s m : endsWith s m = true -> includes s m = true.
Proof.
  intros H%endsWith_true. rewrite H.
  rewrite <- (append_nil_r m) at 2. apply includes_infix.
Qed.

Lemma replace_trailing_prefix s m : exists w, s = replace_trailing m s +:+ w.
Proof.
  unfold replace_trailing. destruct (endsWith s m) eqn:E.
  - exists m. by apply endsWith_true.
  - exists "". by rewrite append_nil_r.
Qed.

Lemma replace_leading_suffix s m : exists w, s = w +:+ replace_leading m s.
Proof.
  unfold replace_leading. destruct (strip_prefix m s) as [r|] eqn:E.
  - apply strip_prefix_Some in E as ->.
    destruct (skip_spaces_suffix r) as [w Hw].
    exists (m +:+ w). rewrite append_assoc. congruence.
  - by exists "".
Qed.
End StringFacts.

(** ** Fences *)

Section FenceFacts.
#[local] Arguments String.append : simpl nomatch.
#[local] Arguments Ascii.eqb : simpl never.

Ltac split_chars :=
  repeat match goal with
         | |- context [Ascii.eqb ?a ?b] =>
             destruct (Ascii.eqb_spec a b); try discriminate
         | H : context [Ascii.eqb ?a ?b] |- _ =>
             destruct (Ascii.eqb_spec a b); try discriminate
         end;
  subst.

Lemma no_fence_suffix w b : no_fence (w +:+ b) -> no_fence b.
Proof. apply includes_append_r. Qed.

Lemma skip_spaces_shape b post :
  closing post ->
  exists w b', b = w +:+ b' /\ skip_spaces (b +:+ post) = b' +:+ post.
Proof.
  intros Hpost. induction b as [|c b (w & b' & Hb & IH)]; simpl.
  - exists "", "". by destruct Hpost as [-> | ->].
  - destruct (is_space c).
    + exists (String c w), b'. simpl. split; congruence.
    + by exists "", (String c b).
Qed.

Lemma strip_html_shape b post r :
  closing post ->
  strip_prefix "html" (b +:+ post) = Some r ->
  exists b', b = "html" +:+ b' /\ r = b' +:+ post.
Proof.
  intros Hpost.
  destruct b as [|c1 [|c2 [|c3 [|c4 b]]]]; destruct Hpost as [-> | ->]; simpl;
    split_chars; intros [= <-]; by eexists.
Qed.

Lemma strip_fence_shape b post r :
  no_fence b -> closing post ->
  strip_prefix "```" (b +:+ post) = Some r ->
  r = "" \/ r = "`" \/ r = "``".
Proof.
  unfold no_fence. intros Hb Hpost.
  destruct b as [|c1 [|c2 [|c3 b]]]; destruct Hpost as [-> | ->];
    simpl in *; split_chars;
    simpl in *; try discriminate; intros [= <-]; auto.
Qed.

Lemma replace_trailing_no_fence r :
  no_fence r -> replace_trailing "```" r = r.
Proof.
  intros Hr. apply replace_trailing_absent.
  destruct (endsWith r "```") eqn:E; [|done].
  apply endsWith_includes in E. unfold no_fence in Hr. congruence.
Qed.

Lemma trailing_step b post :
  no_fence b -> closing post ->
  no_fence (replace_trailing "```" (b +:+ post)).
Proof.
  intros Hb [-> | ->].
  - rewrite append_nil_r, replace_trailing_no_fence; done.
  - by rewrite replace_trailing_append.
Qed.

Lemma leading_step b post :
  no_fence b -> closing post ->
  no_fence (replace_trailing "```" (replace_leading "```" (b +:+ post))).
Proof.
  intros Hb Hpost. unfold replace_leading.
  destruct (strip_prefix "```" (b +:+ post)) as [r|] eqn:E.
  - apply strip_fence_shape in E as [-> | [-> | ->]]; done.
  - by apply trailing_step.
Qed.

(** A wrapper around a body without fences leaves no fence behind. *)
Lemma strip_fences_wrapper body post :
  no_fence body -> closing post ->
  no_fence (strip_fences (body +:+ post))
  /\ no_fence (strip_fences ("```" +:+ body +:+ post)).
Proof.
  intros Hb Hpost. unfold strip_fences. split.
  - unfold replace_leading at 2.
    destruct (strip_prefix "```html" (body +:+ post)) as [r|] eqn:E.
    + apply strip_prefix_Some in E.
      assert (E' : strip_prefix "```" (body +:+ post) = Some ("html" +:+ r)).
      { apply strip_prefix_Some. rewrite E. done. }
      apply strip_fence_shape in E' as [E' | [E' | E']]; done.
    + by apply leading_step.
  - unfold replace_leading at 2.
    change (strip_prefix "```html" ("```" +:+ body +:+ post))
      with (strip_prefix "html" (body +:+ post)).
    destruct (strip_prefix "html" (body +:+ post)) as [r|] eqn:E.
    + apply strip_html_shape in E as (b' & -> & ->); [|done].
      destruct (skip_spaces_shape b' post Hpost) as (w & b'' & -> & ->).
      apply leading_step; [|done].
      eapply no_fence_suffix, no_fence_suffix. eassumption.
    + unfold replace_leading.
      change (strip_prefix "```" ("```" +:+ body +:+ post))
        with (Some (body +:+ post)).
      destruct (skip_spaces_shape body post Hpost) as (w & b' & -> & ->).
      apply trailing_step; [|done].
      eapply no_fence_suffix. eassumption.
Qed.

(** Nothing is stripped from a text that neither starts nor ends with a
    fence. *)
Lemma strip_fences_absent text :
  startsWith text "```" = false -> endsWith text "```" = false ->
  strip_fences text = text.
Proof.
  intros Hs He. unfold strip_fences, replace_leading.
  assert (H3 : strip_prefix "```" text = None).
  { unfold startsWith in Hs. by destruct (strip_prefix "```" text). }
  assert (H7 : strip_prefix "```html" text = None).
  { destruct (strip_prefix "```html" text) as [r|] eqn:E; [|done].
    apply strip_prefix_Some in E.
    assert (strip_prefix "```" text = Some ("html" +:+ r)) as E'
        by (apply strip_prefix_Some; by rewrite E).
    congruence. }
  rewrite H7, H3. by apply replace_trailing_absent.
Qed.

(** What is returned is a piece of the text. *)
Lemma strip_fences_infix text :
  exists before after, text = before +:+ strip_fences text +:+ after.
Proof.
  unfold strip_fences.
  destruct (replace_leading_suffix text "```html") as [w1 H1].
  destruct (replace_leading_suffix (replace_leading "```html" text) "```")
    as [w2 H2].
  destruct (replace_trailing_prefix
              (replace_leading "```" (replace_leading "```html" text)) "```")
    as [w3 H3].
  exists (w1 +:+ w2), w3.
  rewrite append_assoc, <- H3, <- H2. exact H1.
Qed.
End FenceFacts.

(** C3 (as amended). For every non-empty response text, [bringToLife]
    returns the text with its fences stripped: what it returns is a piece
    of the text, it is the text itself when the text contains no fence, and
    it contains no fence when the text is a body without fences wrapped in
    a leading fence ([```] or [```html]), a closing fence, or both. *)
Theorem bringToLife_strips_fence_wrapper :
  forall (St : Type) (s : St) (prompt : string)
         (fileBase64 mimeType : option string) (text : string),
    text <> "" ->
    let run :=
      bringToLife {| app_client := Returned tt;
                     generateContent := Returned (Some text) |}
        prompt fileBase64 mimeType s in
    outcome_of run = Returned (strip_fences text)
    /\ (exists before after, text = before +:+ strip_fences text +:+ after)
    /\ (includes text "```" = false -> strip_fences text = text)
    /\ (forall body,
          includes body "```" = false ->
          text = "```" +:+ body \/ text = "```" +:+ body +:+ "```"
          \/ text = "```html" +:+ body \/ text = "```html" +:+ body +:+ "```"
          \/ text = body +:+ "```" ->
          includes (strip_fences text) "```" = false).
Proof.
  intros St s prompt0 fileBase64 mimeType text Htext run.
  split; [|split; [|split]].
  - subst run. unfold bringToLife, outcome_of, bind, await, try_catch, emit, ret.
    simpl. destruct (String.eqb_spec text ""); [done|reflexivity].
  - apply strip_fences_infix.
  - intros Hno. apply strip_fences_absent.
    + destruct (startsWith text "```") eqn:E; [|done].
      apply includes_startsWith in E. congruence.
    + destruct (endsWith text "```") eqn:E; [|done].
      apply endsWith_includes in E. congruence.
  - intros body Hbody Hshape.
    assert (Hhtml : no_fence ("html" +:+ body)).
    { unfold no_fence. change ("html" +:+ body) with
        (String "h" (String "t" (String "m" (String "l" body)))).
      simpl. exact Hbody. }
    destruct Hshape as [-> | [-> | [-> | [-> | ->]]]].
    + rewrite <- (append_nil_r body).
      apply (strip_fences_wrapper body ""); [done|by left].
    + apply (strip_fences_wrapper body "```"); [done|by right].
    + change ("```html" +:+ body) with ("```" +:+ ("html" +:+ body)).
      rewrite <- (append_nil_r ("html" +:+ body)).
      apply (strip_fences_wrapper ("html" +:+ body) ""); [done|by left].
    + change ("```html" +:+ body +:+ "```")
        with ("```" +:+ ("html" +:+ body) +:+ "```").
      rewrite <- append_assoc.
      apply (strip_fences_wrapper ("html" +:+ body) "```"); [done|by right].
    + apply (strip_fences_wrapper body "```"); [done|by right].
Qed.

(* ================================================================== *)
(** * Properties of the session controller *)
(* ================================================================== *)

(** ** Runs that end *)

Lemma modify_bind {St B} (f : St -> St) (k : unit -> M St B) (s : St) :
  bind (modify f) k s = k tt (f s).
Proof.
  unfold bind, modify. by destruct (k () (f s)) as [[r s2] t2].
Qed.

Lemma ends_ret {A} (a : A) : ends (ret a).
Proof. intros s. discriminate. Qed.

Lemma ends_throw {A} e : ends (throw (A:=A) e).
Proof. intros s. discriminate. Qed.

Lemma ends_emit e : ends (emit e).
Proof. intros s. discriminate. Qed.

Lemma ends_modify f : ends (modify f).
Proof. intros s. discriminate. Qed.

Lemma ends_await {A} (p : outcome A) : p <> Pending -> ends (await p).
Proof. intros Hp s. exact Hp. Qed.

Lemma ends_bind {A B} (m : M AppState A) (k : A -> M AppState B) :
  ends m -> (forall a, ends (k a)) -> ends (bind m k).
Proof.
  intros Hm Hk s. specialize (Hm s). unfold bind, outcome_of in *.
  destruct (m s) as [[[a|e|] s1] t1]; simpl in *; try done.
  specialize (Hk a s1). unfold outcome_of in Hk.
  by destruct (k a s1) as [[r s2] t2].
Qed.

Lemma ends_try_catch {A} (m : M AppState A) (h : thrown -> M AppState A) :
  ends m -> (forall e, ends (h e)) -> ends (try_catch m h).
Proof.
  intros Hm Hh s. specialize (Hm s). unfold try_catch, outcome_of in *.
  destruct (m s) as [[[a|e|] s1] t1]; simpl in *; try done.
  specialize (Hh e s1). unfold outcome_of in Hh.
  by destruct (h e s1) as [[r s2] t2].
Qed.

Lemma ends_try_finally {A} (m : M AppState A) (f : M AppState unit) :
  ends m -> ends f -> ends (try_finally m f).
Proof.
  intros Hm Hf s. specialize (Hm s). unfold try_finally, outcome_of in *.
  destruct (m s) as [[[a|e|] s1] t1]; simpl in *; try done;
    specialize (Hf s1); unfold outcome_of in Hf;
    by destruct (f s1) as [[[[]|e'|] s2] t2].
Qed.

Lemma ends_when b (m : M AppState unit) : ends m -> ends (when b m).
Proof. destruct b; simpl; auto using ends_ret. Qed.

Create HintDb ends.
#[local] Hint Resolve ends_ret ends_throw ends_emit ends_modify ends_await
  ends_bind ends_try_catch ends_try_finally ends_when : ends.

Lemma ends_bringToLifeAsVideo svc API_KEY prompt fileBase64 mimeType :
  video_answers svc ->
  ends (bringToLifeAsVideo (St:=AppState) svc API_KEY prompt fileBase64 mimeType).
Proof.
  intros (Hclient & Hlast & Hfetch & Hblob) s.
  rewrite bringToLifeAsVideo_outcome.
  destruct (video_client svc) as [[]| |]; [|done..].
  destruct (last_operation svc) as [operation| |]; [|done..].
  destruct (status_failed operation); [done|].
  destruct (str_truthy (uri operation)); [|done]. simpl.
  destruct (fetch_video svc) as [res| |]; [|done..].
  destruct (ok res); [|done]. simpl.
  specialize (Hblob res eq_refl). by destruct (blob_url res).
Qed.

Lemma ends_bringToLife svc prompt fileBase64 mimeType :
  app_client svc <> Pending -> generateContent svc <> Pending ->
  ends (bringToLife (St:=AppState) svc prompt fileBase64 mimeType).
Proof. intros ? ?. unfold bringToLife. auto 10 with ends. Qed.

Lemma ends_ensure_key env file : responsive env file -> ends (ensure_key env).
Proof.
  intros (_ & Hstudio & _). unfold ensure_key.
  destruct (aistudio env) as [studio|]; [|auto with ends].
  destruct (Hstudio studio eq_refl). auto 10 with ends.
Qed.

Lemma ends_report_failure env log prefix e : ends (report_failure env log prefix e).
Proof.
  unfold report_failure, error_message_of.
  apply ends_bind; [auto with ends|]. intros _.
  apply ends_bind; [destruct e; auto with ends|]. intros message.
  apply ends_bind; [auto with ends|]. intros _.
  destruct message; [|auto with ends].
  apply ends_when. destruct (aistudio env); auto with ends.
Qed.

Lemma ends_adopt c : ends (adopt c).
Proof. unfold adopt. auto with ends. Qed.

#[local] Hint Resolve ends_report_failure ends_adopt : ends.

(** In a responsive environment [handleGenerate] and
    [handleRegenerateVideo] end, by returning or by throwing. *)
Lemma generation_ends :
  forall (env : Env) (st : AppState),
    (forall promptText file mode,
       responsive env file ->
       outcome_of (handleGenerate env promptText file mode st) <> Pending)
    /\ (forall newPrompt originalCreation,
          responsive env None ->
          outcome_of (handleRegenerateVideo env newPrompt originalCreation st)
          <> Pending).
Proof.
  intros env st. split.
  - intros promptText file mode0 Hresp.
    pose proof (ends_ensure_key env file Hresp) as Hkey.
    destruct Hresp as (Hfile & _ & Happ1 & Happ2 & Hvideo).
    unfold handleGenerate. rewrite !modify_bind.
    apply ends_try_finally; [|auto with ends].
    apply ends_try_catch; [|auto with ends].
    apply ends_bind.
    + destruct file as [f|]; [|auto with ends].
      unfold fileToBase64. specialize (Hfile f eq_refl). auto 10 with ends.
    + intros [imageBase64 mimeType]. destruct mode0.
      * apply ends_bind; [by apply ends_bringToLife|]. auto with ends.
      * apply ends_bind; [done|]. intros _.
        apply ends_bind; [by apply ends_bringToLifeAsVideo|]. auto with ends.
  - intros newPrompt originalCreation Hresp.
    pose proof (ends_ensure_key env None Hresp) as Hkey.
    destruct Hresp as (_ & _ & _ & _ & Hvideo).
    unfold handleRegenerateVideo. rewrite !modify_bind.
    apply ends_try_finally; [|auto with ends].
    apply ends_try_catch; [|auto with ends].
    apply ends_bind.
    + destruct (truthy _); [|auto with ends].
      destruct (originalCreation !! "originalImage") as [[]|]; auto with ends.
    + intros [imageBase64 mimeType].
      apply ends_bind; [done|]. intros _.
      apply ends_bind; [by apply ends_bringToLifeAsVideo|]. auto with ends.
Qed.

(** ** The generating flag *)

(** With every setter call applied at once and nothing happening at an
    [await], the handlers of this part are those of the part above. *)
Lemma at_once_is_the_state_above :
  (forall env promptText file mode,
      Stepwise.handleGenerate at_once env promptText file mode
      = handleGenerate env promptText file mode)
  /\ (forall env newPrompt originalCreation,
        Stepwise.handleRegenerateVideo at_once env newPrompt originalCreation
        = handleRegenerateVideo env newPrompt originalCreation)
  /\ Stepwise.handleReset at_once = handleReset.
Proof. repeat split. Qed.

(** [handleReset] makes the calls of [reset_calls]. *)
Lemma handleReset_calls w :
  state_of (Stepwise.handleReset in_page w) = foldl (fun w c => call c w) w reset_calls.
Proof. reflexivity. Qed.

Section PageFacts.
Implicit Types (w : Page) (c : setter) (cs : list setter).

Lemma flagless_app cs1 cs2 : flagless cs1 -> flagless cs2 -> flagless (cs1 ++ cs2).
Proof. unfold flagless. rewrite forallb_app. by intros -> ->. Qed.

Lemma apply_setter_flag c s :
  is_flag_call c = false -> isGenerating (apply_setter c s) = isGenerating s.
Proof. by destruct c. Qed.

Lemma foldl_apply_flag cs s :
  flagless cs ->
  isGenerating (foldl (fun s c => apply_setter c s) s cs) = isGenerating s.
Proof.
  revert s. induction cs as [|c cs IH]; intros s Hcs; [done|].
  apply andb_true_iff in Hcs as [Hc Hcs]. apply negb_true_iff in Hc.
  simpl. rewrite (IH _ Hcs). by apply apply_setter_flag.
Qed.

Lemma next_render_call c w :
  next_render (call c w) = apply_setter c (next_render w).
Proof. unfold next_render, call. simpl. by rewrite foldl_app. Qed.

Lemma next_render_enqueue cs w :
  next_render (enqueue cs w) = foldl (fun s c => apply_setter c s) (next_render w) cs.
Proof. unfold next_render, enqueue. simpl. by rewrite foldl_app. Qed.

Lemma next_render_render w : next_render (render w) = next_render w.
Proof. reflexivity. Qed.

(** What a turn of the schedule leaves as it was. *)
Lemma turn_called turn w : called (foldl occur w turn) = called w.
Proof.
  revert w. induction turn as [|o turn IH]; intros w; [done|].
  simpl. rewrite IH. by destruct o.
Qed.

Lemma turn_schedule turn w : schedule (foldl occur w turn) = schedule w.
Proof.
  revert w. induction turn as [|o turn IH]; intros w; [done|].
  simpl. rewrite IH. by destruct o.
Qed.

Lemma turn_flag turn w :
  Forall (fun o => match o with
                   | Render => True
                   | Calls cs => flagless cs
                   end) turn ->
  isGenerating (next_render (foldl occur w turn)) = isGenerating (next_render w).
Proof.
  revert w. induction turn as [|o turn IH]; intros w Hturn; [done|].
  apply Forall_cons in Hturn as [Ho Hturn]. simpl. rewrite (IH _ Hturn).
  destruct o as [|cs]; [done|]. simpl.
  rewrite next_render_enqueue. by apply foldl_apply_flag.
Qed.

Lemma suspended_called w : called (suspended w) = called w.
Proof. unfold suspended. destruct (schedule w); [done|]. by rewrite turn_called. Qed.

Lemma suspended_flag w :
  quiet (schedule w) ->
  isGenerating (next_render (suspended w)) = isGenerating (next_render w)
  /\ quiet (schedule (suspended w)).
Proof.
  unfold suspended, quiet.
  destruct (schedule w) as [|turn later] eqn:Hs;
    [intros _; rewrite Hs; split; [done|constructor]|].
  intros [Hturn Hlater]%Forall_cons.
  rewrite turn_flag, turn_schedule by done. done.
Qed.

(** The steps of a body leave the flag calls of the handler as they were
    and, under a quiet schedule, the flag of the state the next render
    shows. *)
Lemma body_steps_called w w' :
  rtc body_step w w' ->
  exists cs, flagless cs /\ called w' = called w ++ cs.
Proof.
  induction 1 as [w|w w1 w' Hstep _ (cs & Hcs & ->)].
  - exists []. by rewrite app_nil_r.
  - destruct Hstep as [c w Hc|w].
    + exists (c :: cs). split.
      * unfold flagless. simpl. by rewrite Hc.
      * simpl. by rewrite <- app_assoc.
    + exists cs. by rewrite suspended_called.
Qed.

Lemma body_steps_flag w w' :
  rtc body_step w w' ->
  quiet (schedule w) ->
  isGenerating (next_render w') = isGenerating (next_render w)
  /\ quiet (schedule w').
Proof.
  induction 1 as [w|w w1 w' Hstep _ IH]; intros Hquiet; [done|].
  destruct Hstep as [c w Hc|w].
  - destruct (IH Hquiet) as [-> Hq]. split; [|done].
    rewrite next_render_call. by apply apply_setter_flag.
  - destruct (suspended_flag w Hquiet) as [Hflag Hq].
    destruct (IH Hq) as [-> Hq']. done.
Qed.

(** A flag that the next render shows raised is raised in the rendered
    state, or a call that raises it is queued. *)
Lemma raised_or_queued w :
  isGenerating (next_render w) = true ->
  isGenerating (rendered w) = true \/ SetIsGenerating true ∈ queued w.
Proof.
  unfold next_render. generalize (rendered w).
  induction (queued w) as [|c cs IH]; intros s; simpl; [by left|].
  intros Hcs. destruct (IH _ Hcs) as [Hc|Hin].
  - destruct c as [| [] | |]; simpl in Hc; auto;
      right; apply elem_of_cons; by left.
  - right. apply elem_of_cons. by right.
Qed.

(** *** Computations that are calm *)

Lemma calm_ret {A} (a : A) : calm (ret a).
Proof. intros w. split; [apply rtc_refl|constructor]. Qed.

Lemma calm_throw {A} e : calm (throw (A:=A) e).
Proof. intros w. split; [apply rtc_refl|constructor]. Qed.

Lemma calm_await {A} (p : outcome A) : calm (await p).
Proof. intros w. split; [apply rtc_refl|constructor]. Qed.

Lemma calm_emit e : calm (emit e).
Proof.
  intros w. split; [apply rtc_refl|]. repeat constructor.
Qed.

Lemma calm_awaiting {A} (p : outcome A) : calm (awaiting in_page p).
Proof.
  intros w. split; [|constructor]. apply rtc_once, step_suspend.
Qed.

Lemma calm_sleep ms : calm (sleep in_page ms).
Proof.
  intros w. split; [apply rtc_once, step_suspend|]. repeat constructor.
Qed.

Lemma calm_set_state c : is_flag_call c = false -> calm (set_state in_page c).
Proof.
  intros Hc w. split; [|constructor]. by apply rtc_once, step_call.
Qed.

Lemma calm_bind {A B} (m : M Page A) (k : A -> M Page B) :
  calm m -> (forall a, calm (k a)) -> calm (bind m k).
Proof.
  intros Hm Hk w. destruct (Hm w) as [Hs1 Ht1].
  unfold bind, state_of, trace_of in *.
  destruct (m w) as [[[a|e|] s1] t1]; simpl in *; try done.
  destruct (Hk a s1) as [Hs2 Ht2]. unfold state_of, trace_of in *.
  destruct (k a s1) as [[r s2] t2]; simpl in *. split.
  - by etrans.
  - apply Forall_app. split; [done|].
    eapply Forall_impl; [exact Ht2|]. intros x Hx. by etrans.
Qed.

Lemma calm_try_catch {A} (m : M Page A) (h : thrown -> M Page A) :
  calm m -> (forall e, calm (h e)) -> calm (try_catch m h).
Proof.
  intros Hm Hh w. destruct (Hm w) as [Hs1 Ht1].
  unfold try_catch, state_of, trace_of in *.
  destruct (m w) as [[[a|e|] s1] t1]; simpl in *; try done.
  destruct (Hh e s1) as [Hs2 Ht2]. unfold state_of, trace_of in *.
  destruct (h e s1) as [[r s2] t2]; simpl in *. split.
  - by etrans.
  - apply Forall_app. split; [done|].
    eapply Forall_impl; [exact Ht2|]. intros x Hx. by etrans.
Qed.

Lemma calm_when b (m : M Page unit) : calm m -> calm (when b m).
Proof. destruct b; [done|]. intros _. apply calm_ret. Qed.

Lemma calm_resolving {A} (m : M Page A) : calm m -> calm (resolving in_page m).
Proof.
  intros Hm w. destruct (Hm w) as [Hs1 Ht1].
  unfold state_of, trace_of in *. simpl.
  destruct (m w) as [[[a|e|] s1] t1]; simpl in *; (split; [|done]); try done;
    (etrans; [exact Hs1|apply rtc_once, step_suspend]).
Qed.

End PageFacts.

Create HintDb calm.
#[local] Hint Resolve calm_ret calm_throw calm_await calm_emit calm_awaiting
  calm_sleep : calm.

Ltac calm :=
  repeat first
    [ progress auto with calm
    | apply calm_set_state; reflexivity
    | apply calm_bind; [|intros]
    | apply calm_try_catch; [|intros]
    | apply calm_when
    | apply calm_resolving
    | match goal with
      | |- context [match ?x with _ => _ end] => destruct x
      end ].

Lemma calm_poll answers operation : calm (Stepwise.poll in_page answers operation).
Proof.
  revert operation.
  induction answers as [|answer later IH]; intros operation;
    cbn [Stepwise.poll]; destruct (done operation); calm.
Qed.
#[local] Hint Resolve calm_poll : calm.

Lemma calm_bringToLifeAsVideo svc API_KEY prompt fileBase64 mimeType :
  calm (Stepwise.bringToLifeAsVideo in_page svc API_KEY prompt fileBase64 mimeType).
Proof. unfold Stepwise.bringToLifeAsVideo. calm. Qed.

Lemma calm_bringToLife svc prompt fileBase64 mimeType :
  calm (Stepwise.bringToLife in_page svc prompt fileBase64 mimeType).
Proof. unfold Stepwise.bringToLife. calm. Qed.

Lemma calm_ensure_key env : calm (Stepwise.ensure_key in_page env).
Proof. unfold Stepwise.ensure_key. calm. Qed.

Lemma calm_report_failure env log prefix e :
  calm (Stepwise.report_failure (St:=Page) env log prefix e).
Proof. unfold Stepwise.report_failure, Stepwise.error_message_of. calm. Qed.

Lemma calm_adopt c : calm (Stepwise.adopt in_page c).
Proof. unfold Stepwise.adopt. calm. Qed.

Lemma calm_fileToBase64 f : calm (Stepwise.fileToBase64 in_page f).
Proof. unfold Stepwise.fileToBase64. calm. Qed.

#[local] Hint Resolve calm_bringToLifeAsVideo calm_bringToLife calm_ensure_key
  calm_report_failure calm_adopt calm_fileToBase64 : calm.

Lemma calls_called cs w : called (foldl (fun w c => call c w) w cs) = called w ++ cs.
Proof.
  revert w. induction cs as [|c cs IH]; intros w; simpl.
  - by rewrite app_nil_r.
  - rewrite IH. simpl. by rewrite <- app_assoc.
Qed.

Lemma calls_schedule cs w :
  schedule (foldl (fun w c => call c w) w cs) = schedule w.
Proof. revert w. induction cs as [|c cs IH]; intros w; simpl; [done|]. by rewrite IH. Qed.

Lemma calls_flag cs w :
  flagless cs ->
  isGenerating (next_render (foldl (fun w c => call c w) w cs))
  = isGenerating (next_render w).
Proof.
  revert w. induction cs as [|c cs IH]; intros w Hcs; simpl; [done|].
  apply andb_true_iff in Hcs as [Hc Hcs]. apply negb_true_iff in Hc.
  rewrite (IH _ Hcs), next_render_call. by apply apply_setter_flag.
Qed.

(** [setIsGenerating(true)], calls that leave the flag alone, and
    [try { body } finally { setIsGenerating(false) }] around a calm body. *)
Lemma raise_try_finally (body : M Page unit) (w : Page) (others : list setter) :
  calm body ->
  flagless others ->
  let start := foldl (fun w c => call c w) (call (SetIsGenerating true) w) others in
  let run := try_finally body (set_state in_page (SetIsGenerating false)) start in
  raises_then_clears w run /\ flag_is_shown w run.
Proof.
  intros Hbody Hothers start run.
  assert (Hcalled : called start = called w ++ SetIsGenerating true :: others).
  { subst start. rewrite calls_called. simpl. by rewrite <- app_assoc. }
  assert (Hflag : isGenerating (next_render start) = true).
  { subst start. rewrite calls_flag by done. by rewrite next_render_call. }
  assert (Hschedule : schedule start = schedule w).
  { subst start. by rewrite calls_schedule. }
  destruct (Hbody start) as [Hs1 Ht1].
  assert (Htrace : trace_of run = trace_of (body start)).
  { subst run. unfold try_finally, trace_of. simpl.
    destruct (body start) as [[[a|e|] s1] t1]; simpl; by rewrite ?app_nil_r. }
  assert (Hstate : state_of run
                   = match outcome_of run with
                     | Pending => state_of (body start)
                     | _ => call (SetIsGenerating false) (state_of (body start))
                     end).
  { subst run. unfold try_finally, state_of, outcome_of. simpl.
    by destruct (body start) as [[[a|e|] s1] t1]. }
  clearbody run start.
  destruct (body_steps_called _ _ Hs1) as (cs & Hcs & Hcalled1).
  split; [split|split].
  - exists (others ++ cs). split; [by apply flagless_app|].
    rewrite Hstate.
    destruct (outcome_of run); simpl; rewrite Hcalled1, Hcalled;
      rewrite <- ?app_assoc; simpl; rewrite <- ?app_assoc; simpl;
      by rewrite ?app_nil_r.
  - rewrite Htrace. eapply Forall_impl; [exact Ht1|].
    intros x Hx. destruct (body_steps_called _ _ Hx) as (csx & Hcsx & Hcalledx).
    exists (others ++ csx). split; [by apply flagless_app|].
    rewrite Hcalledx, Hcalled. rewrite <- app_assoc. done.
  - intros Hends. rewrite Hstate.
    destruct (outcome_of run); try done; simpl; (split; [by eexists|]);
      by rewrite next_render_call.
  - intros Hquiet. rewrite Htrace. eapply Forall_impl; [exact Ht1|].
    intros x Hx. rewrite <- Hschedule in Hquiet.
    destruct (body_steps_flag _ _ Hx Hquiet) as [Hx1 _].
    rewrite Hflag in Hx1. split; [done|]. by apply raised_or_queued.
Qed.

(** C5 (as amended). A run of [handleGenerate] or of
    [handleRegenerateVideo], from any page and whatever is rendered and
    whatever other handlers call while it waits: the handler calls
    [setIsGenerating(true)] before anything else, every effect of the run
    happens after that call and before any other call on the flag, and a
    run that ends, by returning or by throwing, has called
    [setIsGenerating(false)] as its last act, so that the next render
    shows the flag cleared.  When nothing else calls [setIsGenerating]
    during the run, every effect happens with the flag raised in the state
    the next render shows: raised in the rendered state, or with the
    raising call still waiting for its render. *)
Theorem generating_flag_is_restored :
  forall (env : Env) (w : Page),
    (forall promptText file mode,
       let run := Stepwise.handleGenerate in_page env promptText file mode w in
       raises_then_clears w run /\ flag_is_shown w run)
    /\ (forall newPrompt originalCreation,
          let run := Stepwise.handleRegenerateVideo in_page env newPrompt
                       originalCreation w in
          raises_then_clears w run /\ flag_is_shown w run).
Proof.
  intros env w. split.
  - intros promptText file mode0. unfold Stepwise.handleGenerate.
    change (set_state in_page) with (fun c => modify (call c)). cbv beta.
    rewrite !modify_bind.
    apply (raise_try_finally _ w [SetGenerationMode mode0; SetActiveCreation None]);
      [|reflexivity].
    calm.
  - intros newPrompt originalCreation. unfold Stepwise.handleRegenerateVideo.
    change (set_state in_page) with (fun c => modify (call c)). cbv beta.
    rewrite !modify_bind.
    apply (raise_try_finally _ w [SetGenerationMode video]); [|reflexivity].
    calm.
Qed.

(** A video run during which the page is rendered at every suspension and
    nothing else happens. *)
Lemma generating_flag_is_restored_witness :
  let w := page idle only_renders in
  let run := Stepwise.handleGenerate in_page (sample_env service_ok)
               "a cat" None video w in
  quiet (schedule w)
  /\ raises_then_clears w run
  /\ Forall (fun x => isGenerating (next_render (fst x)) = true
                      /\ (isGenerating (rendered (fst x)) = true
                          \/ SetIsGenerating true ∈ queued (fst x)))
            (trace_of run).
Proof.
  intros w run.
  assert (Hquiet : quiet (schedule w)) by (repeat constructor).
  destruct (generating_flag_is_restored (sample_env service_ok) w) as [Hgen _].
  destruct (Hgen "a cat" None video) as [Hcalls [_ Hshown]].
  split; [exact Hquiet|]. split; [exact Hcalls|exact (Hshown Hquiet)].
Defined.

(** A video run during which the flag is down in the rendered state.  The
    first effect of the run, the key check, happens before the page is
    rendered, with the flag still down; and when the user presses Close
    Preview during the first wait of the polling loop, [handleReset]
    clears the flag and the rest of the run, the re-check and the
    download, happens with the flag down. *)
Lemma generating_flag_down_during_run :
  let run := Stepwise.handleGenerate in_page (sample_env service_ok)
               "a cat" None video (page idle closed_while_polling) in
  outcome_of run = Returned tt
  /\ flag_at_effects (trace_of run)
     = [ (false, HasSelectedApiKey);
         (true, GenerateVideos VIDEO_MODEL "a cat" None);
         (true, ConsoleLog "Video generation started, polling for completion...");
         (true, SetTimeout 10000);
         (false, GetVideosOperation);
         (false, ConsoleLog "Polling video status...");
         (false, Fetch "https://video.example/1?alt=media&key=KEY") ]
  /\ isGenerating (next_render (state_of run)) = false
  /\ queued (state_of (Stepwise.handleReset in_page (page idle []))) = reset_calls.
Proof. vm_compute. repeat split. Qed.

(** ** Validation of a generate request *)

Lemma detach_then_ret {St A B} (m : M St A) (b : B) (s : St) :
  (detach m ;; ret b) s = (Returned b, state_of (m s), trace_of (m s)).
Proof.
  unfold bind, detach, ret, state_of, trace_of.
  destruct (m s) as [[r s1] t1]. simpl. by rewrite app_nil_r.
Qed.

Lemma click_generate_unfold env ia st :
  click_generate env ia st =
  handleGenerateClick (handleGenerate env) (isGenerating st) (isFocused st) ia st.
Proof.
  unfold click_generate, bind, get.
  destruct (handleGenerateClick _ _ _ _ _) as [[r s2] t2]. reflexivity.
Qed.

(** C7. With the Generate button enabled, a click in app mode without a
    file is turned down with an alert before anything else happens; a click
    in video mode with a file goes through whatever the prompt; and a click
    in video mode is turned down exactly when the prompt is blank and there
    is no file. *)
Theorem generate_request_validation :
  forall (env : Env) (ia : InputArea) (st : AppState),
    isGenerating st = false ->
    activeCreation st = None ->
    let run := click_generate env ia st in
    (mode ia = app -> stagedFile ia = None ->
     turned_down run ia st "Please upload a file to generate an app.")
    /\ (mode ia = video -> is_Some_file (stagedFile ia) = true ->
        goes_through env run ia st)
    /\ (mode ia = video ->
        (trim (prompt ia) = "" /\ stagedFile ia = None
         <-> turned_down run ia st
               "Please provide a prompt or an image to generate a video.")
        /\ (goes_through env run ia st
            \/ turned_down run ia st
                 "Please provide a prompt or an image to generate a video.")).
Proof.
  intros env [m p f] st Hgen Hactive run. subst run.
  rewrite click_generate_unfold.
  unfold turned_down, goes_through, isFocused.
  rewrite Hgen, Hactive. simpl.
  unfold handleGenerateClick. simpl.
  split; [|split].
  - intros -> ->. reflexivity.
  - intros -> Hf. destruct f as [f|]; [|discriminate]. simpl.
    rewrite andb_false_r. apply detach_then_ret.
  - intros ->. simpl.
    destruct (String.eqb_spec (trim p) "") as [Hblank|Hblank];
      destruct f as [f|]; simpl; rewrite ?detach_then_ret.
    + split; [|by left]. split; [intros [_ [=]]|intros [= ? ?]; discriminate].
    + split; [|by right]. split; [reflexivity|done].
    + split; [|by left]. split; [intros [? _]; done|intros [= ? ?]; discriminate].
    + split; [|by left]. split; [intros [? _]; done|].
      intros [= Hp ? ?]. subst p. by destruct Hblank.
Qed.

(** ** Import *)

Section ImportFacts.
Variable Date_parse : string -> option Z.

Lemma truthy_absent (o : gmap string json) k :
  o !! k = None -> truthy (JSON_parse o !! k) = false.
Proof. intros H. unfold JSON_parse. by rewrite lookup_fmap, H. Qed.

(** A payload that lacks a name, a type, or both [html] and [videoUrl] is
    not accepted. *)
Lemma import_accepts_lacking (o : gmap string json) :
  o !! "name" = None \/ o !! "type" = None
  \/ (o !! "html" = None /\ o !! "videoUrl" = None) ->
  import_accepts (JSON_parse o) = false.
Proof.
  unfold import_accepts.
  intros [H | [H | [H1 H2]]].
  - rewrite (truthy_absent _ _ H). by rewrite andb_false_r.
  - rewrite (truthy_absent _ _ H). by rewrite andb_false_r.
  - by rewrite (truthy_absent _ _ H1), (truthy_absent _ _ H2).
Qed.

Lemma add_unless_present_known imported prev c :
  c ∈ prev -> strict_eq (c !! "id") (imported !! "id") = true ->
  add_unless_present imported prev = prev.
Proof.
  intros Hin Heq. unfold add_unless_present.
  assert (existsb (fun c => strict_eq (c !! "id") (imported !! "id")) prev = true)
    as ->; [|done].
  apply existsb_exists. exists c. split; [|done]. by apply list_elem_of_In.
Qed.

(** C6. [handleImportFile] turns down, with an alert and without touching
    the state, a payload that lacks a name, a type, or both [html] and
    [videoUrl] (and any text that does not parse to an object); a payload it
    accepts becomes the active creation, with the UUID drawn from
    [crypto.randomUUID] as its id when it carries none, and is put in front
    of the history unless an entry of the history already has its id, in
    which case the history is left as it is. *)
Theorem import_validation :
  forall (env : Env) (o : gmap string json) (st : AppState),
    let parsed := JSON_parse o in
    let imported := importedCreation Date_parse env parsed in
    let run := handleImportFile Date_parse env (Some (ParsedObject o)) st in
    (o !! "name" = None \/ o !! "type" = None
     \/ (o !! "html" = None /\ o !! "videoUrl" = None) ->
     run = (Returned tt, st, [(st, Alert "Invalid creation file format.")]))
    /\ (forall text, text = ParseFails \/ text = ParsedNull ->
        let run := handleImportFile Date_parse env (Some text) st in
        outcome_of run = Returned tt /\ state_of run = st
        /\ effects (trace_of run) =
             [ConsoleError "Import error"
                (match text with
                 | ParseFails => ErrorObj "SyntaxError"
                 | _ => TypeError "cannot read properties of null"
                 end);
              Alert "Failed to import creation."])
    /\ (import_accepts parsed = true ->
        outcome_of run = Returned tt
        /\ trace_of run = []
        /\ activeCreation (state_of run) = Some imported
        /\ (o !! "id" = None -> imported !! "id" = Some (VStr (randomUUID env)))
        /\ (truthy (parsed !! "id") = true -> imported !! "id" = parsed !! "id")
        /\ (forall c, c ∈ history st ->
              strict_eq (c !! "id") (imported !! "id") = true ->
              history (state_of run) = history st)
        /\ ((forall c, c ∈ history st ->
               strict_eq (c !! "id") (imported !! "id") = false) ->
            history (state_of run) = imported :: history st)).
Proof.
  intros env o st parsed imported run. split; [|split].
  - intros Hlack. subst run. unfold handleImportFile.
    unfold try_catch, bind, ret, emit. simpl.
    by rewrite (import_accepts_lacking o Hlack).
  - intros text [-> | ->]; repeat split; reflexivity.
  - intros Hacc. subst run. unfold handleImportFile.
    unfold try_catch, bind, ret, modify, outcome_of, state_of, trace_of. simpl.
    fold parsed. rewrite Hacc. fold imported. simpl.
    split; [done|]. split; [done|]. split; [done|].
    split; [|split; [|split]].
    + intros Hid. subst imported. unfold importedCreation.
      rewrite lookup_insert_eq. subst parsed.
      by rewrite (truthy_absent _ _ Hid).
    + intros Hid. subst imported. unfold importedCreation.
      rewrite lookup_insert_eq, Hid.
      destruct (parsed !! "id"); [done|discriminate].
    + intros c Hin Heq. by eapply add_unless_present_known.
    + intros Hnew. unfold add_unless_present.
      assert (existsb (fun c => strict_eq (c !! "id") (imported !! "id"))
                (history st) = false) as ->; [|done].
      apply not_true_is_false. intros (c & Hin & Hc)%existsb_exists.
      apply list_elem_of_In in Hin. rewrite (Hnew c Hin) in Hc. discriminate.
Qed.
End ImportFacts.

(** ** Persist, load and export *)

Section StoreFacts.
Variable Date_parse : string -> option Z.
Variable toISOString : Z -> string.

Lemma of_json_toJSON (v : jsval) :
  json_exact v = true -> of_json (toJSON toISOString v) = v.
Proof. by destruct v. Qed.

(** One creation written by the persist effect and read back by
    [initHistory]: the properties that are kept, and the creation as a
    whole when all of them are. *)
Lemma revive_serialized (c : Creation) :
  exists c',
    revive Date_parse (Some (JSON_stringify toISOString (delete "videoUrl" c)))
    = Returned c'
    /\ c' !! "videoUrl" = None
    /\ (forall k, k <> "videoUrl" ->
          kept Date_parse toISOString c k -> c' !! k = c !! k)
    /\ (well_dated Date_parse toISOString c -> c' = delete "videoUrl" c).
Proof.
  eexists. split; [reflexivity|].
  unfold JSON_parse, JSON_stringify.
  assert (Hkept : forall k, k <> "videoUrl" ->
            kept Date_parse toISOString c k ->
            (<["timestamp" :=
                 new_Date Date_parse
                   ((of_json <$> (toJSON toISOString <$> delete "videoUrl" c))
                      !! "timestamp")]>
               (of_json <$> (toJSON toISOString <$> delete "videoUrl" c)))
            !! k = c !! k).
  { intros k Hk. unfold kept.
    destruct (decide (k = "timestamp")) as [->|Htime].
    - intros (t & Hts & Hclip & Hparse).
      rewrite lookup_insert_eq, !lookup_fmap, lookup_delete_ne by done.
      rewrite Hts. simpl. unfold new_Date. by rewrite Hparse, Hclip.
    - intros Hexact.
      rewrite lookup_insert_ne, !lookup_fmap, lookup_delete_ne by done.
      destruct (c !! k) as [v|]; simpl; [|done].
      f_equal. by apply of_json_toJSON, Hexact. }
  split; [|split; [exact Hkept|]].
  - by rewrite lookup_insert_ne, !lookup_fmap, lookup_delete_eq.
  - intros Hc. apply map_eq. intros k.
    destruct (decide (k = "videoUrl")) as [->|Hk].
    + by rewrite lookup_insert_ne, !lookup_fmap, lookup_delete_eq.
    + rewrite lookup_delete_ne by done. apply Hkept; [done|]. by apply Hc.
Qed.

Lemma parse_serialized (h : list Creation) :
  exists h',
    parse_saved Date_parse (StoredArray (map Some (serialize_history toISOString h)))
    = Returned h'
    /\ Forall2 (fun c c' =>
                  c' !! "videoUrl" = None
                  /\ (forall k, k <> "videoUrl" ->
                        kept Date_parse toISOString c k -> c' !! k = c !! k)
                  /\ (well_dated Date_parse toISOString c ->
                      c' = delete "videoUrl" c))
               h h'.
Proof.
  unfold parse_saved, serialize_history.
  induction h as [|c h (h' & IH & Hh')]; cbn [map map_throwing].
  - exists []. split; [done|constructor].
  - destruct (revive_serialized c) as (c' & -> & Hc').
    rewrite IH. exists (c' :: h'). split; [done|]. by constructor.
Qed.

(** C2 (as amended). When the persist effect has written a history that is
    not empty, [initHistory] reads back as many creations, in the same
    order, and fetches nothing.  Each comes back without its [videoUrl] and
    with every other property that is kept as it was: a [timestamp] that
    is a valid date, and any other property that is absent or holds
    [null], a boolean, a finite number or a string, whatever the other
    properties and the other creations hold.  A creation all of whose
    properties are such comes back equal to the original without its
    [videoUrl].  [handleExport] writes the creation without its
    [videoUrl], every other property in its JSON form. *)
Theorem persist_then_load :
  forall (h : list Creation) (storage : option stored)
         (fetch_example : string -> ExampleFetch) (st : AppState),
    h <> [] ->
    let stored := fst (persist toISOString None h storage) in
    let run := initHistory Date_parse stored fetch_example st in
    outcome_of run = Returned tt
    /\ trace_of run = []
    /\ Forall2 (fun c c' =>
                  c' !! "videoUrl" = None
                  /\ (forall k, k <> "videoUrl" ->
                        kept Date_parse toISOString c k -> c' !! k = c !! k)
                  /\ (well_dated Date_parse toISOString c ->
                      c' = delete "videoUrl" c))
               h (history (state_of run))
    /\ (forall c name,
          c !! "name" = Some (VStr name) ->
          exists filename content,
            handleExport toISOString (Some c) st
            = (Returned tt, st, [(st, Download filename content)])
            /\ content !! "videoUrl" = None
            /\ forall k, k <> "videoUrl" ->
                 content !! k = toJSON toISOString <$> c !! k).
Proof.
  intros h storage fetch_example st Hne stored0 run.
  assert (Hstored : stored0 =
      Some (StoredArray (map Some (serialize_history toISOString h)))).
  { subst stored0. unfold persist. by destruct h. }
  destruct (parse_serialized h) as (h' & Hparse & Hh').
  assert (Hrun : run = (Returned tt, setHistory (fun _ => h') st, [])).
  { subst run. rewrite Hstored. unfold initHistory, read_history.
    unfold bind, try_catch, await, modify. rewrite Hparse. simpl.
    destruct Hh' as [|c c' h h']; [done|]. reflexivity. }
  rewrite Hrun. unfold outcome_of, state_of, trace_of. simpl.
  split; [done|]. split; [done|]. split; [exact Hh'|].
  intros c name Hname. unfold handleExport. rewrite Hname.
  eexists _, _. split; [reflexivity|]. unfold JSON_stringify. split.
  - by rewrite lookup_fmap, lookup_delete_eq.
  - intros k Hk. by rewrite lookup_fmap, lookup_delete_ne.
Qed.
End StoreFacts.

(** ** Sample runs of the generation client *)

Lemma video_done_needs_download_link_witness :
  (exists operation,
      last_operation service_ok = Returned operation
      /\ done operation = true
      /\ status_failed operation = false
      /\ str_truthy (uri operation) = true)
  /\ outcome_of (bringToLifeAsVideo service_no_link (Some "KEY") "a cat" None None tt)
     = Threw (ErrorObj "Video generation succeeded, but no download link was found.").
Proof.
  split.
  - apply (proj1 (video_done_needs_download_link unit service_ok (Some "KEY")
                    "a cat" None None tt) "blob:https://app.example/1").
    reflexivity.
  - apply (proj2 (video_done_needs_download_link unit service_no_link (Some "KEY")
                    "a cat" None None tt) (job_done None));
      reflexivity.
Defined.

Lemma entity_not_found_is_api_key_error_witness :
  outcome_of (bringToLifeAsVideo service_entity_not_found (Some "KEY") "a cat"
                None None tt)
  = Threw (ErrorObj "API key not found. Please re-select your API key and try again.").
Proof.
  apply (proj1 (entity_not_found_is_api_key_error unit service_entity_not_found
                  (Some "KEY") "a cat" None None tt
                  (ErrorObj "got status: 404 Not Found. Requested entity was not found.")
                  eq_refl (or_introl (or_introl eq_refl)))
           "got status: 404 Not Found. Requested entity was not found.");
    reflexivity.
Defined.

(** The transport answers every call and the job is reported as failed
    with a message that includes "Requested entity was not found.":
    [bringToLifeAsVideo] throws the API-key error although no error of the
    transport was mapped. *)
Lemma failed_job_is_api_key_error :
  (forall e, ~ transport_fails service_job_not_found e)
  /\ last_operation service_job_not_found
     = Returned (job_failed "Requested entity was not found.")
  /\ outcome_of (bringToLifeAsVideo service_job_not_found (Some "KEY") "a cat"
                   None None tt)
     = Threw (ErrorObj "API key not found. Please re-select your API key and try again.").
Proof.
  split; [|split; reflexivity].
  intros e [H | (operation & H & Hfailed & _)].
  - discriminate H.
  - injection H as <-. discriminate Hfailed.
Qed.

(** A response wrapped in two leading fences: [strip_fences] removes the
    first one only, and what [bringToLife] returns still starts with a
    fence marker. *)
Lemma bringToLife_nested_fence :
  startsWith "``` ```html <!DOCTYPE html>" "```" = true
  /\ outcome_of
       (bringToLife {| app_client := Returned tt;
                       generateContent := Returned (Some "``` ```html <!DOCTYPE html>") |}
          "" (Some "AAAA") (Some "image/png") tt)
     = Returned "```html <!DOCTYPE html>"
  /\ startsWith "```html <!DOCTYPE html>" "```html" = true
  /\ includes "```html <!DOCTYPE html>" "```" = true.
Proof. repeat split; reflexivity. Qed.

Lemma bringToLife_strips_fence_wrapper_witness :
  outcome_of
    (bringToLife {| app_client := Returned tt;
                    generateContent := Returned (Some "```html <!DOCTYPE html><p>hi</p>```") |}
       "" (Some "AAAA") (Some "image/png") tt)
  = Returned "<!DOCTYPE html><p>hi</p>"
  /\ includes (strip_fences "```html <!DOCTYPE html><p>hi</p>```") "```" = false.
Proof.
  pose proof (bringToLife_strips_fence_wrapper unit tt "" (Some "AAAA")
                (Some "image/png") "```html <!DOCTYPE html><p>hi</p>```"
                ltac:(discriminate)) as (Hrun & _ & _ & Hfence).
  split.
  - exact Hrun.
  - apply (Hfence " <!DOCTYPE html><p>hi</p>"); [reflexivity|].
    right. right. right. left. reflexivity.
Defined.

(** ** Sample runs of the session controller *)

(** A run of [handleGenerate] that returns, and one that throws out of its
    [catch] block: both end with the flag cleared. *)
Example handleGenerate_returns :
  let run := handleGenerate (sample_env service_ok) "" (Some cat_png) video idle in
  outcome_of run = Returned tt
  /\ isGenerating (state_of run) = false
  /\ effects (trace_of run) =
       [ ReadAsDataURL "cat.png"; HasSelectedApiKey;
         GenerateVideos VIDEO_MODEL "" (Some ("AAAA", "image/png"));
         ConsoleLog "Video generation started, polling for completion...";
         SetTimeout 10000; GetVideosOperation;
         ConsoleLog "Polling video status...";
         Fetch "https://video.example/1?alt=media&key=KEY" ]
  /\ (c ← activeCreation (state_of run); c !! "videoUrl")
     = Some (VStr "blob:https://app.example/1").
Proof. vm_compute. repeat split; reflexivity. Qed.

Example handleGenerate_throws :
  let svc := {| video_client := Threw Nullish; generateVideos := Pending;
                getVideosOperation := []; fetch_video := Pending |} in
  let run := handleGenerate (sample_env svc) "a cat" None video idle in
  outcome_of run = Threw (TypeError "cannot read properties of undefined")
  /\ isGenerating (state_of run) = false
  /\ effects (trace_of run) =
       [HasSelectedApiKey; ConsoleError "Failed to generate:" Nullish].
Proof. vm_compute. repeat split; reflexivity. Qed.

(** [handleGenerate] itself does not look at what it is given: called
    without a file in app mode it sends the request.  The validation is
    that of [handleGenerateClick], its only caller. *)
Example handleGenerate_does_not_validate :
  effects (trace_of (handleGenerate (sample_env service_ok) "landing page"
                       None app idle))
  = [GenerateContent APP_MODEL "landing page" None].
Proof. reflexivity. Qed.

Lemma generate_request_validation_witness :
  turned_down
    (click_generate (sample_env service_ok)
       {| mode := app; prompt := "landing page"; stagedFile := None |} idle)
    {| mode := app; prompt := "landing page"; stagedFile := None |} idle
    "Please upload a file to generate an app."
  /\ goes_through (sample_env service_ok)
       (click_generate (sample_env service_ok)
          {| mode := video; prompt := ""; stagedFile := Some cat_png |} idle)
       {| mode := video; prompt := ""; stagedFile := Some cat_png |} idle.
Proof.
  split.
  - apply (proj1 (generate_request_validation (sample_env service_ok)
                    {| mode := app; prompt := "landing page"; stagedFile := None |}
                    idle eq_refl eq_refl)); reflexivity.
  - apply (proj1 (proj2 (generate_request_validation (sample_env service_ok)
                    {| mode := video; prompt := ""; stagedFile := Some cat_png |}
                    idle eq_refl eq_refl))); reflexivity.
Defined.

(** ** Sample imports *)

Lemma import_validation_witness :
  let env := sample_env service_ok in
  let known := importedCreation Engine.Date_parse env (JSON_parse chess_with_id) in
  handleImportFile Engine.Date_parse env
    (Some (ParsedObject (delete "name" chess_payload))) idle
  = (Returned tt, idle, [(idle, Alert "Invalid creation file format.")])
  /\ importedCreation Engine.Date_parse env (JSON_parse chess_payload) !! "id"
     = Some (VStr "3b241101-e2bb-4255-8caf-4136c566a962")
  /\ history (state_of (handleImportFile Engine.Date_parse env
                          (Some (ParsedObject chess_with_id))
                          (with_history [known])))
     = [known].
Proof.
  intros env known. split; [|split].
  - apply (proj1 (import_validation Engine.Date_parse env
                    (delete "name" chess_payload) idle)).
    left. reflexivity.
  - apply (proj2 (proj2 (import_validation Engine.Date_parse env
                           chess_payload idle))); reflexivity.
  - apply (proj2 (proj2 (import_validation Engine.Date_parse env
                           chess_with_id (with_history [known])))) with known;
      [reflexivity|by apply list_elem_of_singleton|reflexivity].
Defined.

(** ** Sample histories *)

Lemma cat_video_well_dated :
  well_dated Engine.Date_parse Engine.toISOString cat_video.
Proof.
  intros k Hk. unfold kept, cat_video.
  destruct (decide (k = "timestamp")) as [->|Htime].
  - exists 1709210096789. repeat split; reflexivity.
  - intros v.
    repeat (rewrite lookup_insert;
            destruct (decide _) as [<-|_]; [by intros [= <-]|]).
    by rewrite lookup_empty.
Qed.

(** A creation with a valid date stored next to one with an Invalid Date:
    it comes back as it was, without its [videoUrl]. *)
Lemma persist_then_load_witness :
  let stored := fst (persist Engine.toISOString None [undated; cat_video] None) in
  let run := initHistory Engine.Date_parse stored no_examples idle in
  trace_of run = []
  /\ exists first, history (state_of run) = [first; delete "videoUrl" cat_video].
Proof.
  intros stored0 run.
  destruct (persist_then_load Engine.Date_parse Engine.toISOString
              [undated; cat_video] None no_examples idle ltac:(discriminate))
    as (_ & Htrace & Hall & _).
  split; [exact Htrace|]. fold stored0 run in Hall.
  apply Forall2_cons_inv_l in Hall as (first & rest & _ & Hall & ->).
  apply Forall2_cons_inv_l in Hall as (second & rest' & (_ & _ & Hsecond) & Hall & ->).
  apply Forall2_nil_inv_l in Hall as ->.
  exists first. by rewrite (Hsecond cat_video_well_dated).
Defined.

(** A creation with an Invalid Date, as an import of [undated_payload]
    leaves it in the history, is written with a [null] timestamp and read
    back with the timestamp 1970-01-01T00:00:00.000Z. *)
Lemma persist_then_load_invalid_date :
  let env := sample_env service_ok in
  let imported :=
    handleImportFile Engine.Date_parse env (Some (ParsedObject undated_payload)) idle in
  let stored := fst (persist Engine.toISOString None [undated] None) in
  let run := initHistory Engine.Date_parse stored no_examples idle in
  history (state_of imported) = [undated]
  /\ undated !! "videoUrl" = None
  /\ undated !! "timestamp" = Some (VDate None)
  /\ history (state_of run) = [<["timestamp" := VDate (Some 0)]> undated]
  /\ history (state_of run) <> [delete "videoUrl" undated].
Proof.
  intros env imported stored0 run.
  assert (Hrun : history (state_of run) = [<["timestamp" := VDate (Some 0)]> undated]).
  { vm_compute. reflexivity. }
  split; [vm_compute; reflexivity|].
  split; [reflexivity|]. split; [reflexivity|]. split; [exact Hrun|].
  rewrite Hrun. intros H.
  apply (f_equal (fun h => match h with c :: _ => c !! "timestamp" | [] => None end)) in H.
  vm_compute in H. discriminate H.
Qed.

(** A creation with a valid date and a property that holds [Infinity], as
    an import of [rated_payload] leaves it in the history, is written with
    [null] for that property and read back with [null]; its other
    properties come back as they were. *)
Example persist_then_load_infinity :
  let env := sample_env service_ok in
  let imported :=
    handleImportFile Engine.Date_parse env (Some (ParsedObject rated_payload)) idle in
  let stored := fst (persist Engine.toISOString None [rated] None) in
  let run := initHistory Engine.Date_parse stored no_examples idle in
  history (state_of imported) = [rated]
  /\ history (state_of run) = [<["rating" := VNull]> rated].
Proof. split; vm_compute; reflexivity. Qed.

(** ** The example fallback *)

(** The fallback fetches the three example URLs, in order, before anything
    else. *)
Lemma load_examples_fetches :
  forall (Date_parse : string -> option Z)
         (fetch_example : string -> ExampleFetch) (st : AppState),
    exists after,
      effects (trace_of (load_examples Date_parse fetch_example st))
      = map Fetch exampleUrls ++ after.
Proof.
  intros. unfold load_examples, exampleUrls.
  unfold bind, try_catch, await, emit, ret, modify, trace_of, effects.
  cbn [foldr map].
  match goal with |- context [promise_all ?l] => destruct (promise_all l) end;
    simpl; eauto.
Qed.

(** The fallback is taken when nothing usable is stored: no entry, a text
    that does not parse, a value that is not an array, or an empty array. *)
Lemma initHistory_falls_back :
  forall (Date_parse : string -> option Z) (saved : option stored)
         (fetch_example : string -> ExampleFetch) (st : AppState),
    saved = None \/ saved = Some StoredMalformed \/ saved = Some StoredNotArray
    \/ saved = Some (StoredArray []) ->
    state_of (initHistory Date_parse saved fetch_example st)
    = state_of (load_examples Date_parse fetch_example st)
    /\ exists before,
         effects (trace_of (initHistory Date_parse saved fetch_example st))
         = before
           ++ effects (trace_of (load_examples Date_parse fetch_example st))
         /\ Forall (fun e => exists msg err, e = ConsoleError msg err) before.
Proof.
  intros Date_parse saved fetch_example st [-> | [-> | [-> | ->]]];
    unfold initHistory, read_history, parse_saved;
    generalize (load_examples Date_parse fetch_example); intros fallback;
    unfold bind, try_catch, await, emit, ret, state_of, trace_of, effects;
    simpl; destruct (fallback st) as [[r s1] t1]; simpl;
    (split; [reflexivity|]);
    first [ by exists []; split; [reflexivity|constructor]
          | eexists [_]; split; [reflexivity|repeat constructor; eauto] ].
Qed.

(** An example whose response is not [ok] is left out and the others are
    loaded. *)
Example initHistory_skips_not_ok :
  let run := initHistory Engine.Date_parse None second_not_ok idle in
  let example := importedCreation Engine.Date_parse (sample_env service_ok)
                   (JSON_parse chess_with_id) in
  outcome_of run = Returned tt
  /\ history (state_of run) = [example; example]
  /\ effects (trace_of run) = map Fetch exampleUrls.
Proof. repeat split; vm_compute; reflexivity. Qed.

(** C9 (the code at the failing input). When the fetch of one example is
    rejected, [Promise.all] is rejected and [initHistory] loads none of the
    examples, although the other two were found: the history stays
    empty. *)
Theorem initHistory_rejected_fetch_loads_nothing :
  let run := initHistory Engine.Date_parse None second_rejected idle in
  outcome_of run = Returned tt
  /\ history (state_of run) = []
  /\ effects (trace_of run) =
       map Fetch exampleUrls
       ++ [ConsoleError "Failed to load examples" (ErrorObj "Failed to fetch")]
  /\ load_example Engine.Date_parse (second_rejected (exampleUrls !!! 0%nat))
     <> Returned None
  /\ load_example Engine.Date_parse (second_rejected (exampleUrls !!! 2%nat))
     <> Returned None.
Proof.
  repeat split; try (vm_compute; reflexivity);
    intros H; vm_compute in H; discriminate H.
Qed.

(* ================================================================== *)
(** * Properties of the history strip *)
(* ================================================================== *)

(** X1. Dragging the item at index [from] onto index [to], both inside the
    history, hands [onReorder] a rearrangement of the history in which the
    dragged item sits at index [to] and the other items keep their
    order. *)
Theorem move_item_moves :
  forall (A : Type) (from to : nat) (history : list A),
    (from < length history)%nat ->
    (to < length history)%nat ->
    exists newHistory,
      move_item from to history = Some <$> newHistory
      /\ newHistory ≡ₚ history
      /\ newHistory !! to = history !! from
      /\ delete to newHistory = delete from history.
Proof.
  intros A from to history Hfrom Hto.
  destruct (lookup_lt_is_Some_2 history from Hfrom) as [x Hx].
  assert (Hlen : length (take to (delete from history)) = to).
  { rewrite length_take, length_delete by eauto. lia. }
  exists (take to (delete from history) ++ x :: drop to (delete from history)).
  split; [|split; [|split]].
  - unfold move_item. rewrite Hx, fmap_app. reflexivity.
  - rewrite <- Permutation_middle, take_drop.
    symmetry. by apply delete_Permutation.
  - rewrite Hx, lookup_app_r by lia. by rewrite Hlen, Nat.sub_diag.
  - rewrite <- Hlen at 1. by rewrite delete_middle, take_drop.
Qed.

Lemma drag_step_invariant {A} (history : list A) ev ds :
  drag_invariant ds -> drag_invariant (drag_step history ev ds).
Proof.
  intros [Hsync Hidle].
  destruct ev as [i|i| |]; unfold drag_invariant; simpl; try done.
  unfold handleDragEnter.
  destruct (draggedIndex ds) as [j|] eqn:Hj.
  - destruct (negb (i =? j)%nat); simpl; rewrite ?Hj; split; done.
  - rewrite Hj. split; done.
Qed.


(* ================================================================== *)
(** * Properties of the input area *)
(* ================================================================== *)

Lemma get_bind {St B} (k : St -> M St B) (s : St) : bind get k s = k s s.
Proof. unfold bind, get. by destruct (k s s) as [[r s2] t2]. Qed.

Lemma handleFile_accepts {St} (file : File) (ia : InputArea) (s : St) :
  staged_accepted ia ->
  exists ia', outcome_of (handleFile file ia s) = Returned ia'
              /\ state_of (handleFile file ia s) = s
              /\ staged_accepted ia'
              /\ Forall (fun e => is_alert e = true)
                   (effects (trace_of (handleFile file ia s))).
Proof.
  intros Hia. unfold handleFile.
  destruct (accepted_type file) eqn:Hok.
  - eexists. repeat split; [done|constructor].
  - exists ia. repeat split; [done|]. repeat constructor.
Qed.

Lemma click_generate_returns env ia st :
  staged_accepted ia ->
  exists ia', outcome_of (click_generate env ia st) = Returned ia'
              /\ staged_accepted ia'.
Proof.
  intros Hia. rewrite click_generate_unfold. unfold handleGenerateClick.
  repeat match goal with
         | |- context [if ?b then _ else _] => destruct b
         end;
    rewrite ?detach_then_ret; eexists; split; try reflexivity; done.
Qed.

Lemma input_step_accepts env ev ia st :
  staged_accepted ia ->
  exists ia', outcome_of (input_step env ev ia st) = Returned ia'
              /\ staged_accepted ia'.
Proof.
  intros Hia.
  unfold input_step. rewrite get_bind. cbv zeta.
  destruct ev as [m|text|files|files| |].
  - destruct (isGenerating st); by eexists.
  - destruct (_ || _); by eexists.
  - destruct (_ || _); [by eexists|].
    destruct files as [|file files]; [by eexists|].
    destruct (handleFile_accepts (St:=AppState) file ia st Hia) as (ia' & ? & _ & ? & _).
    by exists ia'.
  - destruct (is_Some_file _); [by eexists|].
    unfold handleDrop. destruct (_ || _); [by eexists|].
    destruct files as [|file files]; [by eexists|].
    destruct (handleFile_accepts (St:=AppState) file ia st Hia) as (ia' & Hout & _ & ? & _).
    exists ia'. split; [|done].
    unfold outcome_of, bind in *.
    destruct (handleFile file ia st) as [[r s1] t1]; simpl in *. by subst r.
  - by eexists.
  - by apply click_generate_returns.
Qed.


(** X4. While a generation is running or a creation is shown, no event of
    the input area changes the state of [App] or performs any effect: no
    request is sent, no alert is raised, and the prompt is left as it is.
    In particular no second generation can be started from the input
    area. *)
Theorem input_area_is_inert_when_focused :
  forall (env : Env) (ev : InputEvent) (ia : InputArea) (st : AppState),
    isFocused st = true ->
    let run := input_step env ev ia st in
    state_of run = st
    /\ trace_of run = []
    /\ exists ia', outcome_of run = Returned ia' /\ prompt ia' = prompt ia.
Proof.
  intros env ev ia st Hfocus run. subst run.
  unfold input_step. rewrite get_bind. cbv zeta. rewrite Hfocus.
  destruct ev as [m|text|files|files| |].
  - destruct (isGenerating st); repeat split; by eexists.
  - rewrite orb_true_r. repeat split; by eexists.
  - rewrite orb_true_r. simpl. repeat split; by eexists.
  - destruct (is_Some_file _); [repeat split; by eexists|].
    unfold handleDrop. simpl. repeat split; by eexists.
  - repeat split; by eexists.
  - rewrite click_generate_unfold, Hfocus. unfold handleGenerateClick.
    rewrite orb_true_r. repeat split; by eexists.
Qed.

(* ================================================================== *)
(** * Data URLs *)
(* ================================================================== *)

Section SplitFacts.
#[local] Arguments String.append : simpl nomatch.
#[local] Arguments Ascii.eqb : simpl never.

Lemma rev_app_append a b r : String.rev_app a b +:+ r = String.rev_app a (b +:+ r).
Proof. revert b. induction a as [|c a IH]; intros b; simpl; [done|]. by rewrite IH. Qed.

Lemma rev_cons_append c cur r :
  String.rev (String c cur) +:+ r = String.rev cur +:+ String c r.
Proof. unfold String.rev. simpl. by rewrite !rev_app_append. Qed.

Lemma has_char_append c s1 s2 :
  has_char c (s1 +:+ s2) = has_char c s1 || has_char c s2.
Proof. induction s1 as [|a s1 IH]; simpl; [done|]. by rewrite IH, orb_assoc. Qed.

(** A text without the first code unit of the separator is one piece. *)
Lemma split_go_one_piece c0 sep cur s :
  has_char c0 s = false ->
  split_go (String c0 sep) 0 cur s = [String.rev cur +:+ s].
Proof.
  revert cur. induction s as [|a s IH]; intros cur Hs; simpl in *.
  - by rewrite append_nil_r.
  - apply orb_false_iff in Hs as [Ha Hs].
    rewrite Ascii.eqb_sym, Ha. rewrite (IH _ Hs). by rewrite rev_cons_append.
Qed.

Lemma split_go_skip sep cur p s :
  split_go sep (String.length p) cur (p +:+ s) = split_go sep 0 cur s.
Proof.
  induction p as [|a p IH]; simpl; [|done].
  by destruct s.
Qed.

(** Two pieces around the only separator. *)
Lemma split_two c0 sep s1 s2 :
  has_char c0 s1 = false -> has_char c0 s2 = false ->
  split (s1 +:+ String c0 sep +:+ s2) (String c0 sep) = [s1; s2].
Proof.
  intros H1 H2. unfold split.
  change s1 with (String.rev "" +:+ s1) at 2. generalize "" as cur.
  induction s1 as [|a s1 IH]; intros cur; simpl in *.
  - rewrite Ascii.eqb_refl, strip_prefix_append, append_nil_r.
    replace (String.length sep - 0)%nat with (String.length sep) by lia.
    rewrite split_go_skip, split_go_one_piece by done. done.
  - apply orb_false_iff in H1 as [Ha H1].
    rewrite Ascii.eqb_sym, Ha. rewrite (IH H1). by rewrite rev_cons_append.
Qed.
End SplitFacts.

(** What [seed_of] reads off a data URL is what [data_url] put in. *)
Lemma data_url_round_trip :
  forall (imageBase64 mimeType : string),
    imageBase64 <> "" -> mimeType <> "" ->
    has_char ";" mimeType = false ->
    has_char ":" mimeType = false ->
    has_char ";" imageBase64 = false ->
    data_url (Some imageBase64) (Some mimeType)
    = Some ("data:" +:+ mimeType +:+ ";base64," +:+ imageBase64)
    /\ seed_of ("data:" +:+ mimeType +:+ ";base64," +:+ imageBase64)
       = (Some imageBase64, Some mimeType).
Proof.
  intros b64 mime Hb Hm Hsemi Hcolon Hbsemi. split.
  - unfold data_url. simpl.
    destruct (String.eqb_spec b64 ""); [done|].
    by destruct (String.eqb_spec mime "").
  - unfold seed_of.
    rewrite <- append_assoc.
    rewrite (split_two ";" "base64," ("data:" +:+ mime) b64); [|done..].
    change ("data:" +:+ mime) with ("data" +:+ String ":" "" +:+ mime).
    by rewrite (split_two ":" "" "data" mime).
Qed.

(* ================================================================== *)
(** * What a run leaves behind *)
(* ================================================================== *)

(** ** Effects of the parts of a run *)

Lemma trace_bind_l {St A B} (m : M St A) (k : A -> M St B) s x :
  x ∈ trace_of (m s) -> x ∈ trace_of (bind m k s).
Proof.
  unfold trace_of, bind. destruct (m s) as [[[a|e|] s1] t1]; simpl; try done.
  destruct (k a s1) as [[r s2] t2]; simpl. set_solver.
Qed.

Lemma trace_bind_r {St A B} (m : M St A) (k : A -> M St B) s a x :
  outcome_of (m s) = Returned a ->
  x ∈ trace_of (k a (state_of (m s))) -> x ∈ trace_of (bind m k s).
Proof.
  unfold trace_of, outcome_of, state_of, bind.
  destruct (m s) as [[r s1] t1]; simpl. intros ->.
  destruct (k a s1) as [[r s2] t2]; simpl. set_solver.
Qed.

Lemma trace_try_catch_l {St A} (m : M St A) (h : thrown -> M St A) s x :
  x ∈ trace_of (m s) -> x ∈ trace_of (try_catch m h s).
Proof.
  unfold trace_of, try_catch. destruct (m s) as [[[a|e|] s1] t1]; simpl; try done.
  destruct (h e s1) as [[r s2] t2]; simpl. set_solver.
Qed.

Lemma trace_try_finally_l {St A} (m : M St A) (f : M St unit) s x :
  x ∈ trace_of (m s) -> x ∈ trace_of (try_finally m f s).
Proof.
  unfold trace_of, try_finally.
  destruct (m s) as [[[a|e|] s1] t1]; simpl; try done;
    destruct (f s1) as [[[[]|e'|] s2] t2]; simpl; set_solver.
Qed.

(** ** Computations that do not touch the state *)

Lemma stateless_ret {A} (a : A) : stateless (ret a).
Proof. done. Qed.

Lemma stateless_throw {A} e : stateless (throw (A:=A) e).
Proof. done. Qed.

Lemma stateless_await {A} (p : outcome A) : stateless (await p).
Proof. done. Qed.

Lemma stateless_emit e : stateless (emit e).
Proof. done. Qed.

Lemma stateless_bind {A B} (m : M AppState A) (k : A -> M AppState B) :
  stateless m -> (forall a, stateless (k a)) -> stateless (bind m k).
Proof.
  intros Hm Hk s. specialize (Hm s). unfold bind, state_of in *.
  destruct (m s) as [[[a|e|] s1] t1]; simpl in *; try done. subst s1.
  specialize (Hk a s). unfold state_of in Hk.
  by destruct (k a s) as [[r s2] t2].
Qed.

Lemma stateless_try_catch {A} (m : M AppState A) (h : thrown -> M AppState A) :
  stateless m -> (forall e, stateless (h e)) -> stateless (try_catch m h).
Proof.
  intros Hm Hh s. specialize (Hm s). unfold try_catch, state_of in *.
  destruct (m s) as [[[a|e|] s1] t1]; simpl in *; try done. subst s1.
  specialize (Hh e s). unfold state_of in Hh.
  by destruct (h e s) as [[r s2] t2].
Qed.

Lemma stateless_when b (m : M AppState unit) : stateless m -> stateless (when b m).
Proof. destruct b; simpl; auto using stateless_ret. Qed.

Create HintDb stateless.
#[local] Hint Resolve stateless_ret stateless_throw stateless_await stateless_emit
  stateless_bind stateless_try_catch stateless_when : stateless.

Lemma stateless_poll answers operation :
  stateless (poll (St:=AppState) answers operation).
Proof. intros s. apply poll_state. Qed.
#[local] Hint Resolve stateless_poll : stateless.

Ltac stateless :=
  repeat first
    [ progress auto with stateless
    | apply stateless_bind; [|intros]
    | apply stateless_try_catch; [|intros]
    | apply stateless_when
    | match goal with
      | |- context [match ?x with _ => _ end] => destruct x
      end ].

Lemma stateless_bringToLifeAsVideo svc API_KEY prompt fileBase64 mimeType :
  stateless (bringToLifeAsVideo (St:=AppState) svc API_KEY prompt fileBase64 mimeType).
Proof. unfold bringToLifeAsVideo. stateless. Qed.

Lemma stateless_bringToLife svc prompt fileBase64 mimeType :
  stateless (bringToLife (St:=AppState) svc prompt fileBase64 mimeType).
Proof. unfold bringToLife. stateless. Qed.

Lemma stateless_ensure_key env : stateless (ensure_key env).
Proof. unfold ensure_key. stateless. Qed.

Lemma stateless_report_failure env log prefix e :
  stateless (report_failure env log prefix e).
Proof. unfold report_failure, error_message_of. stateless. Qed.

Lemma stateless_fileToBase64 f : stateless (fileToBase64 f).
Proof. unfold fileToBase64. stateless. Qed.

#[local] Hint Resolve stateless_bringToLifeAsVideo stateless_bringToLife
  stateless_ensure_key stateless_report_failure stateless_fileToBase64 : stateless.

(** ** Computations that adopt at most one creation *)

Lemma adopts_stateless Q (m : M AppState unit) : stateless m -> adopts Q m.
Proof. intros Hm s. left. apply Hm. Qed.

Lemma adopts_adopt (Q : Creation -> Prop) c : Q c -> adopts Q (adopt c).
Proof. intros Hc s. right. split; [done|]. by exists c. Qed.

Lemma adopts_when_adopt (Q : Creation -> Prop) b c :
  (b = true -> Q c) -> adopts Q (when b (adopt c)).
Proof.
  destruct b; simpl; intros Hc.
  - by apply adopts_adopt, Hc.
  - by apply adopts_stateless.
Qed.

Lemma adopts_bind {A} Q (m : M AppState A) (k : A -> M AppState unit) :
  stateless m -> (forall a, adopts Q (k a)) -> adopts Q (bind m k).
Proof.
  intros Hm Hk s. specialize (Hm s). unfold bind, state_of, outcome_of in *.
  destruct (m s) as [[[a|e|] s1] t1]; simpl in *; subst s1; try by left.
  specialize (Hk a s). unfold state_of, outcome_of in Hk.
  by destruct (k a s) as [[r s2] t2].
Qed.

Lemma adopts_try_catch Q (m : M AppState unit) (h : thrown -> M AppState unit) :
  adopts Q m -> (forall e, stateless (h e)) -> adopts Q (try_catch m h).
Proof.
  intros Hm Hh s. specialize (Hm s). unfold try_catch, state_of, outcome_of in *.
  destruct (m s) as [[[a|e|] s1] t1]; simpl in *; try done.
  destruct Hm as [->|[[=] _]].
  specialize (Hh e s). unfold state_of in Hh.
  destruct (h e s) as [[r s2] t2]; simpl in *. by left.
Qed.

(** ** What the generation handlers leave behind *)

Lemma str_truthy_Some s : str_truthy (Some s) = true -> s <> "".
Proof. simpl. by destruct (String.eqb_spec s ""). Qed.

Lemma str_or_text a b : b <> "" -> str_or a b <> "".
Proof.
  intros Hb. unfold str_or. destruct (str_truthy a) eqn:Ha; [|done].
  destruct a as [s|]; [|done]. by apply str_truthy_Some.
Qed.

Lemma with_optional_lookup_ne k k' v (o : Creation) :
  k <> k' -> with_optional k v o !! k' = o !! k'.
Proof. intros Hk. unfold with_optional. destruct v; [|done]. by rewrite lookup_insert_ne. Qed.

Lemma generated_by_handleGenerate env mode file promptText imageBase64 mimeType
    (payload : string) :
  payload <> "" ->
  generated env mode
    (<["timestamp" := VDate (Some (now env))]>
       (<["id" := VStr (randomUUID env)]>
          (<[match mode with app => "html" | video => "videoUrl" end := VStr payload]>
             (<["name" := VStr (str_or (file_name <$> file)
                                  (str_or (Some (substring 0 30 promptText))
                                     "New Creation"))]>
                (with_optional "originalImage" (data_url imageBase64 mimeType)
                   (<["type" := VStr (mode_tag mode)]> ∅)))))).
Proof.
  intros Hpayload. unfold generated, holds_text.
  destruct mode;
    repeat split;
    repeat first
      [ rewrite lookup_insert_eq
      | rewrite lookup_insert_ne by done
      | rewrite with_optional_lookup_ne by done
      | rewrite lookup_empty ];
    try done;
    eexists; (split; [reflexivity|]); try done;
    by repeat apply str_or_text.
Qed.

Lemma handleGenerate_body_adopts env promptText file mode :
  adopts (generated env mode)
    (try_catch
       (encoded <-
          match file with
          | Some f =>
              imageBase64 <- fileToBase64 f ;;
              ret (imageBase64, Some (toLowerCase (file_type f)))
          | None => ret (None, None)
          end ;;
        let '(imageBase64, mimeType) := encoded in
        let newCreation : Creation :=
          <["name" := VStr (str_or (file_name <$> file)
                              (str_or (Some (substring 0 30 promptText))
                                 "New Creation"))]>
            (with_optional "originalImage" (data_url imageBase64 mimeType)
               (<["type" := VStr (mode_tag mode)]> ∅)) in
        match mode with
        | video =>
            ensure_key env ;;
            videoUrl <- bringToLifeAsVideo (video_service env) (API_KEY env)
                          promptText imageBase64 mimeType ;;
            when (str_truthy (Some videoUrl))
              (adopt (<["timestamp" := VDate (Some (now env))]>
                        (<["id" := VStr (randomUUID env)]>
                           (<["videoUrl" := VStr videoUrl]> newCreation))))
        | app =>
            html <- bringToLife (app_service env)
                      promptText imageBase64 mimeType ;;
            when (str_truthy (Some html))
              (adopt (<["timestamp" := VDate (Some (now env))]>
                        (<["id" := VStr (randomUUID env)]>
                           (<["html" := VStr html]> newCreation))))
        end)
       (report_failure env "Failed to generate:" "Something went wrong: ")).
Proof.
  apply adopts_try_catch; [|auto with stateless].
  apply adopts_bind.
  { destruct file; auto 10 with stateless. }
  intros [imageBase64 mimeType]. destruct mode.
  - apply adopts_bind; [auto with stateless|]. intros html.
    apply adopts_when_adopt. intros Hhtml%str_truthy_Some.
    by apply (generated_by_handleGenerate env app).
  - apply adopts_bind; [auto with stateless|]. intros _.
    apply adopts_bind; [auto with stateless|]. intros videoUrl.
    apply adopts_when_adopt. intros Hurl%str_truthy_Some.
    by apply (generated_by_handleGenerate env video).
Qed.

(** [try { body } finally { setIsGenerating(false) }] around a body that
    adopts at most one creation. *)
Lemma try_finally_adopts Q (body : M AppState unit) (s : AppState) :
  adopts Q body ->
  let run := try_finally body (modify (setIsGenerating false)) s in
  generationMode (state_of run) = generationMode s
  /\ ((history (state_of run) = history s
       /\ activeCreation (state_of run) = activeCreation s)
      \/ (outcome_of run = Returned tt
          /\ exists c, Q c
                       /\ history (state_of run) = c :: history s
                       /\ activeCreation (state_of run) = Some c)).
Proof.
  intros Hbody. specialize (Hbody s).
  unfold try_finally, modify, state_of, outcome_of in *.
  destruct (body s) as [[r s1] t1]; simpl in *.
  destruct Hbody as [->|[-> (c & Hc & ->)]].
  - destruct r; simpl; split; auto.
  - simpl. split; [done|]. right. split; [done|]. by exists c.
Qed.

(** X5. A run of [handleGenerate] leaves [generationMode] at the mode asked
    for and either adds nothing, in which case no creation is active and
    the history is as before, or returns having put one new creation in
    front of the history and made it active; that creation has the mode as
    its type, the UUID and the clock of the surroundings as id and
    timestamp, a non-empty name, and exactly the payload of its mode,
    non-empty: [html] and no [videoUrl] for an app, [videoUrl] and no
    [html] for a video.  It never removes or changes an entry of the
    history. *)
Theorem handleGenerate_adds_one_creation :
  forall (env : Env) (promptText : string) (file : option File)
         (mode : GenerationMode) (st : AppState),
    let run := handleGenerate env promptText file mode st in
    generationMode (state_of run) = mode
    /\ ((history (state_of run) = history st
         /\ activeCreation (state_of run) = None)
        \/ (outcome_of run = Returned tt
            /\ exists c, generated env mode c
                         /\ history (state_of run) = c :: history st
                         /\ activeCreation (state_of run) = Some c)).
Proof.
  intros env promptText file mode0 st run. subst run.
  unfold handleGenerate. rewrite !modify_bind.
  exact (try_finally_adopts (generated env mode0) _
           (setActiveCreation None
              (setGenerationMode mode0 (setIsGenerating true st)))
           (handleGenerate_body_adopts env promptText file mode0)).
Qed.

Lemma regenerated_by_handler env newPrompt (originalCreation : Creation)
    (videoUrl : string) :
  videoUrl <> "" ->
  regenerated env newPrompt originalCreation
    (<["videoUrl" := VStr videoUrl]>
       (<["name" := VStr newPrompt]>
          (<["timestamp" := VDate (Some (now env))]>
             (<["id" := VStr (randomUUID env)]>
                (<["type" := VStr "video"]>
                   (match originalCreation !! "originalImage" with
                    | Some v => <["originalImage" := v]> ∅
                    | None => ∅
                    end)))))).
Proof.
  intros Hurl. unfold regenerated, holds_text.
  repeat split;
    repeat first
      [ rewrite lookup_insert_eq
      | rewrite lookup_insert_ne by done ];
    try done.
  - destruct (originalCreation !! "originalImage");
      [by rewrite lookup_insert_eq|by rewrite lookup_empty].
  - by eexists.
  - destruct (originalCreation !! "originalImage");
      [by rewrite lookup_insert_ne|by rewrite lookup_empty].
Qed.

(** X6. A run of [handleRegenerateVideo] sets [generationMode] to video
    and either adds nothing, in which case the creation that was shown
    stays active and the history is as before, or returns having put in
    front of the history, and made active, a video creation named after
    the new prompt, with the original image of the creation it started
    from, a non-empty [videoUrl] and no [html]. *)
Theorem handleRegenerateVideo_adds_one_video :
  forall (env : Env) (newPrompt : string) (originalCreation : Creation)
         (st : AppState),
    let run := handleRegenerateVideo env newPrompt originalCreation st in
    generationMode (state_of run) = video
    /\ ((history (state_of run) = history st
         /\ activeCreation (state_of run) = activeCreation st)
        \/ (outcome_of run = Returned tt
            /\ exists c, regenerated env newPrompt originalCreation c
                         /\ history (state_of run) = c :: history st
                         /\ activeCreation (state_of run) = Some c)).
Proof.
  intros env newPrompt originalCreation st run. subst run.
  unfold handleRegenerateVideo. rewrite !modify_bind.
  refine (try_finally_adopts (regenerated env newPrompt originalCreation) _
            (setGenerationMode video (setIsGenerating true st)) _).
  apply adopts_try_catch; [|auto with stateless].
  apply adopts_bind.
  { destruct (truthy _); [|auto with stateless].
    destruct (originalCreation !! "originalImage") as [[]|]; auto with stateless. }
  intros [imageBase64 mimeType].
  apply adopts_bind; [auto with stateless|]. intros _.
  apply adopts_bind; [auto with stateless|]. intros videoUrl.
  apply adopts_when_adopt. intros Hurl%str_truthy_Some.
  by apply regenerated_by_handler.
Qed.


Lemma ensure_key_passes env s :
  key_check_passes env ->
  outcome_of (ensure_key env s) = Returned tt /\ state_of (ensure_key env s) = s.
Proof.
  unfold key_check_passes, ensure_key.
  destruct (aistudio env) as [studio|]; [|done].
  intros [-> | [-> ->]]; done.
Qed.

Lemma bringToLifeAsVideo_requests {St} svc API_KEY prompt fileBase64 mimeType (s : St) :
  video_client svc = Returned tt ->
  (s, GenerateVideos VIDEO_MODEL prompt (inline_part fileBase64 mimeType))
  ∈ trace_of (bringToLifeAsVideo svc API_KEY prompt fileBase64 mimeType s).
Proof.
  intros Hclient. unfold bringToLifeAsVideo.
  eapply trace_bind_r; [by rewrite Hclient|]. simpl.
  apply trace_try_catch_l, trace_bind_l. apply list_elem_of_singleton. done.
Qed.

(** X7. When a creation carries the data URL [handleGenerate] builds from
    image bytes and a MIME type (the type without colon or semicolon, the
    bytes without semicolon), [handleRegenerateVideo] sends the video
    request with exactly those bytes and that type, provided the key check
    lets it through and the client can be built. *)
Theorem regenerate_sends_original_image :
  forall (env : Env) (newPrompt : string) (originalCreation : Creation)
         (imageBase64 mimeType : string) (st : AppState),
    imageBase64 <> "" -> mimeType <> "" ->
    has_char ";" mimeType = false ->
    has_char ":" mimeType = false ->
    has_char ";" imageBase64 = false ->
    originalCreation !! "originalImage"
      = VStr <$> data_url (Some imageBase64) (Some mimeType) ->
    key_check_passes env ->
    video_client (video_service env) = Returned tt ->
    GenerateVideos VIDEO_MODEL newPrompt (Some (imageBase64, mimeType))
    ∈ effects (trace_of (handleRegenerateVideo env newPrompt originalCreation st)).
Proof.
  intros env newPrompt c b64 mime st Hb Hm Hsemi Hcolon Hbsemi Himage Hkey Hclient.
  destruct (data_url_round_trip b64 mime Hb Hm Hsemi Hcolon Hbsemi) as [Hurl Hseed].
  rewrite Hurl in Himage. simpl in Himage.
  set (s0 := setGenerationMode video (setIsGenerating true st)).
  apply list_elem_of_fmap. exists (s0, GenerateVideos VIDEO_MODEL newPrompt (Some (b64, mime))).
  split; [done|].
  unfold handleRegenerateVideo. rewrite !modify_bind. fold s0.
  apply trace_try_finally_l, trace_try_catch_l.
  rewrite Himage.
  eapply trace_bind_r; [reflexivity|].
  change (state_of _) with s0 at 1. rewrite Hseed. cbv beta iota.
  destruct (ensure_key_passes env s0 Hkey) as [Hout Hstate].
  eapply trace_bind_r; [exact Hout|]. rewrite Hstate.
  apply trace_bind_l.
  replace (Some (b64, mime)) with (inline_part (Some b64) (Some mime)).
  - by apply bringToLifeAsVideo_requests.
  - unfold inline_part. simpl.
    destruct (String.eqb_spec b64 ""); [done|].
    by destruct (String.eqb_spec mime "").
Qed.

(** ** The polling loop, whatever the service answers *)

Lemma poll_rounds {St} (answers : list (outcome Operation)) operation (s : St) :
  exists n : nat,
    List.filter is_poll_effect (effects (trace_of (poll answers operation s)))
    = concat (replicate n poll_round)
    /\ delays (trace_of (poll answers operation s)) = replicate n 10000
    /\ (n <= length answers + 1)%nat
    /\ (done operation = true -> n = 0%nat)
    /\ (forall last, outcome_of (poll answers operation s) = Returned last ->
        (n <= length answers)%nat).
Proof.
  revert operation s.
  induction answers as [|answer later IH]; intros operation s; simpl;
    destruct (done operation) eqn:Hdone.
  - exists 0%nat. repeat split; try done; lia.
  - exists 1%nat. unfold_monad; simpl. repeat split; try done; lia.
  - exists 0%nat. repeat split; try done; lia.
  - destruct answer as [operation'| |].
    + destruct (IH operation' s) as (n & Hn & Hd & Hle & _ & Hret).
      exists (S n). unfold_monad; simpl.
      destruct (poll later operation' s) as [[r s1] t1]; simpl in *.
      unfold effects, delays in *.
      destruct r; simpl; rewrite Hn, Hd;
        (repeat split; [lia|done|]); intros last [=]; subst;
        specialize (Hret _ eq_refl); lia.
    + exists 1%nat. unfold_monad; simpl. repeat split; try done; lia.
    + exists 1%nat. unfold_monad; simpl. repeat split; try done; lia.
Qed.

(** X8. Whatever the video service answers, [bringToLifeAsVideo] re-checks
    the operation only after a wait of 10 seconds: its waits and re-checks
    are some number of turns, each a [setTimeout] of 10000 ms followed by
    one [getVideosOperation]; there is at most one turn per answer of the
    service and one more for a re-check that is never answered, and a call
    that returns a video has made no more turns than it got answers.  The
    waits are the only delays of the call. *)
Theorem video_polling_discipline :
  forall (St : Type) (svc : VideoService) (API_KEY : option string)
         (prompt : string) (fileBase64 mimeType : option string) (s : St),
    let run := bringToLifeAsVideo svc API_KEY prompt fileBase64 mimeType s in
    exists n : nat,
      List.filter is_poll_effect (effects (trace_of run))
      = concat (replicate n poll_round)
      /\ delays (trace_of run) = replicate n 10000
      /\ (n <= length (getVideosOperation svc) + 1)%nat
      /\ (forall videoUrl, outcome_of run = Returned videoUrl ->
          (n <= length (getVideosOperation svc))%nat).
Proof.
  intros St svc API_KEY prompt fileBase64 mimeType s run. subst run.
  unfold bringToLifeAsVideo.
  destruct (video_client svc) as [[]| |];
    [|exists 0%nat; unfold_monad; simpl; repeat split; try done; lia..].
  destruct (generateVideos svc) as [operation0| |] eqn:Hsubmit;
    [|exists 0%nat; unfold_monad; simpl;
      try destruct (is_entity_not_found _); simpl; repeat split; try done; lia..].
  destruct (poll_rounds (getVideosOperation svc) operation0 s)
    as (n & Hn & Hd & Hle & _ & Hret).
  exists n. unfold_monad; simpl.
  destruct (poll (getVideosOperation svc) operation0 s) as [[r s1] t1].
  unfold effects, delays in *. simpl in *.
  destruct r as [operation|e|]; simpl;
    repeat first
      [ progress simpl
      | match goal with
        | |- context [status_failed ?o] => destruct (status_failed o)
        | |- context [str_truthy (uri ?o)] => destruct (str_truthy (uri o))
        | |- context [fetch_video ?v] => destruct (fetch_video v) as [res| |]
        | |- context [ok ?v] => destruct (ok v)
        | |- context [blob_url ?v] => destruct (blob_url v)
        | |- context [is_entity_not_found ?e] => destruct (is_entity_not_found e)
        end ];
    rewrite ?map_app, ?List.filter_app, ?omap_app, ?Hn, ?Hd; simpl;
    rewrite ?app_nil_r;
    (split; [done|]); (split; [done|]); (split; [done|]);
    intros videoUrl [=]; eauto.
Qed.

(** ** From the upload to the icon of the history strip *)

Lemma adopts_bind_with {A} Q (P : A -> Prop) (m : M AppState A)
    (k : A -> M AppState unit) :
  stateless m ->
  (forall s a, outcome_of (m s) = Returned a -> P a) ->
  (forall a, P a -> adopts Q (k a)) ->
  adopts Q (bind m k).
Proof.
  intros Hm HP Hk s. specialize (Hm s). specialize (HP s).
  unfold bind, state_of, outcome_of in *.
  destruct (m s) as [[[a|e|] s1] t1]; simpl in *; subst s1; try by left.
  specialize (Hk a (HP a eq_refl) s). unfold state_of, outcome_of in Hk.
  by destruct (k a s) as [[r s2] t2].
Qed.

Lemma toLowerCase_append s1 s2 :
  toLowerCase (s1 +:+ s2) = toLowerCase s1 +:+ toLowerCase s2.
Proof. induction s1 as [|c s1 IH]; simpl; [done|]. by rewrite IH. Qed.

Lemma startsWith_prefix s p : startsWith s p = true -> exists r, s = p +:+ r.
Proof.
  unfold startsWith. destruct (strip_prefix p s) as [r|] eqn:Hr; [|done].
  intros _. exists r. by apply strip_prefix_Some.
Qed.

(** The icon of a creation made from an accepted file. *)
Lemma getIcon_of_upload f mode imageBase64 (c : Creation) :
  accepted_type f = true ->
  str_truthy imageBase64 = true ->
  c !! "type" = Some (VStr (mode_tag mode)) ->
  c !! "originalImage"
  = VStr <$> data_url imageBase64 (Some (toLowerCase (file_type f))) ->
  getIcon c
  = Returned match mode with
             | video => VideoCameraIcon
             | app =>
                 if String.eqb (file_type f) "application/pdf"
                 then DocumentIcon else PhotoIcon
             end.
Proof.
  intros Hf Hb Htype Himage. unfold getIcon. rewrite Htype.
  destruct mode; [|done]. simpl. rewrite Himage. clear Himage Htype.
  unfold data_url, accepted_type in *. rewrite Hb.
  destruct (String.eqb_spec (file_type f) "application/pdf") as [->|Hpdf].
  - done.
  - rewrite orb_false_r in Hf.
    apply startsWith_prefix in Hf as [r ->].
    rewrite toLowerCase_append. done.
Qed.

Lemma fileToBase64_returns f s a :
  outcome_of (fileToBase64 f s) = Returned a ->
  exists url, file_dataURL f = Returned url /\ a = split url "," !! 1%nat.
Proof.
  unfold fileToBase64. unfold_monad; simpl.
  destruct (file_dataURL f) as [url| |]; simpl; [|done..].
  intros [= <-]. by exists url.
Qed.

(** X9. When [handleGenerate] is given a file the input area accepts, an
    image or a PDF, whose data URL has something after its first comma,
    the creation it adds, if it adds one, is drawn in the history strip
    with the icon of what was uploaded: the camera for a video, and for an
    app the document for a PDF and the photo for an image.  [getIcon] does
    not throw on it. *)
Theorem history_icon_follows_upload :
  forall (env : Env) (promptText : string) (f : File) (mode : GenerationMode)
         (st : AppState),
    accepted_type f = true ->
    (forall url, file_dataURL f = Returned url ->
                 str_truthy (split url "," !! 1%nat) = true) ->
    let run := handleGenerate env promptText (Some f) mode st in
    (history (state_of run) = history st /\ activeCreation (state_of run) = None)
    \/ exists c,
         history (state_of run) = c :: history st
         /\ activeCreation (state_of run) = Some c
         /\ getIcon c
            = Returned match mode with
                       | video => VideoCameraIcon
                       | app =>
                           if String.eqb (file_type f) "application/pdf"
                           then DocumentIcon else PhotoIcon
                       end.
Proof.
  intros env promptText f mode0 st Hf Hread run. subst run.
  set (Q := fun c : Creation =>
              getIcon c
              = Returned match mode0 with
                         | video => VideoCameraIcon
                         | app =>
                             if String.eqb (file_type f) "application/pdf"
                             then DocumentIcon else PhotoIcon
                         end).
  unfold handleGenerate. rewrite !modify_bind.
  match goal with
  | |- context [try_finally ?body _ ?s] =>
      assert (Hbody : adopts Q body);
      [|destruct (try_finally_adopts Q body s Hbody) as [_ [H|(_ & c & Hc & Hh & Ha)]];
        [by left|right; by exists c]]
  end.
  apply adopts_try_catch; [|auto with stateless].
  apply (adopts_bind_with Q
           (fun a => str_truthy a.1 = true
                     /\ a.2 = Some (toLowerCase (file_type f)))).
  { auto 10 with stateless. }
  { intros s [imageBase64 mimeType]. unfold bind at 1, outcome_of.
    destruct (fileToBase64 f s) as [[[a|e|] s1] t1] eqn:Hrun; simpl; try done.
    intros [= <- <-]. split; [|done].
    destruct (fileToBase64_returns f s a) as (url & Hurl & ->).
    { by rewrite Hrun. }
    by apply Hread. }
  intros [imageBase64 mimeType] [Hb Hm]. simpl in Hb, Hm. subst mimeType.
  destruct mode0.
  - apply adopts_bind; [auto with stateless|]. intros html.
    apply adopts_when_adopt. intros _.
    apply (getIcon_of_upload f app imageBase64); [done..| |].
    + rewrite !lookup_insert_ne by done.
      rewrite with_optional_lookup_ne by done. by rewrite lookup_insert_eq.
    + rewrite !lookup_insert_ne by done.
      unfold with_optional. destruct (data_url _ _); [|done].
      by rewrite lookup_insert_eq.
  - apply adopts_bind; [auto with stateless|]. intros _.
    apply adopts_bind; [auto with stateless|]. intros videoUrl.
    apply adopts_when_adopt. intros _.
    apply (getIcon_of_upload f video imageBase64); [done..| |].
    + rewrite !lookup_insert_ne by done.
      rewrite with_optional_lookup_ne by done. by rewrite lookup_insert_eq.
    + rewrite !lookup_insert_ne by done.
      unfold with_optional. destruct (data_url _ _); [|done].
      by rewrite lookup_insert_eq.
Qed.

(** ** A response that is all fence *)

(** X10. When the app service answers with a text that is not empty but of
    which nothing is left once the fences are stripped, [handleGenerate]
    returns without a creation and without a word to the user: the history
    is as before, no creation is active, [isGenerating] is false again, and
    no alert was raised. *)
Theorem empty_app_is_dropped_silently :
  forall (env : Env) (promptText : string) (file : option File) (text : string)
         (st : AppState),
    (forall f, file = Some f -> exists url, file_dataURL f = Returned url) ->
    app_client (app_service env) = Returned tt ->
    generateContent (app_service env) = Returned (Some text) ->
    text <> "" ->
    strip_fences text = "" ->
    let run := handleGenerate env promptText file app st in
    outcome_of run = Returned tt
    /\ history (state_of run) = history st
    /\ activeCreation (state_of run) = None
    /\ isGenerating (state_of run) = false
    /\ List.filter is_alert (effects (trace_of run)) = [].
Proof.
  intros env promptText file text st Hread Hclient Hanswer Htext Hstrip run.
  subst run. unfold handleGenerate, bringToLife, fileToBase64.
  rewrite Hclient, Hanswer.
  assert (Htruthy : String.eqb text "" = false) by by apply String.eqb_neq.
  destruct file as [f|].
  - destruct (Hread f eq_refl) as [url ->].
    unfold_monad; simpl. rewrite Htruthy. simpl. rewrite Hstrip. done.
  - unfold_monad; simpl. rewrite Htruthy. simpl. rewrite Hstrip. done.
Qed.

(** ** The prompt in app mode *)

(** X11. In app mode with a file, the prompt the user typed plays no part:
    for a file with a name, whose data URL has something after its first
    comma, two runs of [handleGenerate] that differ only in the prompt send
    the same request and end in the same way, in the same state, after the
    same effects. *)
Theorem app_mode_ignores_prompt :
  forall (env : Env) (promptText promptText' : string) (f : File) (st : AppState),
    file_name f <> "" ->
    (forall url, file_dataURL f = Returned url ->
                 str_truthy (split url "," !! 1%nat) = true) ->
    handleGenerate env promptText (Some f) app st
    = handleGenerate env promptText' (Some f) app st.
Proof.
  intros env promptText promptText' f st Hname Hread.
  assert (Hn : String.eqb (file_name f) "" = false) by by apply String.eqb_neq.
  unfold handleGenerate, bringToLife, fileToBase64, str_or.
  destruct (file_dataURL f) as [url| |]; [|reflexivity..].
  specialize (Hread url eq_refl).
  unfold_monad; simpl. rewrite Hn, Hread. reflexivity.
Qed.

(** ** What [initHistory] makes of the storage and of the examples *)

Section LoadFacts.
Variable Date_parse : string -> option Z.

(** The creation [initHistory] makes of a stored object. *)
Lemma revive_object (o : gmap string json) :
  revive Date_parse (Some o)
  = Returned (<["timestamp" := new_Date Date_parse (JSON_parse o !! "timestamp")]>
                (JSON_parse o)).
Proof. reflexivity. Qed.

Lemma map_throwing_revive_null (items : list (option (gmap string json))) :
  None ∈ items ->
  map_throwing (revive Date_parse) items
  = Threw (TypeError "cannot read properties of null").
Proof.
  induction items as [|item items IH]; intros Hin.
  - by apply elem_of_nil in Hin.
  - destruct item as [o|]; [|done].
    apply elem_of_cons in Hin as [?|Hin]; [done|].
    cbn [map_throwing]. rewrite revive_object. by rewrite (IH Hin).
Qed.

Lemma map_throwing_revive_objects (objects : list (gmap string json)) :
  map_throwing (revive Date_parse) (map Some objects)
  = Returned (map (fun o => <["timestamp" :=
                               new_Date Date_parse (JSON_parse o !! "timestamp")]>
                             (JSON_parse o)) objects).
Proof.
  induction objects as [|o objects IH]; [done|].
  cbn [map map_throwing]. rewrite revive_object. by rewrite IH.
Qed.

(** X12. [initHistory] takes the stored array whole or not at all.  When
    every item is an object and there is at least one, each becomes a
    creation, its [timestamp] made a [Date] and nothing else checked, in
    the stored order, and nothing is fetched.  When one item is [null] the
    others are dropped with it: the error is logged and the state is the
    one the examples alone would give. *)
Theorem stored_history_is_all_or_nothing :
  forall (items : list (option (gmap string json)))
         (fetch_example : string -> ExampleFetch) (st : AppState),
    let run := initHistory Date_parse (Some (StoredArray items)) fetch_example st in
    (forall objects,
        items = map Some objects -> objects <> [] ->
        outcome_of run = Returned tt
        /\ trace_of run = []
        /\ history (state_of run)
           = map (fun o => <["timestamp" :=
                              new_Date Date_parse (JSON_parse o !! "timestamp")]>
                            (JSON_parse o)) objects)
    /\ (None ∈ items ->
        state_of run = state_of (load_examples Date_parse fetch_example st)
        /\ effects (trace_of run)
           = ConsoleError "Failed to load history"
               (TypeError "cannot read properties of null")
             :: effects (trace_of (load_examples Date_parse fetch_example st))).
Proof.
  intros items fetch_example st run. subst run. split.
  - intros objects -> Hne.
    unfold initHistory, read_history, parse_saved.
    rewrite map_throwing_revive_objects.
    destruct objects as [|o objects]; [done|].
    unfold_monad; simpl. done.
  - intros Hnull.
    unfold initHistory, read_history, parse_saved.
    rewrite (map_throwing_revive_null items Hnull).
    generalize (load_examples Date_parse fetch_example); intros fallback.
    unfold_monad; unfold effects; simpl.
    by destruct (fallback st) as [[r s1] t1].
Qed.

Lemma promise_all_rejected {A} (ps : list (outcome A)) e :
  Threw e ∈ ps -> exists e', promise_all ps = Threw e' /\ Threw e' ∈ ps.
Proof.
  induction ps as [|p ps IH]; intros Hin.
  - by apply elem_of_nil in Hin.
  - apply elem_of_cons in Hin as [<-|Hin].
    + exists e. split; [done|]. apply elem_of_cons. by left.
    + destruct (IH Hin) as (e' & He' & Hin').
      destruct p as [a|e0|].
      * exists e'. simpl. rewrite He'. split; [done|]. apply elem_of_cons. by right.
      * exists e0. split; [done|]. apply elem_of_cons. by left.
      * exists e'. simpl. rewrite He'. split; [done|]. apply elem_of_cons. by right.
Qed.

Lemma promise_all_fulfilled {A} (results : list A) :
  promise_all (map Returned results) = Returned results.
Proof. induction results as [|a results IH]; [done|]. simpl. by rewrite IH. Qed.

(** X13. The examples are loaded together or not at all.  When the
    callback of one example URL throws, because its fetch is rejected or
    its body is not a JSON object, the history is left as it was, whatever
    the other fetches gave, and the error is logged; when every callback
    returns, the history becomes the creations that were found, in the
    order of the URLs, those with a response that is not [ok] left out. *)
Theorem examples_are_all_or_nothing :
  forall (fetch_example : string -> ExampleFetch) (st : AppState),
    let run := load_examples Date_parse fetch_example st in
    (forall url e,
        url ∈ exampleUrls ->
        load_example Date_parse (fetch_example url) = Threw e ->
        outcome_of run = Returned tt
        /\ state_of run = st
        /\ exists e',
             effects (trace_of run)
             = map Fetch exampleUrls ++ [ConsoleError "Failed to load examples" e']
             /\ exists url', url' ∈ exampleUrls
                  /\ load_example Date_parse (fetch_example url') = Threw e')
    /\ (forall found : list (option Creation),
          map (fun url => load_example Date_parse (fetch_example url)) exampleUrls
          = map Returned found ->
          outcome_of run = Returned tt
          /\ history (state_of run) = non_null found
          /\ effects (trace_of run) = map Fetch exampleUrls).
Proof.
  intros fetch_example st run. subst run. split.
  - intros url e Hurl Hthrew.
    assert (Hin : Threw e ∈ map (fun url => load_example Date_parse (fetch_example url))
                     exampleUrls).
    { apply (list_elem_of_fmap_2 (fun url => load_example Date_parse (fetch_example url)))
        in Hurl. by rewrite Hthrew in Hurl. }
    apply promise_all_rejected in Hin as (e' & Hall & Hin').
    unfold load_examples. rewrite Hall.
    unfold_monad; unfold effects; simpl.
    split; [done|]. split; [done|]. exists e'. split; [done|].
    apply list_elem_of_fmap in Hin' as (url' & Heq & Hurl').
    by exists url'.
  - intros found Hfound.
    unfold load_examples. rewrite Hfound, promise_all_fulfilled.
    unfold_monad; unfold effects; simpl. done.
Qed.
End LoadFacts.

(* ================================================================== *)
(** * Sample uses *)
(* ================================================================== *)

Lemma move_item_moves_witness :
  exists newHistory,
    move_item 0 2 ["a"; "b"; "c"] = Some <$> newHistory
    /\ newHistory ≡ₚ ["a"; "b"; "c"]
    /\ newHistory !! 2%nat = Some "a"
    /\ delete 2%nat newHistory = ["b"; "c"].
Proof. apply (move_item_moves string 0 2 ["a"; "b"; "c"]); simpl; lia. Defined.



Lemma input_area_is_inert_when_focused_witness :
  let st := setIsGenerating true idle in
  let ia := {| mode := video; prompt := "a cat"; stagedFile := None |} in
  let run := input_step (sample_env service_ok) ClickGenerate ia st in
  isFocused st = true /\ state_of run = st /\ trace_of run = [].
Proof.
  intros st ia run. split; [reflexivity|].
  destruct (input_area_is_inert_when_focused (sample_env service_ok)
              ClickGenerate ia st eq_refl) as (Hstate & Htrace & _).
  split; [exact Hstate|exact Htrace].
Defined.

Lemma regenerate_sends_original_image_witness :
  GenerateVideos VIDEO_MODEL "a cat, running" (Some ("AAAA", "image/png"))
  ∈ effects (trace_of (handleRegenerateVideo (sample_env service_ok)
                         "a cat, running" cat_video idle)).
Proof.
  apply (regenerate_sends_original_image (sample_env service_ok)
           "a cat, running" cat_video "AAAA" "image/png" idle);
    try discriminate; try reflexivity.
  left. reflexivity.
Defined.

Lemma history_icon_follows_upload_witness :
  let run := handleGenerate (sample_env service_ok) "" (Some cat_png) app idle in
  accepted_type cat_png = true
  /\ ((history (state_of run) = [] /\ activeCreation (state_of run) = None)
      \/ exists c, history (state_of run) = [c]
                   /\ activeCreation (state_of run) = Some c
                   /\ getIcon c = Returned PhotoIcon).
Proof.
  intros run. split; [reflexivity|].
  apply (history_icon_follows_upload (sample_env service_ok) "" cat_png app idle).
  - reflexivity.
  - intros url [= <-]. reflexivity.
Defined.

Lemma empty_app_is_dropped_silently_witness :
  let run := handleGenerate empty_fence_env "" (Some cat_png) app idle in
  outcome_of run = Returned tt
  /\ history (state_of run) = []
  /\ activeCreation (state_of run) = None
  /\ isGenerating (state_of run) = false
  /\ List.filter is_alert (effects (trace_of run)) = [].
Proof.
  apply (empty_app_is_dropped_silently empty_fence_env "" (Some cat_png)
           "```html```" idle).
  - intros f [= <-]. by eexists.
  - reflexivity.
  - reflexivity.
  - discriminate.
  - reflexivity.
Defined.

Lemma app_mode_ignores_prompt_witness :
  handleGenerate (sample_env service_ok) "a game of chess" (Some cat_png) app idle
  = handleGenerate (sample_env service_ok) "" (Some cat_png) app idle.
Proof.
  apply (app_mode_ignores_prompt (sample_env service_ok)
           "a game of chess" "" cat_png idle).
  - discriminate.
  - intros url [= <-]. reflexivity.
Defined.

Lemma stored_history_is_all_or_nothing_witness :
  let run := initHistory Engine.Date_parse (Some (StoredArray stored_with_null))
               second_not_ok idle in
  None ∈ stored_with_null
  /\ state_of run = state_of (load_examples Engine.Date_parse second_not_ok idle).
Proof.
  intros run.
  assert (Hnull : None ∈ stored_with_null) by (apply elem_of_cons; by left).
  split; [exact Hnull|].
  apply (stored_history_is_all_or_nothing Engine.Date_parse stored_with_null
           second_not_ok idle).
  exact Hnull.
Defined.

Lemma examples_are_all_or_nothing_witness :
  let run := load_examples Engine.Date_parse second_rejected
               (with_history [cat_video]) in
  outcome_of run = Returned tt /\ state_of run = with_history [cat_video].
Proof.
  intros run.
  destruct (proj1 (examples_are_all_or_nothing Engine.Date_parse second_rejected
                     (with_history [cat_video]))
              cassette_url (ErrorObj "Failed to fetch"))
    as (Hout & Hstate & _).
  - apply elem_of_cons. right. apply elem_of_cons. by left.
  - reflexivity.
  - split; [exact Hout|exact Hstate].
Defined.

(* ================================================================== *)
(** * The schedule and the run *)
(* ================================================================== *)

Section SameRun.
Context {St St' : Type}.

Lemma same_ret {A} (a : A) : same_run (St:=St) (St':=St') (ret a) (ret a).
Proof. by intros s s'. Qed.

Lemma same_throw {A} e : same_run (St:=St) (St':=St') (throw (A:=A) e) (throw e).
Proof. by intros s s'. Qed.

Lemma same_await {A} (p : outcome A) : same_run (St:=St) (St':=St') (await p) (await p).
Proof. by intros s s'. Qed.

Lemma same_emit e : same_run (St:=St) (St':=St') (emit e) (emit e).
Proof. by intros s s'. Qed.

Lemma same_modify f f' : same_run (St:=St) (St':=St') (modify f) (modify f').
Proof. by intros s s'. Qed.

Lemma same_bind {A B} (m : M St A) (m' : M St' A) (k : A -> M St B) (k' : A -> M St' B) :
  same_run m m' -> (forall a, same_run (k a) (k' a)) -> same_run (bind m k) (bind m' k').
Proof.
  intros Hm Hk s s'. destruct (Hm s s') as [Ho Ht].
  unfold bind, outcome_of, trace_of, effects in *.
  destruct (m s) as [[r s1] t1], (m' s') as [[r' s1'] t1']; simpl in *. subst r'.
  destruct r as [a|e|]; simpl; try done.
  destruct (Hk a s1 s1') as [Ho' Ht']. unfold outcome_of, trace_of, effects in *.
  destruct (k a s1) as [[r2 s2] t2], (k' a s1') as [[r2' s2'] t2']; simpl in *.
  by rewrite !map_app, Ht, Ht'.
Qed.

Lemma same_try_catch {A} (m : M St A) (m' : M St' A) h h' :
  same_run m m' -> (forall e, same_run (h e) (h' e)) ->
  same_run (try_catch m h) (try_catch m' h').
Proof.
  intros Hm Hh s s'. destruct (Hm s s') as [Ho Ht].
  unfold try_catch, outcome_of, trace_of, effects in *.
  destruct (m s) as [[r s1] t1], (m' s') as [[r' s1'] t1']; simpl in *. subst r'.
  destruct r as [a|e|]; simpl; try done.
  destruct (Hh e s1 s1') as [Ho' Ht']. unfold outcome_of, trace_of, effects in *.
  destruct (h e s1) as [[r2 s2] t2], (h' e s1') as [[r2' s2'] t2']; simpl in *.
  by rewrite !map_app, Ht, Ht'.
Qed.

Lemma same_try_finally {A} (m : M St A) (m' : M St' A) f f' :
  same_run m m' -> same_run f f' -> same_run (try_finally m f) (try_finally m' f').
Proof.
  intros Hm Hf s s'. destruct (Hm s s') as [Ho Ht].
  unfold try_finally, outcome_of, trace_of, effects in *.
  destruct (m s) as [[r s1] t1], (m' s') as [[r' s1'] t1']; simpl in *. subst r'.
  destruct (Hf s1 s1') as [Ho' Ht']. unfold outcome_of, trace_of, effects in *.
  destruct (f s1) as [[r2 s2] t2], (f' s1') as [[r2' s2'] t2']; simpl in *. subst r2'.
  destruct r as [a|e|]; simpl; try done;
    destruct r2; simpl; by rewrite !map_app, Ht, Ht'.
Qed.

Lemma same_when b (m : M St unit) (m' : M St' unit) :
  same_run m m' -> same_run (when b m) (when b m').
Proof. destruct b; [done|]. intros _. apply same_ret. Qed.

End SameRun.

Lemma same_awaiting {A} (p : outcome A) :
  same_run (awaiting in_page p) (awaiting at_once p).
Proof. by intros s s'. Qed.

Lemma same_sleep ms : same_run (sleep in_page ms) (sleep at_once ms).
Proof. by intros s s'. Qed.

Lemma same_set_state c : same_run (set_state in_page c) (set_state at_once c).
Proof. by intros s s'. Qed.

Lemma same_resolving {A} (m : M Page A) (m' : M AppState A) :
  same_run m m' -> same_run (resolving in_page m) (resolving at_once m').
Proof.
  intros Hm s s'. destruct (Hm s s') as [Ho Ht].
  unfold outcome_of, trace_of, effects in *. simpl.
  destruct (m s) as [[r s1] t1], (m' s') as [[r' s1'] t1']; simpl in *. subst r'.
  by destruct r.
Qed.

Create HintDb same.
#[local] Hint Resolve same_ret same_throw same_await same_emit same_awaiting
  same_sleep same_set_state : same.

Ltac same :=
  repeat first
    [ progress auto with same
    | apply same_bind; [|intros]
    | apply same_try_catch; [|intros]
    | apply same_try_finally
    | apply same_when
    | apply same_resolving
    | match goal with
      | |- context [match ?x with _ => _ end] => destruct x
      end ].

Lemma same_poll answers operation :
  same_run (Stepwise.poll in_page answers operation)
           (Stepwise.poll at_once answers operation).
Proof.
  revert operation.
  induction answers as [|answer later IH]; intros operation;
    cbn [Stepwise.poll]; destruct (done operation); same.
Qed.
#[local] Hint Resolve same_poll : same.

Lemma same_handleGenerate env promptText file mode :
  same_run (Stepwise.handleGenerate in_page env promptText file mode)
           (Stepwise.handleGenerate at_once env promptText file mode).
Proof.
  unfold Stepwise.handleGenerate, Stepwise.fileToBase64, Stepwise.ensure_key,
    Stepwise.bringToLife, Stepwise.bringToLifeAsVideo, Stepwise.adopt,
    Stepwise.report_failure, Stepwise.error_message_of.
  same.
Qed.

Lemma same_handleRegenerateVideo env newPrompt originalCreation :
  same_run (Stepwise.handleRegenerateVideo in_page env newPrompt originalCreation)
           (Stepwise.handleRegenerateVideo at_once env newPrompt originalCreation).
Proof.
  unfold Stepwise.handleRegenerateVideo, Stepwise.ensure_key,
    Stepwise.bringToLifeAsVideo, Stepwise.adopt,
    Stepwise.report_failure, Stepwise.error_message_of.
  same.
Qed.



(* ================================================================== *)
(** * The setter calls of a run *)
(* ================================================================== *)

Lemma silent_ret {A} (a : A) : silent (ret a).
Proof. by intros w. Qed.

Lemma silent_throw {A} e : silent (throw (A:=A) e).
Proof. by intros w. Qed.

Lemma silent_await {A} (p : outcome A) : silent (await p).
Proof. by intros w. Qed.

Lemma silent_emit e : silent (emit e).
Proof. by intros w. Qed.

Lemma silent_awaiting {A} (p : outcome A) : silent (awaiting in_page p).
Proof. intros w. apply suspended_called. Qed.

Lemma silent_sleep ms : silent (sleep in_page ms).
Proof. intros w. apply suspended_called. Qed.

Lemma silent_bind {A B} (m : M Page A) (k : A -> M Page B) :
  silent m -> (forall a, silent (k a)) -> silent (bind m k).
Proof.
  intros Hm Hk w. specialize (Hm w). unfold bind, state_of in *.
  destruct (m w) as [[[a|e|] s1] t1]; simpl in *; try done.
  specialize (Hk a s1). unfold state_of in Hk.
  destruct (k a s1) as [[r s2] t2]; simpl in *. congruence.
Qed.

Lemma silent_try_catch {A} (m : M Page A) (h : thrown -> M Page A) :
  silent m -> (forall e, silent (h e)) -> silent (try_catch m h).
Proof.
  intros Hm Hh w. specialize (Hm w). unfold try_catch, state_of in *.
  destruct (m w) as [[[a|e|] s1] t1]; simpl in *; try done.
  specialize (Hh e s1). unfold state_of in Hh.
  destruct (h e s1) as [[r s2] t2]; simpl in *. congruence.
Qed.

Lemma silent_when b (m : M Page unit) : silent m -> silent (when b m).
Proof. by destruct b. Qed.

Lemma silent_resolving {A} (m : M Page A) : silent m -> silent (resolving in_page m).
Proof.
  intros Hm w. specialize (Hm w). unfold state_of in *. simpl.
  destruct (m w) as [[[a|e|] s1] t1]; simpl in *; try done;
    by rewrite suspended_called.
Qed.

Create HintDb silent.
#[local] Hint Resolve silent_ret silent_throw silent_await silent_emit
  silent_awaiting silent_sleep : silent.

Ltac silent :=
  repeat first
    [ progress auto with silent
    | apply silent_bind; [|intros]
    | apply silent_try_catch; [|intros]
    | apply silent_when
    | apply silent_resolving
    | match goal with
      | |- context [match ?x with _ => _ end] => destruct x
      end ].

Lemma silent_poll answers operation : silent (Stepwise.poll in_page answers operation).
Proof.
  revert operation.
  induction answers as [|answer later IH]; intros operation;
    cbn [Stepwise.poll]; destruct (done operation); silent.
Qed.
#[local] Hint Resolve silent_poll : silent.

Lemma silent_bringToLifeAsVideo svc API_KEY prompt fileBase64 mimeType :
  silent (Stepwise.bringToLifeAsVideo in_page svc API_KEY prompt fileBase64 mimeType).
Proof. unfold Stepwise.bringToLifeAsVideo. silent. Qed.

Lemma silent_bringToLife svc prompt fileBase64 mimeType :
  silent (Stepwise.bringToLife in_page svc prompt fileBase64 mimeType).
Proof. unfold Stepwise.bringToLife. silent. Qed.

Lemma silent_ensure_key env : silent (Stepwise.ensure_key in_page env).
Proof. unfold Stepwise.ensure_key. silent. Qed.

Lemma silent_report_failure env log prefix e :
  silent (Stepwise.report_failure (St:=Page) env log prefix e).
Proof. unfold Stepwise.report_failure, Stepwise.error_message_of. silent. Qed.

Lemma silent_fileToBase64 f : silent (Stepwise.fileToBase64 in_page f).
Proof. unfold Stepwise.fileToBase64. silent. Qed.

#[local] Hint Resolve silent_bringToLifeAsVideo silent_bringToLife
  silent_ensure_key silent_report_failure silent_fileToBase64 : silent.

Lemma adopting_silent Q (m : M Page unit) : silent m -> adopting Q m.
Proof. intros Hm w. left. apply Hm. Qed.

Lemma adopting_adopt (Q : Creation -> Prop) c : Q c -> adopting Q (Stepwise.adopt in_page c).
Proof.
  intros Hc w. right. split; [done|]. exists c. split; [done|].
  unfold state_of, adoption. simpl. by rewrite <- app_assoc.
Qed.

Lemma adopting_when_adopt (Q : Creation -> Prop) b c :
  (b = true -> Q c) -> adopting Q (when b (Stepwise.adopt in_page c)).
Proof.
  destruct b; simpl; intros Hc.
  - by apply adopting_adopt, Hc.
  - by apply adopting_silent.
Qed.

Lemma adopting_bind {A} Q (m : M Page A) (k : A -> M Page unit) :
  silent m -> (forall a, adopting Q (k a)) -> adopting Q (bind m k).
Proof.
  intros Hm Hk w. specialize (Hm w). unfold bind, state_of, outcome_of in *.
  destruct (m w) as [[[a|e|] s1] t1]; simpl in *; try by left.
  specialize (Hk a s1). unfold state_of, outcome_of in Hk.
  destruct (k a s1) as [[r s2] t2]; simpl in *. by rewrite <- Hm.
Qed.

Lemma adopting_try_catch Q (m : M Page unit) (h : thrown -> M Page unit) :
  adopting Q m -> (forall e, silent (h e)) -> adopting Q (try_catch m h).
Proof.
  intros Hm Hh w. specialize (Hm w). unfold try_catch, state_of, outcome_of in *.
  destruct (m w) as [[[a|e|] s1] t1]; simpl in *; try done.
  destruct Hm as [Hm|[[=] _]].
  specialize (Hh e s1). unfold state_of in Hh.
  destruct (h e s1) as [[r s2] t2]; simpl in *. left. congruence.
Qed.

(** The calls of [setIsGenerating(true)], of the setters in [others], and
    of [try { body } finally { setIsGenerating(false) }]. *)
Lemma calls_of_try_finally Q (body : M Page unit) (w : Page) (others : list setter) :
  adopting Q body ->
  let start := foldl (fun w c => call c w) (call (SetIsGenerating true) w) others in
  let run := try_finally body (set_state in_page (SetIsGenerating false)) start in
  exists added,
    called (state_of run)
    = called w ++ SetIsGenerating true :: others ++ added
      ++ match outcome_of run with
         | Pending => []
         | _ => [SetIsGenerating false]
         end
    /\ (added = []
        \/ (outcome_of run = Returned tt /\ exists c, Q c /\ added = adoption c)).
Proof.
  intros Hbody start run.
  assert (Hcalled : called start = called w ++ SetIsGenerating true :: others).
  { subst start. rewrite calls_called. simpl. by rewrite <- app_assoc. }
  specialize (Hbody start). subst run.
  unfold try_finally, state_of, outcome_of in *. simpl.
  destruct (body start) as [[r s1] t1]; simpl in *.
  destruct Hbody as [Hs1|[-> (c & Hc & Hs1)]].
  - exists []. split; [|by left].
    destruct r; simpl; rewrite ?Hs1, Hcalled, <- ?app_assoc; simpl;
      by rewrite ?app_nil_r.
  - exists (adoption c). split; [|right; split; [done|by exists c]].
    simpl. rewrite Hs1, Hcalled.
    repeat (rewrite <- ?app_assoc; simpl). done.
Qed.

(** X15. The setter calls of a run of a generation handler, whatever is
    rendered and whatever other handlers call meanwhile, are, in order:
    [setIsGenerating(true)], [setGenerationMode] with the mode, for
    [handleGenerate] also [setActiveCreation(null)], then nothing or, in a
    run that returns, the two calls that make one new creation active and
    put it in front of whatever the history then is, and at last, unless
    the run never ends, [setIsGenerating(false)].  The creation is a
    [generated] one, or a [regenerated] one for [handleRegenerateVideo].
    No call replaces or removes an entry of the history. *)
Theorem setter_calls_of_a_run :
  forall (env : Env) (w : Page),
    (forall promptText file mode,
       let run := Stepwise.handleGenerate in_page env promptText file mode w in
       exists added,
         called (state_of run)
         = called w
           ++ SetIsGenerating true
              :: [SetGenerationMode mode; SetActiveCreation None] ++ added
              ++ match outcome_of run with
                 | Pending => []
                 | _ => [SetIsGenerating false]
                 end
         /\ (added = []
             \/ (outcome_of run = Returned tt
                 /\ exists c, generated env mode c /\ added = adoption c)))
    /\ (forall newPrompt originalCreation,
          let run := Stepwise.handleRegenerateVideo in_page env newPrompt
                       originalCreation w in
          exists added,
            called (state_of run)
            = called w
              ++ SetIsGenerating true :: [SetGenerationMode video] ++ added
              ++ match outcome_of run with
                 | Pending => []
                 | _ => [SetIsGenerating false]
                 end
            /\ (added = []
                \/ (outcome_of run = Returned tt
                    /\ exists c, regenerated env newPrompt originalCreation c
                                 /\ added = adoption c))).
Proof.
  intros env w. split.
  - intros promptText file mode0. unfold Stepwise.handleGenerate.
    change (set_state in_page) with (fun c => modify (call c)). cbv beta.
    rewrite !modify_bind.
    apply (calls_of_try_finally (generated env mode0) _ w
             [SetGenerationMode mode0; SetActiveCreation None]).
    apply adopting_try_catch; [|auto with silent].
    apply adopting_bind.
    { destruct file; silent. }
    intros [imageBase64 mimeType]. destruct mode0.
    + apply adopting_bind; [silent|]. intros html.
      apply adopting_when_adopt. intros Hhtml%str_truthy_Some.
      by apply (generated_by_handleGenerate env app).
    + apply adopting_bind; [silent|]. intros _.
      apply adopting_bind; [silent|]. intros videoUrl.
      apply adopting_when_adopt. intros Hurl%str_truthy_Some.
      by apply (generated_by_handleGenerate env video).
  - intros newPrompt originalCreation. unfold Stepwise.handleRegenerateVideo.
    change (set_state in_page) with (fun c => modify (call c)). cbv beta.
    rewrite !modify_bind.
    apply (calls_of_try_finally (regenerated env newPrompt originalCreation) _ w
             [SetGenerationMode video]).
    apply adopting_try_catch; [|auto with silent].
    apply adopting_bind.
    { silent. }
    intros [imageBase64 mimeType].
    apply adopting_bind; [silent|]. intros _.
    apply adopting_bind; [silent|]. intros videoUrl.
    apply adopting_when_adopt. intros Hurl%str_truthy_Some.
    by apply regenerated_by_handler.
Qed.

(* ================================================================== *)
(** * Properties of the preview *)
(* ================================================================== *)

Lemma lower_underscore_safe (c : ascii) :
  safe_char (lower_char (if is_alnum c then c else "_"%char)) = true.
Proof. by destruct c as [[] [] [] [] [] [] [] []]. Qed.

Lemma export_stem name :
  String.length (toLowerCase (underscore name)) = String.length name
  /\ every_char safe_char (toLowerCase (underscore name)) = true.
Proof.
  induction name as [|c name [IHlen IHsafe]]; [done|].
  cbn [underscore toLowerCase String.length every_char].
  by rewrite IHlen, IHsafe, lower_underscore_safe.
Qed.



Lemma ticks_next_step n :
  ticks n next_step 0 = Z.min (Z.of_nat n) 3.
Proof.
  induction n as [|n IH]; [done|].
  cbn [ticks]. rewrite IH. unfold next_step. simpl length.
  destruct (Z.ltb_spec (Z.min (Z.of_nat n) 3) (Z.of_nat 4 - 1)); lia.
Qed.

Lemma ticks_next_message n :
  ticks n next_message 0 = Z.of_nat n mod 4.
Proof.
  induction n as [|n IH]; [done|].
  cbn [ticks]. rewrite IH. unfold next_message. simpl length.
  change (Z.of_nat 4) with 4.
  rewrite Z.rem_mod_nonneg by (pose proof (Z.mod_pos_bound (Z.of_nat n) 4); lia).
  rewrite Nat2Z.inj_succ, <- Z.add_1_r.
  by rewrite Zplus_mod_idemp_l.
Qed.

(** X17. The loading indicators never run off their lists.  After [n]
    ticks of its interval the app indicator is at step [min n 3]: it goes
    through its four steps once and stays on the last; the video indicator
    is at message [n mod 4]: it cycles through its four messages.  Both
    indices are those of an entry. *)
Theorem loading_indicators_stay_in_range :
  forall n : nat,
    ticks n next_step 0 = Z.min (Z.of_nat n) 3
    /\ is_Some (loading_steps !! Z.to_nat (ticks n next_step 0))
    /\ ticks n next_message 0 = Z.of_nat n mod 4
    /\ is_Some (loading_messages !! Z.to_nat (ticks n next_message 0)).
Proof.
  intros n. rewrite ticks_next_step, ticks_next_message.
  split; [done|]. split; [|split; [done|]].
  - apply lookup_lt_is_Some. simpl. lia.
  - apply lookup_lt_is_Some. simpl.
    pose proof (Z.mod_pos_bound (Z.of_nat n) 4). lia.
Qed.

Lemma shows_generated env mode (c : Creation) :
  generated env mode c ->
  match mode with
  | app => (exists html, html <> "" /\ shows_app c = Some (VStr html))
           /\ shows_video c = None
  | video => (exists videoUrl, videoUrl <> "" /\ shows_video c = Some (VStr videoUrl))
             /\ shows_app c = None
  end.
Proof.
  intros (Htype & _ & _ & _ & Hpayload). unfold shows_app, shows_video.
  rewrite Htype. destruct mode; simpl;
    destruct Hpayload as [(text & Htext & Hne) Hnone]; rewrite Htext; simpl;
    (destruct (String.eqb_spec text ""); [done|]); simpl;
    split; [by exists text|done|by exists text|done].
Qed.

(** X18. The creation that is active after a run of [handleGenerate], if
    there is one, is rendered by the preview with the player of the mode
    asked for, and with that one only: the frame with a document that is
    not empty for an app, the video player with a source that is not empty
    for a video. *)
Theorem preview_shows_what_was_generated :
  forall (env : Env) (promptText : string) (file : option File)
         (mode : GenerationMode) (st : AppState) (c : Creation),
    let run := handleGenerate env promptText file mode st in
    activeCreation (state_of run) = Some c ->
    match mode with
    | app => (exists html, html <> "" /\ shows_app c = Some (VStr html))
             /\ shows_video c = None
    | video => (exists videoUrl,
                   videoUrl <> "" /\ shows_video c = Some (VStr videoUrl))
               /\ shows_app c = None
    end.
Proof.
  intros env promptText file mode0 st c run Hactive. subst run.
  unfold handleGenerate in Hactive. rewrite !modify_bind in Hactive.
  destruct (try_finally_adopts (generated env mode0) _
              (setActiveCreation None
                 (setGenerationMode mode0 (setIsGenerating true st)))
              (handleGenerate_body_adopts env promptText file mode0))
    as [_ [[_ Hnone]|(_ & c' & Hc' & _ & Hsome)]].
  - assert (Heq : Some c = None) by exact (eq_trans (eq_sym Hactive) Hnone).
    discriminate Heq.
  - assert (Heq : Some c = Some c') by exact (eq_trans (eq_sym Hactive) Hsome).
    injection Heq as ->. by apply (shows_generated env).
Qed.

Lemma preview_shows_what_was_generated_witness :
  let run := handleGenerate (sample_env service_ok) "a cat" None video idle in
  exists c,
    activeCreation (state_of run) = Some c
    /\ (exists videoUrl, videoUrl <> "" /\ shows_video c = Some (VStr videoUrl))
    /\ shows_app c = None.
Proof.
  intros run.
  destruct (activeCreation (state_of run)) as [c|] eqn:Hactive.
  - exists c. split; [reflexivity|].
    exact (preview_shows_what_was_generated (sample_env service_ok) "a cat"
             None video idle c Hactive).
  - vm_compute in Hactive. discriminate Hactive.
Defined.

Section ReloadFacts.
Variable Date_parse : string -> option Z.
Variable toISOString : Z -> string.

(** X19. A video does not survive a reload as a video that plays: of the
    history that [initHistory] reads back after the persist effect has
    written one, no creation is rendered with the video player, and a
    creation that was a video comes back as a video, so that the preview
    renders no player at all for it. *)
Theorem reloaded_video_has_no_player :
  forall (h : list Creation) (storage : option stored)
         (fetch_example : string -> ExampleFetch) (st : AppState),
    h <> [] ->
    let stored := fst (persist toISOString None h storage) in
    let run := initHistory Date_parse stored fetch_example st in
    Forall2 (fun c c' =>
               shows_video c' = None
               /\ (c !! "type" = Some (VStr "video") ->
                   c' !! "type" = Some (VStr "video") /\ shows_app c' = None))
            h (history (state_of run)).
Proof.
  intros h storage fetch_example st Hne stored0 run.
  assert (Hstored : stored0 =
      Some (StoredArray (map Some (serialize_history toISOString h)))).
  { subst stored0. unfold persist. by destruct h. }
  destruct (parse_serialized Date_parse toISOString h) as (h' & Hparse & Hh').
  assert (Hrun : history (state_of run) = h').
  { subst run. rewrite Hstored. unfold initHistory, read_history.
    unfold bind, try_catch, await, modify, state_of. rewrite Hparse. simpl.
    destruct Hh' as [|c c' h h']; [done|]. reflexivity. }
  rewrite Hrun. eapply Forall2_impl; [exact Hh'|].
  intros c c' (Hurl & Hkept & _). unfold shows_video, shows_app.
  rewrite Hurl. split; [by rewrite andb_false_r|].
  intros Htype.
  assert (Htype' : c' !! "type" = Some (VStr "video")).
  { rewrite <- Htype. apply Hkept; [done|].
    unfold kept. rewrite decide_False by done.
    intros v. rewrite Htype. by intros [= <-]. }
  by rewrite Htype'.
Qed.
End ReloadFacts.

Lemma reloaded_video_has_no_player_witness :
  let stored := fst (persist Engine.toISOString None [cat_video] None) in
  let run := initHistory Engine.Date_parse stored no_examples idle in
  exists c', history (state_of run) = [c']
             /\ shows_video c' = None /\ shows_app c' = None.
Proof.
  cbv zeta.
  pose proof (reloaded_video_has_no_player Engine.Date_parse Engine.toISOString
                [cat_video] None no_examples idle ltac:(discriminate)) as Hall.
  cbv zeta in Hall.
  apply Forall2_cons_inv_l in Hall as (c' & rest & (Hvideo & Happ) & Hall & Heq).
  apply Forall2_nil_inv_l in Hall as ->.
  exists c'. split; [exact Heq|]. split; [exact Hvideo|].
  exact (proj2 (Happ eq_refl)).
Defined.
